(** * Bitrader: order book matching, settlement, P2P escrow and disputes

    A shallow embedding of

    - [backend/routers/orderbook.py]: [create_order], [cancel_order],
      [match_order], [execute_trade_settlement];
    - [backend/routers/p2p.py]: [delete_advertisement], [initiate_trade],
      [mark_payment_sent], [confirm_payment], [cancel_trade];
    - [backend/routers/dispute.py]: [create_dispute], [resolve_dispute],
      [cancel_dispute];
    - [backend/services/ad_expiration_service.py]: [_check_and_expire_ads].

    Conventions of the embedding.

    - A SQLAlchemy table is the list of its rows.  The object returned by
      [query.filter(..).first()] is a row of the table: it is identified with
      its position, and an attribute assignment on it is an [alter] at that
      position.  The only handler that deletes a row is [cancel_dispute].
    - [decimal.Decimal] values are exact rationals ([Q]); the rounding of the
      decimal context and of the [DECIMAL(20, 8)] columns is not modelled.
      Equalities between amounts are stated with [==].
    - A handler that raises leaves the database as of its last [commit]: the
      session of the request is closed without committing.
    - Time stamps are integers (seconds); [timedelta(minutes=m)] is [60 * m].
      The [OverflowError] of a date that [datetime] cannot hold is not
      modelled.
    - Free-text columns that no decision depends on (descriptions, messages)
      are left out; an f-string whose evaluation can raise is kept as the
      check that raises. *)

From Stdlib Require Import QArith Qminmax Lqa ZArith Lia Ascii String.
From stdpp Require Import base decidable option list strings sorting pretty
  relations.

Local Open Scope Z_scope.
Local Open Scope Q_scope.
Local Open Scope string_scope.

(** ** Exceptions and results *)

Inductive exn : Type :=
  | HTTPException (status_code : Z) (detail : string)
  | TypeError
  | ValueError
  | DecimalException.

Inductive result (A : Type) : Type :=
  | Ok (a : A)
  | Raise (e : exn).
Arguments Ok {A} a.
Arguments Raise {A} e.

#[global] Instance result_bind : MBind result := fun A B k r =>
  match r with
  | Ok a => k a
  | Raise e => Raise e
  end.

Definition HTTP_400_BAD_REQUEST : Z := 400%Z.
Definition HTTP_404_NOT_FOUND : Z := 404%Z.

(** ** Decimal comparisons *)

#[global] Instance Qeq_dec' : RelDecision Qeq := Qeq_dec.
#[global] Instance Qle_dec' : RelDecision Qle.
Proof.
  intros x y. destruct (Qlt_le_dec y x) as [H|H].
  - right. apply Qlt_not_le, H.
  - left. exact H.
Defined.
#[global] Instance Qlt_dec' : RelDecision Qlt.
Proof.
  intros x y. destruct (Qlt_le_dec x y) as [H|H].
  - left. exact H.
  - right. apply Qle_not_lt, H.
Defined.

(** ** Enumerations of [models/__init__.py] *)

Inductive OrderType := BUY | SELL.
Inductive OrderBookOrderType := MARKET | LIMIT | STOP_LOSS.
Inductive OrderStatus :=
  PENDING | PARTIALLY_FILLED | FILLED | CANCELLED | EXPIRED.
Inductive P2PTradeStatus :=
  | P2P_PENDING | P2P_PAYMENT_SENT | P2P_PAYMENT_RECEIVED
  | P2P_COMPLETED | P2P_CANCELLED | P2P_DISPUTED.
Inductive DisputeStatus :=
  D_OPEN | D_IN_REVIEW | D_UNDER_REVIEW | D_RESOLVED | D_REJECTED.
Inductive TransactionType :=
  | DEPOSIT | WITHDRAWAL | TRADE | P2P_BUY | P2P_SELL
  | TRANSFER | FEE | ESCROW_LOCK | ESCROW_RELEASE.

#[global] Instance OrderType_eq_dec : EqDecision OrderType.
Proof. solve_decision. Defined.
#[global] Instance OrderBookOrderType_eq_dec : EqDecision OrderBookOrderType.
Proof. solve_decision. Defined.
#[global] Instance OrderStatus_eq_dec : EqDecision OrderStatus.
Proof. solve_decision. Defined.
#[global] Instance P2PTradeStatus_eq_dec : EqDecision P2PTradeStatus.
Proof. solve_decision. Defined.
#[global] Instance DisputeStatus_eq_dec : EqDecision DisputeStatus.
Proof. solve_decision. Defined.
#[global] Instance TransactionType_eq_dec : EqDecision TransactionType.
Proof. solve_decision. Defined.

(** [OrderType(s)] and [OrderBookOrderType(s)]: the enum constructors raise
    [ValueError] on a string that is no member. *)
Definition OrderType_of_string (s : string) : result OrderType :=
  if decide (s = "BUY") then Ok BUY
  else if decide (s = "SELL") then Ok SELL
  else Raise ValueError.

Definition OrderBookOrderType_of_string (s : string) : result OrderBookOrderType :=
  if decide (s = "MARKET") then Ok MARKET
  else if decide (s = "LIMIT") then Ok LIMIT
  else if decide (s = "STOP_LOSS") then Ok STOP_LOSS
  else Raise ValueError.

(** ** Rows *)

Module Wallet.
Record t := mk {
  id : Z;
  user_id : Z;
  currency : string;
  available_balance : Q;
  locked_balance : Q }.
Definition set_available (f : Q -> Q) (w : t) : t :=
  mk (id w) (user_id w) (currency w) (f (available_balance w)) (locked_balance w).
Definition set_locked (f : Q -> Q) (w : t) : t :=
  mk (id w) (user_id w) (currency w) (available_balance w) (f (locked_balance w)).
End Wallet.

Module Transaction.
Record t := mk {
  wallet_id : Z;
  type : TransactionType;
  amount : Q;
  currency : string;
  status : string;
  reference_id : option string }.
End Transaction.

Module OrderBookOrder.
Record t := mk {
  id : Z;
  user_id : Z;
  instrument : string;
  order_type : OrderType;
  order_subtype : OrderBookOrderType;
  price : option Q;
  quantity : Q;
  remaining_quantity : Q;
  status : OrderStatus;
  created_at : Z }.
Definition set_remaining (f : Q -> Q) (o : t) : t :=
  mk (id o) (user_id o) (instrument o) (order_type o) (order_subtype o)
     (price o) (quantity o) (f (remaining_quantity o)) (status o) (created_at o).
Definition set_status (s : OrderStatus) (o : t) : t :=
  mk (id o) (user_id o) (instrument o) (order_type o) (order_subtype o)
     (price o) (quantity o) (remaining_quantity o) s (created_at o).
End OrderBookOrder.

Module Trade.
Record t := mk {
  order_id : Z;
  buyer_id : Z;
  seller_id : Z;
  instrument : string;
  price : Q;
  quantity : Q;
  total_amount : Q;
  fee : Q }.
End Trade.

Module P2PAdvertisement.
Record t := mk {
  id : Z;
  user_id : Z;
  ad_type : OrderType;
  currency : string;
  fiat_currency : string;
  price : Q;
  min_limit : Q;
  max_limit : Q;
  available_amount : Q;
  payment_time_limit : Z;
  is_active : bool;
  created_at : Z }.
Definition set_is_active (b : bool) (a : t) : t :=
  mk (id a) (user_id a) (ad_type a) (currency a) (fiat_currency a) (price a)
     (min_limit a) (max_limit a) (available_amount a) (payment_time_limit a)
     b (created_at a).
Definition set_available_amount (f : Q -> Q) (a : t) : t :=
  mk (id a) (user_id a) (ad_type a) (currency a) (fiat_currency a) (price a)
     (min_limit a) (max_limit a) (f (available_amount a)) (payment_time_limit a)
     (is_active a) (created_at a).
End P2PAdvertisement.

Module P2PTrade.
Record t := mk {
  id : Z;
  advertisement_id : Z;
  buyer_id : Z;
  seller_id : Z;
  amount : Q;
  price : Q;
  total_fiat : Q;
  currency : string;
  fiat_currency : string;
  status : P2PTradeStatus;
  escrow_id : option Z;
  completed_at : option Z }.
Definition set_status (s : P2PTradeStatus) (x : t) : t :=
  mk (id x) (advertisement_id x) (buyer_id x) (seller_id x) (amount x)
     (price x) (total_fiat x) (currency x) (fiat_currency x) s
     (escrow_id x) (completed_at x).
Definition set_completed_at (c : option Z) (x : t) : t :=
  mk (id x) (advertisement_id x) (buyer_id x) (seller_id x) (amount x)
     (price x) (total_fiat x) (currency x) (fiat_currency x) (status x)
     (escrow_id x) c.
End P2PTrade.

Module Escrow.
Record t := mk {
  id : Z;
  amount : Q;
  currency : string;
  status : string;           (* "LOCKED", "RELEASED", "REFUNDED" *)
  released_at : option Z }.
Definition set_status (s : string) (e : t) : t :=
  mk (id e) (amount e) (currency e) s (released_at e).
Definition set_released_at (r : option Z) (e : t) : t :=
  mk (id e) (amount e) (currency e) (status e) r.
End Escrow.

Module Dispute.
Record t := mk {
  id : Z;
  trade_id : Z;
  filed_by : Z;
  status : DisputeStatus;
  resolution : option string;
  resolved_by : option Z;
  resolved_at : option Z }.
End Dispute.

Module Notification.
Record t := mk {
  user_id : Z;
  type : string;
  title : string }.
End Notification.

(** ** The database *)

Record Db := mkDb {
  wallets : list Wallet.t;
  transactions : list Transaction.t;
  orders : list OrderBookOrder.t;
  trades : list Trade.t;
  advertisements : list P2PAdvertisement.t;
  p2p_trades : list P2PTrade.t;
  escrows : list Escrow.t;
  disputes : list Dispute.t;
  notifications : list Notification.t }.

Definition with_wallets (f : list Wallet.t -> list Wallet.t) (db : Db) : Db :=
  mkDb (f (wallets db)) (transactions db) (orders db) (trades db)
       (advertisements db) (p2p_trades db) (escrows db) (disputes db)
       (notifications db).
Definition with_transactions (f : list Transaction.t -> list Transaction.t) (db : Db) : Db :=
  mkDb (wallets db) (f (transactions db)) (orders db) (trades db)
       (advertisements db) (p2p_trades db) (escrows db) (disputes db)
       (notifications db).
Definition with_orders (f : list OrderBookOrder.t -> list OrderBookOrder.t) (db : Db) : Db :=
  mkDb (wallets db) (transactions db) (f (orders db)) (trades db)
       (advertisements db) (p2p_trades db) (escrows db) (disputes db)
       (notifications db).
Definition with_trades (f : list Trade.t -> list Trade.t) (db : Db) : Db :=
  mkDb (wallets db) (transactions db) (orders db) (f (trades db))
       (advertisements db) (p2p_trades db) (escrows db) (disputes db)
       (notifications db).
Definition with_advertisements (f : list P2PAdvertisement.t -> list P2PAdvertisement.t) (db : Db) : Db :=
  mkDb (wallets db) (transactions db) (orders db) (trades db)
       (f (advertisements db)) (p2p_trades db) (escrows db) (disputes db)
       (notifications db).
Definition with_p2p_trades (f : list P2PTrade.t -> list P2PTrade.t) (db : Db) : Db :=
  mkDb (wallets db) (transactions db) (orders db) (trades db)
       (advertisements db) (f (p2p_trades db)) (escrows db) (disputes db)
       (notifications db).
Definition with_escrows (f : list Escrow.t -> list Escrow.t) (db : Db) : Db :=
  mkDb (wallets db) (transactions db) (orders db) (trades db)
       (advertisements db) (p2p_trades db) (f (escrows db)) (disputes db)
       (notifications db).
Definition with_disputes (f : list Dispute.t -> list Dispute.t) (db : Db) : Db :=
  mkDb (wallets db) (transactions db) (orders db) (trades db)
       (advertisements db) (p2p_trades db) (escrows db) (f (disputes db))
       (notifications db).
Definition with_notifications (f : list Notification.t -> list Notification.t) (db : Db) : Db :=
  mkDb (wallets db) (transactions db) (orders db) (trades db)
       (advertisements db) (p2p_trades db) (escrows db) (disputes db)
       (f (notifications db)).

(** [db.add(row)]: the new row goes to the end of its table. *)
Definition add {A} (x : A) (t : list A) : list A := t ++ [x].

(** The primary key given to a new row: one more than the largest key. *)
Definition next_id {A} (key : A -> Z) (t : list A) : Z :=
  (1 + foldr Z.max 0 (key <$> t))%Z.

(** ** Queries used by several handlers *)

(** [db.query(Wallet).filter(Wallet.user_id == u, Wallet.currency == c).first()] *)
Definition find_wallet (db : Db) (u : Z) (c : string) : option (nat * Wallet.t) :=
  list_find (fun w => Wallet.user_id w = u /\ Wallet.currency w = c) (wallets db).

(** [s.split("/")] *)
Fixpoint split_slash (s : string) : list string :=
  match s with
  | EmptyString => [EmptyString]
  | String c s' =>
      if decide (c = "/"%char) then EmptyString :: split_slash s'
      else match split_slash s' with
           | [] => [String c EmptyString]
           | h :: t => String c h :: t
           end
  end.

(** [base_currency, quote_currency = instrument.split("/")]: unpacking raises
    [ValueError] unless there are exactly two parts. *)
Definition split_instrument (instrument : string) : result (string * string) :=
  match split_slash instrument with
  | [b; q] => Ok (b, q)
  | _ => Raise ValueError
  end.

(** [Decimal(str(settings.TRADING_FEE_PERCENTAGE / 100))] with the value
    [0.1] of [config.py]: [Decimal("0.001")]. *)
Definition fee_rate : Q := 1 # 1000.

(** ** [routers/orderbook.py] *)

Abbreviation Order := OrderBookOrder.t.

(** The request body [schemas.OrderCreate]. *)
Record OrderCreate := mkOrderCreate {
  oc_instrument : string;
  oc_order_type : string;
  oc_order_subtype : string;
  oc_price : option Q;
  oc_quantity : Q }.

(** Truth value of an optional decimal, as in [if order.price:] and
    [order_data.price or 0]: [None] and zero are false. *)
Definition truthy (p : option Q) : option Q :=
  match p with
  | Some q => if decide (q == 0) then None else Some q
  | None => None
  end.

(** *** [execute_trade_settlement] *)

Definition trade_tx (w : Wallet.t) (amount : Q) (currency : string) : Transaction.t :=
  Transaction.mk (Wallet.id w) TRADE amount currency "COMPLETED" None.

(** One leg: [if wallet: wallet.<field> <op>= ..; db.add(Transaction(..))].
    [guard] is the divisor of the leg's description: a zero divisor raises. *)
Definition settlement_leg (wallet : option (nat * Wallet.t)) (guard : Q)
    (upd : Wallet.t -> Wallet.t) (tx_amount : Q) (currency : string)
    (db : Db) : result Db :=
  match wallet with
  | None => Ok db
  | Some (i, w) =>
      if decide (guard == 0) then Raise DecimalException
      else Ok (with_transactions (add (trade_tx w tx_amount currency))
                 (with_wallets (alter upd i) db))
  end.

Definition execute_trade_settlement (buyer_id seller_id : Z)
    (base_currency quote_currency : string) (quantity amount fee : Q)
    (db : Db) : result Db :=
  (* Buyer: unlock quote currency, receive base currency *)
  let buyer_quote_wallet := find_wallet db buyer_id quote_currency in
  let buyer_base_wallet := find_wallet db buyer_id base_currency in
  db ← settlement_leg buyer_quote_wallet quantity
         (Wallet.set_locked (fun l => l - amount)) (- amount) quote_currency db;
  let received_quantity := quantity - (quantity * fee / amount) in
  db ← settlement_leg buyer_base_wallet amount
         (Wallet.set_available (fun a => a + received_quantity))
         received_quantity base_currency db;
  (* Seller: unlock base currency, receive quote currency *)
  let seller_base_wallet := find_wallet db seller_id base_currency in
  let seller_quote_wallet := find_wallet db seller_id quote_currency in
  db ← settlement_leg seller_base_wallet quantity
         (Wallet.set_locked (fun l => l - quantity)) (- quantity) base_currency db;
  let received_amount := amount - fee in
  settlement_leg seller_quote_wallet 1
    (Wallet.set_available (fun a => a + received_amount))
    received_amount quote_currency db.

(** *** [match_order] *)

Definition find_order (db : Db) (order_id : Z) : option (nat * Order) :=
  list_find (fun o => OrderBookOrder.id o = order_id) (orders db).

Definition open_status (s : OrderStatus) : Prop :=
  s = PENDING \/ s = PARTIALLY_FILLED.

Definition opposite (t : OrderType) : OrderType :=
  match t with BUY => SELL | SELL => BUY end.

(** [OrderBookOrder.price <= order.price] (BUY aggressor) or [>=] (SELL
    aggressor), added to the query only [if order.price:].  A comparison
    with a NULL price is not true in SQL. *)
Definition price_filter (order c : Order) : Prop :=
  match truthy (OrderBookOrder.price order) with
  | None => True
  | Some p =>
      match OrderBookOrder.price c with
      | None => False
      | Some q =>
          match OrderBookOrder.order_type order with
          | BUY => q <= p
          | SELL => p <= q
          end
      end
  end.

Definition is_candidate (order c : Order) : Prop :=
  OrderBookOrder.instrument c = OrderBookOrder.instrument order
  /\ OrderBookOrder.order_type c = opposite (OrderBookOrder.order_type order)
  /\ open_status (OrderBookOrder.status c)
  /\ OrderBookOrder.id c <> OrderBookOrder.id order
  /\ price_filter order c.

#[global] Instance price_filter_dec order c : Decision (price_filter order c).
Proof.
  unfold price_filter.
  destruct (truthy _); [|apply _].
  destruct (OrderBookOrder.price c); [|apply _].
  destruct (OrderBookOrder.order_type order); apply _.
Defined.

#[global] Instance is_candidate_dec order c : Decision (is_candidate order c).
Proof. unfold is_candidate, open_status. apply _. Defined.

(** Order of NULL-able prices in SQLite: NULL sorts before every value. *)
Definition null_lt (a b : option Q) : Prop :=
  match a, b with
  | None, Some _ => True
  | Some x, Some y => x < y
  | _, None => False
  end.

Definition null_eq (a b : option Q) : Prop :=
  match a, b with
  | None, None => True
  | Some x, Some y => x == y
  | _, _ => False
  end.

(** [order_by(OrderBookOrder.price, OrderBookOrder.created_at)] *)
Definition by_price_asc_time (x y : Order) : Prop :=
  null_lt (OrderBookOrder.price x) (OrderBookOrder.price y)
  \/ (null_eq (OrderBookOrder.price x) (OrderBookOrder.price y)
      /\ (OrderBookOrder.created_at x <= OrderBookOrder.created_at y)%Z).

(** [order_by(desc(OrderBookOrder.price), OrderBookOrder.created_at)] *)
Definition by_price_desc_time (x y : Order) : Prop :=
  null_lt (OrderBookOrder.price y) (OrderBookOrder.price x)
  \/ (null_eq (OrderBookOrder.price x) (OrderBookOrder.price y)
      /\ (OrderBookOrder.created_at x <= OrderBookOrder.created_at y)%Z).

Definition priority (t : OrderType) : relation Order :=
  match t with
  | BUY => by_price_asc_time
  | SELL => by_price_desc_time
  end.

#[global] Instance null_lt_dec : RelDecision null_lt.
Proof. intros [x|] [y|]; simpl; apply _. Defined.
#[global] Instance null_eq_dec : RelDecision null_eq.
Proof. intros [x|] [y|]; simpl; apply _. Defined.
#[global] Instance priority_dec t : RelDecision (priority t).
Proof.
  intros x y. destruct t; simpl; unfold by_price_asc_time, by_price_desc_time;
    apply _.
Defined.

(** The rows selected by the query of [match_order], each with its position
    in the table, in the order of its [order_by]. *)
Definition row_priority (t : OrderType) : relation (nat * Order) :=
  fun x y => priority t x.2 y.2.

#[global] Instance row_priority_dec t : RelDecision (row_priority t).
Proof. intros x y. unfold row_priority. apply _. Defined.

Definition matching_orders (db : Db) (order : Order) : list (nat * Order) :=
  merge_sort (row_priority (OrderBookOrder.order_type order))
    (filter (fun x => is_candidate order x.2)
       (imap (fun i o => (i, o)) (orders db))).

(** [if remaining == 0: FILLED elif remaining < quantity: PARTIALLY_FILLED] *)
Definition update_status (o : Order) : Order :=
  if decide (OrderBookOrder.remaining_quantity o == 0) then
    OrderBookOrder.set_status FILLED o
  else if decide (OrderBookOrder.remaining_quantity o < OrderBookOrder.quantity o) then
    OrderBookOrder.set_status PARTIALLY_FILLED o
  else o.

Definition fill (trade_quantity : Q) (o : Order) : Order :=
  update_status (OrderBookOrder.set_remaining (fun r => r - trade_quantity) o).

(** One iteration of the [for matching_order in matching_orders] loop, after
    its [break] test, up to and including its [db.commit()].  [ia] is the
    position of the aggressor [order], [ic] that of [matching_order]. *)
Definition match_step (ia : nat) (order : Order) (ic : nat) (matching_order : Order)
    (db : Db) : result (Db * Order) :=
  let trade_quantity :=
    Qmin (OrderBookOrder.remaining_quantity order)
         (OrderBookOrder.remaining_quantity matching_order) in
  trade_price ← match OrderBookOrder.price matching_order with
                 | Some p => Ok p
                 | None => Raise TypeError
                 end;
  let trade_amount := trade_quantity * trade_price in
  let fee := trade_amount * fee_rate in
  let order' := fill trade_quantity order in
  let matching_order' := fill trade_quantity matching_order in
  '(base_currency, quote_currency) ← split_instrument (OrderBookOrder.instrument order);
  let buyer_id :=
    match OrderBookOrder.order_type order with
    | BUY => OrderBookOrder.user_id order
    | SELL => OrderBookOrder.user_id matching_order
    end in
  let seller_id :=
    match OrderBookOrder.order_type order with
    | BUY => OrderBookOrder.user_id matching_order
    | SELL => OrderBookOrder.user_id order
    end in
  let trade :=
    Trade.mk (OrderBookOrder.id order) buyer_id seller_id
      (OrderBookOrder.instrument order) trade_price trade_quantity
      trade_amount fee in
  let db := with_orders (fun t => <[ic := matching_order']> (<[ia := order']> t)) db in
  let db := with_trades (add trade) db in
  db ← execute_trade_settlement buyer_id seller_id base_currency quote_currency
         trade_quantity trade_amount fee db;
  Ok (db, order').

(** The loop.  The result is the database as last committed and the
    exception that ended the loop, if one did. *)
Fixpoint match_loop (ia : nat) (order : Order) (cands : list (nat * Order))
    (db : Db) : Db * option exn :=
  match cands with
  | [] => (db, None)
  | (ic, matching_order) :: rest =>
      if decide (OrderBookOrder.remaining_quantity order <= 0) then (db, None)
      else
        match match_step ia order ic matching_order db with
        | Ok (db', order') => match_loop ia order' rest db'
        | Raise e => (db, Some e)
        end
  end.

Definition match_order (order_id : Z) (db : Db) : Db * option exn :=
  match find_order db order_id with
  | None => (db, None)
  | Some (ia, order) =>
      if decide (OrderBookOrder.remaining_quantity order <= 0) then (db, None)
      else match_loop ia order (matching_orders db order) db
  end.

(** *** [create_order] *)

(** [order_data.price is not None and order_data.price <= 0] *)
Definition price_not_positive (p : option Q) : Prop :=
  match p with
  | Some p => p <= 0
  | None => False
  end.

#[global] Instance price_not_positive_dec p : Decision (price_not_positive p).
Proof. destruct p; simpl; apply _. Defined.

Definition create_order (order_data : OrderCreate) (current_user : Z) (now : Z)
    (db : Db) : result (Db * Z) :=
  if decide (oc_order_subtype order_data = "LIMIT" /\ oc_price order_data = None) then
    Raise (HTTPException HTTP_400_BAD_REQUEST "Price required for limit orders")
  else if decide (price_not_positive (oc_price order_data)) then
    Raise (HTTPException HTTP_400_BAD_REQUEST "Price must be greater than 0")
  else if decide (oc_quantity order_data <= 0) then
    Raise (HTTPException HTTP_400_BAD_REQUEST "Quantity must be greater than 0")
  else
  match split_instrument (oc_instrument order_data) with
  | Raise _ =>
      Raise (HTTPException HTTP_400_BAD_REQUEST
               "Invalid instrument format. Use format: BTC/USD")
  | Ok (base_currency, quote_currency) =>
      (* Check wallet balance, lock funds *)
      let lock (currency : string) (required_amount : Q) : result Db :=
        match find_wallet db current_user currency with
        | Some (i, wallet) =>
            if decide (Wallet.available_balance wallet < required_amount) then
              Raise (HTTPException HTTP_400_BAD_REQUEST
                       ("Insufficient " ++ currency ++ " balance"))
            else
              Ok (with_wallets
                    (alter (fun w => Wallet.set_locked (fun l => l + required_amount)
                                       (Wallet.set_available (fun a => a - required_amount) w)) i)
                    db)
        | None =>
            Raise (HTTPException HTTP_400_BAD_REQUEST
                     ("Insufficient " ++ currency ++ " balance"))
        end in
      db ← (if decide (oc_order_type order_data = "BUY") then
               lock quote_currency
                 (oc_quantity order_data * default 0 (truthy (oc_price order_data)))
             else
               lock base_currency (oc_quantity order_data));
      order_type ← OrderType_of_string (oc_order_type order_data);
      order_subtype ← OrderBookOrderType_of_string (oc_order_subtype order_data);
      let new_order :=
        OrderBookOrder.mk (next_id OrderBookOrder.id (orders db)) current_user
          (oc_instrument order_data) order_type order_subtype
          (truthy (oc_price order_data)) (oc_quantity order_data)
          (oc_quantity order_data) PENDING now in
      let db := with_orders (add new_order) db in
      (* Attempt to match order; an exception is printed and dropped *)
      Ok ((match_order (OrderBookOrder.id new_order) db).1, OrderBookOrder.id new_order)
  end.

(** *** [cancel_order] *)

Definition cancel_order (order_id : Z) (current_user : Z) (db : Db) : result Db :=
  match list_find (fun o => OrderBookOrder.id o = order_id
                            /\ OrderBookOrder.user_id o = current_user) (orders db) with
  | None => Raise (HTTPException HTTP_404_NOT_FOUND "Order not found")
  | Some (io, order) =>
      if decide (open_status (OrderBookOrder.status order)) then
        (* Unlock funds *)
        '(base_currency, quote_currency) ← split_instrument (OrderBookOrder.instrument order);
        let unlock (currency : string) (locked_amount : Q) : Db :=
          match find_wallet db current_user currency with
          | Some (i, _) =>
              with_wallets
                (alter (fun w => Wallet.set_available (fun a => a + locked_amount)
                                   (Wallet.set_locked (fun l => l - locked_amount) w)) i)
                db
          | None => db
          end in
        db ← match OrderBookOrder.order_type order with
              | BUY =>
                  match OrderBookOrder.price order with
                  | Some price =>
                      Ok (unlock quote_currency
                            (OrderBookOrder.remaining_quantity order * price))
                  | None => Raise TypeError
                  end
              | SELL =>
                  Ok (unlock base_currency (OrderBookOrder.remaining_quantity order))
              end;
        Ok (with_orders (alter (OrderBookOrder.set_status CANCELLED) io) db)
      else
        Raise (HTTPException HTTP_400_BAD_REQUEST
                 "Can only cancel pending or partially filled orders")
  end.

(** ** [routers/p2p.py] *)

(** [db.query(Escrow).filter(Escrow.id == trade.escrow_id).first()]; a NULL
    [escrow_id] selects no row. *)
Definition find_escrow (db : Db) (escrow_id : option Z) : option (nat * Escrow.t) :=
  match escrow_id with
  | Some e => list_find (fun x => Escrow.id x = e) (escrows db)
  | None => None
  end.

Definition mark_payment_sent (trade_id : Z) (current_user : Z) (db : Db) : result Db :=
  match list_find (fun t => P2PTrade.id t = trade_id
                            /\ P2PTrade.buyer_id t = current_user) (p2p_trades db) with
  | None => Raise (HTTPException HTTP_404_NOT_FOUND "Trade not found")
  | Some (it, trade) =>
      if decide (P2PTrade.status trade <> P2P_PENDING) then
        Raise (HTTPException HTTP_400_BAD_REQUEST "Trade is not in pending status")
      else
        Ok (with_p2p_trades (alter (P2PTrade.set_status P2P_PAYMENT_SENT) it) db)
  end.

Definition p2p_tx (wallet_id : Z) (type : TransactionType) (amount : Q)
    (currency : string) (trade_id : Z) : Transaction.t :=
  Transaction.mk wallet_id type amount currency "COMPLETED"
    (Some ("P2P_TRADE_" ++ pretty trade_id)).

Definition confirm_payment (trade_id : Z) (current_user : Z) (now : Z) (db : Db)
    : result Db :=
  match list_find (fun t => P2PTrade.id t = trade_id
                            /\ P2PTrade.seller_id t = current_user) (p2p_trades db) with
  | None => Raise (HTTPException HTTP_404_NOT_FOUND "Trade not found")
  | Some (it, trade) =>
      if decide (P2PTrade.status trade <> P2P_PAYMENT_SENT) then
        Raise (HTTPException HTTP_400_BAD_REQUEST "Payment must be marked as sent first")
      else
        let amount := P2PTrade.amount trade in
        let total_fiat := P2PTrade.total_fiat trade in
        (* Release escrow *)
        let db :=
          match find_escrow db (P2PTrade.escrow_id trade) with
          | Some (ie, _) =>
              with_escrows
                (alter (fun e => Escrow.set_released_at (Some now)
                                   (Escrow.set_status "RELEASED" e)) ie) db
          | None => db
          end in
        (* Transfer crypto funds *)
        let seller_wallet :=
          find_wallet db (P2PTrade.seller_id trade) (P2PTrade.currency trade) in
        let buyer_wallet :=
          find_wallet db (P2PTrade.buyer_id trade) (P2PTrade.currency trade) in
        let db :=
          match seller_wallet with
          | Some (i, _) =>
              with_wallets (alter (Wallet.set_locked (fun l => l - amount)) i) db
          | None => db
          end in
        let '(db, buyer_wallet_id) :=
          match buyer_wallet with
          | Some (i, w) =>
              (with_wallets (alter (Wallet.set_available (fun a => a + amount)) i) db,
               Wallet.id w)
          | None =>
              (* Create wallet if doesn't exist *)
              let w := Wallet.mk (next_id Wallet.id (wallets db))
                         (P2PTrade.buyer_id trade) (P2PTrade.currency trade) amount 0 in
              (with_wallets (add w) db, Wallet.id w)
          end in
        (* Transfer fiat funds (opposite direction) *)
        let seller_fiat_wallet :=
          find_wallet db (P2PTrade.seller_id trade) (P2PTrade.fiat_currency trade) in
        let buyer_fiat_wallet :=
          find_wallet db (P2PTrade.buyer_id trade) (P2PTrade.fiat_currency trade) in
        (* Buyer loses fiat, seller gains fiat *)
        let db :=
          match buyer_fiat_wallet with
          | Some (i, _) =>
              with_wallets (alter (Wallet.set_available (fun a => a - total_fiat)) i) db
          | None => db
          end in
        let '(db, seller_fiat_wallet_id) :=
          match seller_fiat_wallet with
          | Some (i, w) =>
              (with_wallets (alter (Wallet.set_available (fun a => a + total_fiat)) i) db,
               Wallet.id w)
          | None =>
              let w := Wallet.mk (next_id Wallet.id (wallets db))
                         (P2PTrade.seller_id trade) (P2PTrade.fiat_currency trade)
                         total_fiat 0 in
              (with_wallets (add w) db, Wallet.id w)
          end in
        (* Transaction records *)
        let db :=
          with_transactions
            (add (p2p_tx buyer_wallet_id P2P_BUY amount (P2PTrade.currency trade)
                    (P2PTrade.id trade))) db in
        let db :=
          match buyer_fiat_wallet with
          | Some (_, w) =>
              with_transactions
                (add (p2p_tx (Wallet.id w) P2P_BUY (- total_fiat)
                        (P2PTrade.fiat_currency trade) (P2PTrade.id trade))) db
          | None => db
          end in
        let db :=
          match seller_wallet with
          | Some (_, w) =>
              with_transactions
                (add (p2p_tx (Wallet.id w) P2P_SELL (- amount)
                        (P2PTrade.currency trade) (P2PTrade.id trade))) db
          | None => db
          end in
        let db :=
          with_transactions
            (add (p2p_tx seller_fiat_wallet_id P2P_SELL total_fiat
                    (P2PTrade.fiat_currency trade) (P2PTrade.id trade))) db in
        (* Update trade status *)
        Ok (with_p2p_trades
              (alter (fun t => P2PTrade.set_completed_at (Some now)
                                 (P2PTrade.set_status P2P_COMPLETED t)) it) db)
  end.

(** [seller_wallet.locked_balance -= amount; seller_wallet.available_balance
    += amount], when the wallet exists. *)
Definition unlock_seller (seller_id : Z) (currency : string) (amount : Q) (db : Db) : Db :=
  match find_wallet db seller_id currency with
  | Some (i, _) =>
      with_wallets
        (alter (fun w => Wallet.set_available (fun a => a + amount)
                           (Wallet.set_locked (fun l => l - amount) w)) i) db
  | None => db
  end.

Definition cancel_trade (trade_id : Z) (current_user : Z) (db : Db) : result Db :=
  match list_find (fun t => P2PTrade.id t = trade_id
                            /\ (P2PTrade.buyer_id t = current_user
                                \/ P2PTrade.seller_id t = current_user))
                  (p2p_trades db) with
  | None => Raise (HTTPException HTTP_404_NOT_FOUND "Trade not found")
  | Some (it, trade) =>
      if decide (P2PTrade.status trade = P2P_PENDING
                 \/ P2PTrade.status trade = P2P_PAYMENT_SENT) then
        (* Refund escrow *)
        let db :=
          match find_escrow db (P2PTrade.escrow_id trade) with
          | Some (ie, _) => with_escrows (alter (Escrow.set_status "REFUNDED") ie) db
          | None => db
          end in
        (* Unlock seller's funds *)
        let db := unlock_seller (P2PTrade.seller_id trade) (P2PTrade.currency trade)
                    (P2PTrade.amount trade) db in
        (* Restore advertisement availability *)
        let db :=
          match list_find (fun a => P2PAdvertisement.id a = P2PTrade.advertisement_id trade)
                          (advertisements db) with
          | Some (ia, _) =>
              with_advertisements
                (alter (fun a =>
                          let a := P2PAdvertisement.set_available_amount
                                     (fun x => x + P2PTrade.amount trade) a in
                          if decide (0 < P2PAdvertisement.available_amount a) then
                            P2PAdvertisement.set_is_active true a
                          else a) ia) db
          | None => db
          end in
        Ok (with_p2p_trades (alter (P2PTrade.set_status P2P_CANCELLED) it) db)
      else
        Raise (HTTPException HTTP_400_BAD_REQUEST
                 "Cannot cancel completed or disputed trade")
  end.

(** ** [routers/dispute.py] *)

(** The request body [schemas.DisputeResolve]. *)
Record DisputeResolve := mkDisputeResolve {
  dr_resolution : string;
  refund_to_buyer : bool;
  release_to_seller : bool }.

Definition resolve_dispute (dispute_id : Z) (resolution_data : DisputeResolve)
    (admin_user : Z) (now : Z) (db : Db) : result Db :=
  match list_find (fun d => Dispute.id d = dispute_id) (disputes db) with
  | None => Raise (HTTPException HTTP_404_NOT_FOUND "Dispute not found")
  | Some (id_, dispute) =>
      if decide (Dispute.status dispute = D_RESOLVED) then
        Raise (HTTPException HTTP_400_BAD_REQUEST "Dispute already resolved")
      else
        match list_find (fun t => P2PTrade.id t = Dispute.trade_id dispute)
                        (p2p_trades db) with
        | None => Raise (HTTPException HTTP_404_NOT_FOUND "Trade not found")
        | Some (it, trade) =>
            (* Get escrow if exists: [if trade.escrow_id:] *)
            let escrow :=
              match P2PTrade.escrow_id trade with
              | Some e => if decide (e = 0%Z) then None else find_escrow db (Some e)
              | None => None
              end in
            let settle (ts : P2PTrade.t -> P2PTrade.t) (es : string) (db : Db) : Db :=
              let db := with_p2p_trades (alter ts it) db in
              match escrow with
              | Some (ie, _) =>
                  with_escrows
                    (alter (fun e => Escrow.set_released_at (Some now)
                                       (Escrow.set_status es e)) ie) db
              | None => db
              end in
            (* Resolve based on decision *)
            let db :=
              if refund_to_buyer resolution_data then
                settle (P2PTrade.set_status P2P_CANCELLED) "REFUNDED" db
              else if release_to_seller resolution_data then
                settle (fun t => P2PTrade.set_completed_at (Some now)
                                   (P2PTrade.set_status P2P_COMPLETED t))
                       "RELEASED" db
              else db in
            (* Update dispute *)
            Ok (with_disputes
                  (alter (fun d =>
                            Dispute.mk (Dispute.id d) (Dispute.trade_id d)
                              (Dispute.filed_by d) D_RESOLVED
                              (Some (dr_resolution resolution_data))
                              (Some admin_user) (Some now)) id_) db)
        end
  end.

(** ** [services/ad_expiration_service.py] *)

Definition timedelta_minutes (m : Z) : Z := (60 * m)%Z.

(** Body of [for trade in pending_trades], for the advertisement at
    position [ia] and the trade at position [it]. *)
Definition expire_trade (ia : nat) (db : Db) (x : nat * P2PTrade.t) : Db :=
  let '(it, trade) := x in
  (* Refund escrow *)
  let db :=
    match find_escrow db (P2PTrade.escrow_id trade) with
    | Some (ie, escrow) =>
        if decide (Escrow.status escrow = "LOCKED") then
          let db := with_escrows (alter (Escrow.set_status "REFUNDED") ie) db in
          (* Unlock seller's funds *)
          unlock_seller (P2PTrade.seller_id trade) (P2PTrade.currency trade)
            (P2PTrade.amount trade) db
        else db
    | None => db
    end in
  (* Restore ad availability *)
  let db :=
    with_advertisements
      (alter (P2PAdvertisement.set_available_amount
                (fun x => x + P2PTrade.amount trade)) ia) db in
  (* Update trade status *)
  let db := with_p2p_trades (alter (P2PTrade.set_status P2P_CANCELLED) it) db in
  (* Notify both parties *)
  with_notifications
    (fun n => add (Notification.mk (P2PTrade.seller_id trade) "TRADE_CANCELLED"
                     "Trade Cancelled - Ad Expired")
                (add (Notification.mk (P2PTrade.buyer_id trade) "TRADE_CANCELLED"
                        "Trade Cancelled - Ad Expired") n)) db.

Definition expired (now : Z) (ad : P2PAdvertisement.t) : Prop :=
  (P2PAdvertisement.created_at ad
     + timedelta_minutes (P2PAdvertisement.payment_time_limit ad) < now)%Z.

Definition pending_trade_of (ad : P2PAdvertisement.t) (t : P2PTrade.t) : Prop :=
  P2PTrade.advertisement_id t = P2PAdvertisement.id ad
  /\ (P2PTrade.status t = P2P_PENDING \/ P2PTrade.status t = P2P_PAYMENT_SENT).

#[global] Instance expired_dec now ad : Decision (expired now ad).
Proof. unfold expired. apply _. Defined.
#[global] Instance pending_trade_of_dec ad t : Decision (pending_trade_of ad t).
Proof. unfold pending_trade_of. apply _. Defined.

(** Body of [for ad in active_ads]. *)
Definition expire_ad (now : Z) (db : Db) (x : nat * P2PAdvertisement.t) : Db :=
  let '(ia, ad) := x in
  if decide (expired now ad) then
    let db := with_advertisements (alter (P2PAdvertisement.set_is_active false) ia) db in
    let pending_trades :=
      filter (fun y => pending_trade_of ad y.2)
        (imap (fun i t => (i, t)) (p2p_trades db)) in
    foldl (expire_trade ia) db pending_trades
  else db.

Definition _check_and_expire_ads (now : Z) (db : Db) : Db :=
  let active_ads :=
    filter (fun x => P2PAdvertisement.is_active x.2 = true)
      (imap (fun i a => (i, a)) (advertisements db)) in
  foldl (expire_ad now) db active_ads.

(** ** More of [routers/p2p.py] *)

(** *** [delete_advertisement] *)

Definition delete_advertisement (ad_id : Z) (current_user : Z) (db : Db) : result Db :=
  match list_find (fun a => P2PAdvertisement.id a = ad_id
                            /\ P2PAdvertisement.user_id a = current_user)
                  (advertisements db) with
  | None => Raise (HTTPException HTTP_404_NOT_FOUND "Advertisement not found")
  | Some (ia, _) =>
      Ok (with_advertisements (alter (P2PAdvertisement.set_is_active false) ia) db)
  end.

(** *** [initiate_trade] *)

(** The request body [schemas.P2PTradeCreate]; [tc_amount] is the value of
    [Decimal(str(trade_data.amount))]. *)
Record P2PTradeCreate := mkP2PTradeCreate {
  tc_advertisement_id : Z;
  tc_amount : Q;
  tc_payment_method : string }.

(** The handler.  The columns [payment_method] and [payment_deadline] of the
    new trade are not part of [P2PTrade.t]: no modelled decision reads them.
    Computing the deadline raises [OverflowError] for a
    [payment_time_limit] that takes it beyond what [datetime] holds, and
    the quotient [fiat_amount / ad.price] is rounded by the decimal context
    and again by the columns it is stored in: the model has no such exit,
    and its crypto amount is the exact quotient.
    The detail of an exception whose f-string prints decimals is given by the
    text of the f-string.  The escrow row is added and flushed before the
    seller's balance is checked; a request that raises there commits
    nothing. *)
Definition initiate_trade (trade_data : P2PTradeCreate) (current_user : Z) (db : Db)
    : result (Db * P2PTrade.t) :=
  match list_find (fun a => P2PAdvertisement.id a = tc_advertisement_id trade_data
                            /\ P2PAdvertisement.is_active a = true)
                  (advertisements db) with
  | None => Raise (HTTPException HTTP_404_NOT_FOUND "Advertisement not found or inactive")
  | Some (ia, ad) =>
      if decide (P2PAdvertisement.user_id ad = current_user) then
        Raise (HTTPException HTTP_400_BAD_REQUEST "Cannot trade with your own advertisement")
      else
      (* Validate amount - amount is in FIAT currency *)
      let fiat_amount := tc_amount trade_data in
      if decide (fiat_amount < P2PAdvertisement.min_limit ad
                 \/ P2PAdvertisement.max_limit ad < fiat_amount) then
        Raise (HTTPException HTTP_400_BAD_REQUEST
                 "Amount must be between {ad.min_limit} and {ad.max_limit} {ad.fiat_currency}")
      else
      (* Calculate crypto amount from fiat: a zero divisor raises *)
      if decide (P2PAdvertisement.price ad == 0) then Raise DecimalException
      else
      let crypto_amount := fiat_amount / P2PAdvertisement.price ad in
      if decide (P2PAdvertisement.available_amount ad < crypto_amount) then
        Raise (HTTPException HTTP_400_BAD_REQUEST
                 "Insufficient crypto available. Maximum: {ad.available_amount} {ad.currency}")
      else
      (* Determine buyer and seller *)
      let '(buyer_id, seller_id) :=
        match P2PAdvertisement.ad_type ad with
        | SELL => (current_user, P2PAdvertisement.user_id ad)
        | BUY => (P2PAdvertisement.user_id ad, current_user)
        end in
      (* Create escrow *)
      let escrow :=
        Escrow.mk (next_id Escrow.id (escrows db)) crypto_amount
          (P2PAdvertisement.currency ad) "LOCKED" None in
      let db := with_escrows (add escrow) db in
      (* Lock seller's funds *)
      match find_wallet db seller_id (P2PAdvertisement.currency ad) with
      | None => Raise (HTTPException HTTP_400_BAD_REQUEST "Seller has insufficient balance")
      | Some (iw, seller_wallet) =>
          if decide (Wallet.available_balance seller_wallet < crypto_amount) then
            Raise (HTTPException HTTP_400_BAD_REQUEST "Seller has insufficient balance")
          else
          let db :=
            with_wallets
              (alter (fun w => Wallet.set_locked (fun l => l + crypto_amount)
                                 (Wallet.set_available (fun a => a - crypto_amount) w)) iw)
              db in
          (* Create trade *)
          let new_trade :=
            P2PTrade.mk (next_id P2PTrade.id (p2p_trades db)) (P2PAdvertisement.id ad)
              buyer_id seller_id crypto_amount (P2PAdvertisement.price ad) fiat_amount
              (P2PAdvertisement.currency ad) (P2PAdvertisement.fiat_currency ad)
              P2P_PENDING (Some (Escrow.id escrow)) None in
          let db := with_p2p_trades (add new_trade) db in
          (* Update advertisement available amount *)
          let db :=
            with_advertisements
              (alter (fun a =>
                        let a := P2PAdvertisement.set_available_amount
                                   (fun x => x - crypto_amount) a in
                        if decide (P2PAdvertisement.available_amount a <= 0) then
                          P2PAdvertisement.set_is_active false a
                        else a) ia) db in
          Ok (db, new_trade)
      end
  end.

(** ** More of [routers/dispute.py] *)

(** The dispute handlers raise more than [exn] has: an attribute that the
    model class does not have, and the refusal of the database driver to
    bind a Python list to a [Text] column. *)
Inductive error : Type :=
  | Http (status_code : Z) (detail : string)
  | AttributeError (attribute : string)
  | DBAPIError.

Inductive outcome (A : Type) : Type :=
  | Done (a : A)
  | Failed (e : error).
Arguments Done {A} a.
Arguments Failed {A} e.

Definition HTTP_403_FORBIDDEN : Z := 403%Z.

(** [trade.status.value] *)
Definition P2PTradeStatus_value (s : P2PTradeStatus) : string :=
  match s with
  | P2P_PENDING => "PENDING"
  | P2P_PAYMENT_SENT => "PAYMENT_SENT"
  | P2P_PAYMENT_RECEIVED => "PAYMENT_RECEIVED"
  | P2P_COMPLETED => "COMPLETED"
  | P2P_CANCELLED => "CANCELLED"
  | P2P_DISPUTED => "DISPUTED"
  end.

(** *** [create_dispute] *)

(** The request body [schemas.DisputeCreate], without its free text
    [reason].  [evidence] is an optional list of strings. *)
Record DisputeCreate := mkDisputeCreate {
  dc_trade_id : Z;
  dc_evidence : option (list string) }.

(** The handler.  [evidence=dispute_data.evidence] hands the list, if there
    is one, to the [Text] column [Dispute.evidence]: the flush of
    [db.commit()] then fails in the driver, and nothing is committed. *)
Definition create_dispute (dispute_data : DisputeCreate) (current_user : Z) (db : Db)
    : outcome (Db * Dispute.t) :=
  (* Verify trade exists *)
  match list_find (fun t => P2PTrade.id t = dc_trade_id dispute_data) (p2p_trades db) with
  | None => Failed (Http HTTP_404_NOT_FOUND "Trade not found")
  | Some (it, trade) =>
      (* Verify user is part of the trade *)
      if decide (P2PTrade.buyer_id trade <> current_user
                 /\ P2PTrade.seller_id trade <> current_user) then
        Failed (Http HTTP_403_FORBIDDEN "You can only file disputes on your own trades")
      (* Check if trade can be disputed *)
      else if decide (P2PTrade.status trade = P2P_COMPLETED
                      \/ P2PTrade.status trade = P2P_CANCELLED) then
        Failed (Http HTTP_400_BAD_REQUEST
                  ("Cannot file dispute on " ++ P2PTradeStatus_value (P2PTrade.status trade)
                   ++ " trade"))
      else
      (* Check if dispute already exists *)
      match list_find (fun d => Dispute.trade_id d = dc_trade_id dispute_data)
                      (disputes db) with
      | Some _ => Failed (Http HTTP_400_BAD_REQUEST "Dispute already exists for this trade")
      | None =>
          (* Create dispute *)
          let new_dispute :=
            Dispute.mk (next_id Dispute.id (disputes db)) (dc_trade_id dispute_data)
              current_user D_OPEN None None None in
          let db := with_disputes (add new_dispute) db in
          (* Update trade status to DISPUTED *)
          let db := with_p2p_trades (alter (P2PTrade.set_status P2P_DISPUTED) it) db in
          match dc_evidence dispute_data with
          | Some _ => Failed DBAPIError
          | None => Done (db, new_dispute)
          end
      end
  end.

(** *** [cancel_dispute] *)

(** [is_admin] is the truth value of [current_user.is_admin].  The class
    [P2PTrade] has no attribute [payment_confirmed]: reading it raises.
    [db.delete(dispute)] removes the row. *)
Definition cancel_dispute (dispute_id : Z) (current_user : Z) (is_admin : bool) (db : Db)
    : outcome Db :=
  match list_find (fun d => Dispute.id d = dispute_id) (disputes db) with
  | None => Failed (Http HTTP_404_NOT_FOUND "Dispute not found")
  | Some (k, dispute) =>
      (* Only the filer can cancel *)
      if decide (Dispute.filed_by dispute <> current_user /\ is_admin = false) then
        Failed (Http HTTP_403_FORBIDDEN "You can only cancel your own disputes")
      (* Can only cancel OPEN disputes *)
      else if decide (Dispute.status dispute <> D_OPEN) then
        Failed (Http HTTP_400_BAD_REQUEST "Can only cancel disputes that are still OPEN")
      else
      (* Update trade status back to original *)
      match list_find (fun t => P2PTrade.id t = Dispute.trade_id dispute) (p2p_trades db) with
      | Some (_, trade) =>
          if decide (P2PTrade.status trade = P2P_DISPUTED) then
            Failed (AttributeError "payment_confirmed")
          else Done (with_disputes (delete k) db)
      | None => Done (with_disputes (delete k) db)
      end
  end.

(** * Vocabulary of the properties *)

Local Open Scope list_scope.

(** ** Tables: queries after an assignment to a row *)

(** Assignments to balances keep the key of a wallet. *)
Definition keeps_key (f : Wallet.t -> Wallet.t) : Prop :=
  forall w, Wallet.id (f w) = Wallet.id w
            /\ Wallet.user_id (f w) = Wallet.user_id w
            /\ Wallet.currency (f w) = Wallet.currency w.

(** The position of a wallet row, and the row itself. *)
Definition wallet_pos (db : Db) (u : Z) (c : string) : option nat :=
  fst <$> find_wallet db u c.
Definition wallet_of (db : Db) (u : Z) (c : string) : option Wallet.t :=
  snd <$> find_wallet db u c.

(** ** Settlement *)

(** [if wallet: wallet.<field> <op>= ..] as an assignment at the position
    the query returned, if it returned one. *)
Definition upd_at (o : option nat) (f : Wallet.t -> Wallet.t) (l : list Wallet.t)
    : list Wallet.t :=
  match o with
  | Some i => alter f i l
  | None => l
  end.

(** The transaction a settlement leg appends: one when the leg found its
    wallet, none otherwise. *)
Definition leg_tx (o : option (nat * Wallet.t)) (amount : Q) (currency : string)
    : list Transaction.t :=
  match o with
  | Some (_, w) => [Transaction.mk (Wallet.id w) TRADE amount currency "COMPLETED" None]
  | None => []
  end.

(** Two wallet tables with the same keys row by row: the same queries
    select the same positions in both. *)
Definition same_key (w w' : Wallet.t) : Prop :=
  Wallet.id w = Wallet.id w'
  /\ Wallet.user_id w = Wallet.user_id w'
  /\ Wallet.currency w = Wallet.currency w'.

Definition same_keys (db0 db : Db) : Prop :=
  Forall2 same_key (wallets db0) (wallets db).

(** The row a wallet query selects after assignments at given positions. *)
Definition upd_row (o : option nat) (f : Wallet.t -> Wallet.t) (jx : nat * Wallet.t)
    : nat * Wallet.t :=
  (jx.1, match o with
         | Some i => if decide (jx.1 = i) then f jx.2 else jx.2
         | None => jx.2
         end).

(** [find_wallet] on a bare table. *)
Definition find_wallet_in (l : list Wallet.t) (u : Z) (c : string) :=
  list_find (fun w => Wallet.user_id w = u /\ Wallet.currency w = c) l.

(** ** Example data *)

Module Examples.
(** Alice (user 1) holds dollars, Bob (user 2) and Carol (user 3) hold
    bitcoin. *)
Definition ledger : list Wallet.t :=
  [ Wallet.mk 1 1 "USD" 100000 0; Wallet.mk 2 1 "BTC" 0 0;
    Wallet.mk 3 2 "USD" 0 0;      Wallet.mk 4 2 "BTC" 2 0;
    Wallet.mk 5 3 "USD" 0 0;      Wallet.mk 6 3 "BTC" 2 0 ].

Definition empty_book : Db := mkDb ledger [] [] [] [] [] [] [] [].

(** Bob, then Carol, each rest a limit SELL of 1 BTC at 50000. *)
Definition sell_A : Order :=
  OrderBookOrder.mk 1 2 "BTC/USD" SELL LIMIT (Some 50000) 1 1 PENDING 0.
Definition sell_B : Order :=
  OrderBookOrder.mk 2 3 "BTC/USD" SELL LIMIT (Some 50000) 1 1 PENDING 1.

Definition two_sells : Db :=
  mkDb [ Wallet.mk 1 1 "USD" 100000 0; Wallet.mk 2 1 "BTC" 0 0;
         Wallet.mk 3 2 "USD" 0 0;      Wallet.mk 4 2 "BTC" 1 1;
         Wallet.mk 5 3 "USD" 0 0;      Wallet.mk 6 3 "BTC" 1 1 ]
       [] [sell_A; sell_B] [] [] [] [] [] [].

(** A P2P trade of 1 BTC for 50000 USD, Bob selling to Alice, its escrow
    locked: 1 BTC of Bob is locked, Alice has 1000 USD. *)
Definition p2p_ledger : list Wallet.t :=
  [ Wallet.mk 1 1 "USD" 1000 0; Wallet.mk 2 1 "BTC" 0 0;
    Wallet.mk 3 2 "USD" 0 0;    Wallet.mk 4 2 "BTC" 1 1 ].

Definition p2p_trade (status : P2PTradeStatus) : P2PTrade.t :=
  P2PTrade.mk 1 1 1 2 1 50000 50000 "BTC" "USD" status (Some 1%Z) None.

Definition p2p_ad : P2PAdvertisement.t :=
  P2PAdvertisement.mk 1 2 SELL "BTC" "USD" 50000 10 50000 0 30 false 0.

Definition p2p_db (status : P2PTradeStatus) (disputes : list Dispute.t) : Db :=
  mkDb p2p_ledger [] [] [] [p2p_ad] [p2p_trade status]
    [Escrow.mk 1 1 "BTC" "LOCKED" None] disputes [].

Definition open_dispute : Dispute.t := Dispute.mk 1 1 1 D_OPEN None None None.

Definition refund : DisputeResolve := mkDisputeResolve "buyer refunded" true false.
Definition release : DisputeResolve := mkDisputeResolve "seller paid" false true.
End Examples.

(** ** The ledger invariant *)

Definition non_negative (w : Wallet.t) : Prop :=
  0 <= Wallet.available_balance w /\ 0 <= Wallet.locked_balance w.

#[global] Instance non_negative_dec w : Decision (non_negative w).
Proof. unfold non_negative. apply _. Defined.

(** ** One match *)

(** Buyer and seller of a match: [order.user_id if order.order_type ==
    OrderType.BUY else matching_order.user_id], and the other way round. *)
Definition buyer_of (order matching_order : Order) : Z :=
  match OrderBookOrder.order_type order with
  | BUY => OrderBookOrder.user_id order
  | SELL => OrderBookOrder.user_id matching_order
  end.

Definition seller_of (order matching_order : Order) : Z :=
  match OrderBookOrder.order_type order with
  | BUY => OrderBookOrder.user_id matching_order
  | SELL => OrderBookOrder.user_id order
  end.

(** The trade record of a match of [q] units between the aggressor [order]
    and the resting order [c] at price [p]. *)
Definition trade_of (order c : Order) (p q : Q) : Trade.t :=
  Trade.mk (OrderBookOrder.id order) (buyer_of order c) (seller_of order c)
    (OrderBookOrder.instrument order) p q (q * p) (q * p * fee_rate).

(** ** The trades and transactions a matching pass commits *)

(** [made_by order cands t]: [t] records a match of the aggressor [order]
    with one of the rows [cands], at that row's price. *)
Definition made_by (order : Order) (cands : list (nat * Order)) (t : Trade.t) : Prop :=
  exists i c, (i, c) ∈ cands
    /\ OrderBookOrder.price c = Some (Trade.price t)
    /\ t = trade_of order c (Trade.price t) (Trade.quantity t).

(** ** Cancellation *)

(** The amount [cancel_order] unlocks, for an order that is a SELL or
    carries a price. *)
Definition locked_amount (order : Order) : option Q :=
  match OrderBookOrder.order_type order with
  | BUY => (fun p => OrderBookOrder.remaining_quantity order * p)
             <$> OrderBookOrder.price order
  | SELL => Some (OrderBookOrder.remaining_quantity order)
  end.

(** The currency of the wallet it unlocks. *)
Definition locked_currency (order : Order) (base quote : string) : string :=
  match OrderBookOrder.order_type order with
  | BUY => quote
  | SELL => base
  end.

(** ** Escrow exclusivity *)

(** The operations that settle an escrow. *)
Inductive p2p_op : Type :=
  | ConfirmPayment (trade_id current_user now : Z)
  | CancelTrade (trade_id current_user : Z)
  | ResolveDispute (dispute_id : Z) (resolution_data : DisputeResolve)
      (admin_user now : Z)
  | ExpirationSweep (now : Z).

(** A request that raises leaves the database as it was. *)
Definition commit (db : Db) (r : result Db) : Db :=
  match r with
  | Ok db' => db'
  | Raise _ => db
  end.

(** The effect of one operation on the database. *)
Definition run_op (op : p2p_op) (db : Db) : Db :=
  match op with
  | ConfirmPayment t u now => commit db (confirm_payment t u now db)
  | CancelTrade t u => commit db (cancel_trade t u db)
  | ResolveDispute d rd admin now => commit db (resolve_dispute d rd admin now db)
  | ExpirationSweep now => _check_and_expire_ads now db
  end.

(** The states a sequence of operations goes through, the first one
    included. *)
Fixpoint trace (ops : list p2p_op) (db : Db) : list Db :=
  db :: match ops with
        | [] => []
        | op :: ops => trace ops (run_op op db)
        end.

(** The escrow row at position [i] is LOCKED. *)
Definition locked_at (db : Db) (i : nat) : Prop :=
  Escrow.status <$> escrows db !! i = Some "LOCKED".

#[global] Instance locked_at_dec db i : Decision (locked_at db i).
Proof. unfold locked_at. apply _. Defined.

(** The number of steps of a trace at which the escrow at position [i]
    goes from LOCKED to another status. *)
Fixpoint departures (i : nat) (t : list Db) : nat :=
  match t with
  | db :: rest =>
      match rest with
      | db' :: _ =>
          (if decide (locked_at db i /\ ~ locked_at db' i) then 1 else 0)
          + departures i rest
      | [] => 0
      end
  | [] => 0
  end%nat.

(** From the escrow table [l] to [l'], no row has become LOCKED. *)
Definition no_relock (l l' : list Escrow.t) : Prop :=
  forall i, Escrow.status <$> l' !! i = Some "LOCKED" ->
            Escrow.status <$> l !! i = Some "LOCKED".

(** What confirmation, cancellation and the sweep do to escrows and
    disputes: no escrow becomes LOCKED, the disputes stay. *)
Definition p2p_step (db db' : Db) : Prop :=
  no_relock (escrows db) (escrows db') /\ disputes db' = disputes db.

(** The state a sequence of operations ends in. *)
Definition run (ops : list p2p_op) (db : Db) : Db :=
  foldl (fun d op => run_op op d) db ops.

(** The dispute [dispute_id] is there and RESOLVED. *)
Definition already_resolved (dispute_id : Z) (db : Db) : Prop :=
  exists k d,
    list_find (fun d => Dispute.id d = dispute_id) (disputes db) = Some (k, d)
    /\ Dispute.status d = D_RESOLVED.

(** The assignments of [resolve_dispute] to the dispute row. *)
Definition resolved_by (resolution : string) (admin_user now : Z) (d : Dispute.t)
    : Dispute.t :=
  Dispute.mk (Dispute.id d) (Dispute.trade_id d) (Dispute.filed_by d) D_RESOLVED
    (Some resolution) (Some admin_user) (Some now).

(** ** The expiration sweep *)

(** What the sweep may do to an advertisement row: its creation time and
    time limit stay, and it is never activated. *)
Definition ad_step (a a' : P2PAdvertisement.t) : Prop :=
  P2PAdvertisement.created_at a' = P2PAdvertisement.created_at a
  /\ P2PAdvertisement.payment_time_limit a' = P2PAdvertisement.payment_time_limit a
  /\ (P2PAdvertisement.is_active a' = true -> P2PAdvertisement.is_active a = true).

(** The same, row by row, for the table. *)
Definition ads_step (db db' : Db) : Prop :=
  Forall2 ad_step (advertisements db) (advertisements db').

(** ** Price-time priority *)

(** The fills of a matching pass, in the words of its contract: visit the
    candidates in order; fill each with the minimum of what remains of the
    aggressor and what remains of the candidate; stop when nothing remains
    of the aggressor or the candidates run out. *)
Fixpoint fill_plan (remaining : Q) (cands : list (nat * Order))
    : list (nat * Order * Q) :=
  match cands with
  | [] => []
  | (i, c) :: rest =>
      if decide (remaining <= 0) then []
      else
        let q := Qmin remaining (OrderBookOrder.remaining_quantity c) in
        (i, c, q) :: fill_plan (remaining - q) rest
  end.

(** The trades of a plan: each at the price of its resting order. *)
Definition plan_trades (order : Order) (plan : list (nat * Order * Q)) : list Trade.t :=
  (fun x : nat * Order * Q =>
     trade_of order x.1.2 (default 0 (OrderBookOrder.price x.1.2)) x.2) <$> plan.

(** The aggressor after the fills of a plan. *)
Definition aggressor_after (order : Order) (plan : list (nat * Order * Q)) : Order :=
  foldl (fun o (x : nat * Order * Q) => fill x.2 o) order plan.

(** A resting order as [create_order] and [match_order] leave the priced
    ones: a positive price, a positive remaining quantity. *)
Definition resting_well_formed (c : Order) : Prop :=
  (exists p, OrderBookOrder.price c = Some p /\ 0 < p)
  /\ 0 < OrderBookOrder.remaining_quantity c.

(** ** Requests *)

(** The handlers of this development and the sweep, as requests to the
    system.  The application has other handlers that write to the same
    tables and are not requests of this type, among them [add_evidence] and
    [update_dispute] of [routers/dispute.py], which change the status of a
    dispute, the deposit, withdrawal and transfer of [routers/wallet.py],
    which change what a wallet holds, the registration of a user, which
    adds wallets, the resolution of [routers/admin.py], and the creation
    and the partial matching of advertisements.  A statement about
    requests is a statement about the eleven below. *)
Inductive request : Type :=
  | Create_order (order_data : OrderCreate) (current_user now : Z)
  | Cancel_order (order_id current_user : Z)
  | Initiate_trade (trade_data : P2PTradeCreate) (current_user : Z)
  | Mark_payment_sent (trade_id current_user : Z)
  | Confirm_payment (trade_id current_user now : Z)
  | Cancel_trade (trade_id current_user : Z)
  | Delete_advertisement (ad_id current_user : Z)
  | Create_dispute (dispute_data : DisputeCreate) (current_user : Z)
  | Cancel_dispute (dispute_id current_user : Z) (is_admin : bool)
  | Resolve_dispute (dispute_id : Z) (resolution_data : DisputeResolve)
      (admin_user now : Z)
  | Check_and_expire_ads (now : Z).

(** The database a handler leaves: what it committed, or the database as it
    was when it raised. *)
Definition committed {A} (db : Db) (r : result (Db * A)) : Db :=
  match r with
  | Ok (db', _) => db'
  | Raise _ => db
  end.

Definition finished {A} (f : A -> Db) (db : Db) (r : outcome A) : Db :=
  match r with
  | Done a => f a
  | Failed _ => db
  end.

Definition handle (r : request) (db : Db) : Db :=
  match r with
  | Create_order d u now => committed db (create_order d u now db)
  | Cancel_order o u => commit db (cancel_order o u db)
  | Initiate_trade d u => committed db (initiate_trade d u db)
  | Mark_payment_sent t u => commit db (mark_payment_sent t u db)
  | Confirm_payment t u now => commit db (confirm_payment t u now db)
  | Cancel_trade t u => commit db (cancel_trade t u db)
  | Delete_advertisement a u => commit db (delete_advertisement a u db)
  | Create_dispute d u => finished fst db (create_dispute d u db)
  | Cancel_dispute d u a => finished id db (cancel_dispute d u a db)
  | Resolve_dispute d rd admin now => commit db (resolve_dispute d rd admin now db)
  | Check_and_expire_ads now => _check_and_expire_ads now db
  end.

(** The database after a sequence of requests. *)
Definition serve (rs : list request) (db : Db) : Db :=
  foldl (fun d r => handle r d) db rs.

(** ** The order table *)

(** What the handlers do to the order table, one write at a time: a new
    order is appended; a fill is written to an aggressor and a resting order,
    both open, the aggressor with something remaining; an open order is
    cancelled. *)
Inductive book_step (l : list Order) : list Order -> Prop :=
  | book_submit o :
      OrderBookOrder.status o = PENDING ->
      OrderBookOrder.remaining_quantity o = OrderBookOrder.quantity o ->
      0 < OrderBookOrder.quantity o ->
      book_step l (l ++ [o])
  | book_fill ia a ic c :
      l !! ia = Some a -> l !! ic = Some c -> ia <> ic ->
      open_status (OrderBookOrder.status a) ->
      open_status (OrderBookOrder.status c) ->
      0 < OrderBookOrder.remaining_quantity a ->
      let q := Qmin (OrderBookOrder.remaining_quantity a)
                    (OrderBookOrder.remaining_quantity c) in
      book_step l (<[ic := fill q c]> (<[ia := fill q a]> l))
  | book_cancel io o :
      l !! io = Some o -> open_status (OrderBookOrder.status o) ->
      book_step l (alter (OrderBookOrder.set_status CANCELLED) io l).

(** The status of an order agrees with what remains of it: nothing is
    over-filled, FILLED is the status of the orders with nothing remaining,
    PENDING that of untouched orders, and a PARTIALLY_FILLED order has been
    filled in part. *)
Definition order_ok (o : Order) : Prop :=
  0 <= OrderBookOrder.remaining_quantity o
  /\ OrderBookOrder.remaining_quantity o <= OrderBookOrder.quantity o
  /\ (OrderBookOrder.status o = FILLED <-> OrderBookOrder.remaining_quantity o == 0)
  /\ (OrderBookOrder.status o = PENDING ->
        OrderBookOrder.remaining_quantity o == OrderBookOrder.quantity o)
  /\ (OrderBookOrder.status o = PARTIALLY_FILLED ->
        OrderBookOrder.remaining_quantity o < OrderBookOrder.quantity o).

#[global] Instance order_ok_dec o : Decision (order_ok o).
Proof. unfold order_ok. apply _. Defined.

(** The terms of an order: every column but [remaining_quantity] and
    [status]. *)
Definition terms (o : Order)
    : Z * Z * string * OrderType * OrderBookOrderType * option Q * Q * Z :=
  (OrderBookOrder.id o, OrderBookOrder.user_id o, OrderBookOrder.instrument o,
   OrderBookOrder.order_type o, OrderBookOrder.order_subtype o,
   OrderBookOrder.price o, OrderBookOrder.quantity o, OrderBookOrder.created_at o).

(** ** Balances *)

(** What a wallet holds: available and locked together. *)
Definition total (w : Wallet.t) : Q :=
  Wallet.available_balance w + Wallet.locked_balance w.

(** What all wallets of a currency hold. *)
Definition supply (c : string) (l : list Wallet.t) : Q :=
  foldr Qplus 0 (total <$> filter (fun w => Wallet.currency w = c) l).

(** Two wallet rows with the same key and the same balances. *)
Definition same_balances (w w' : Wallet.t) : Prop :=
  same_key w w'
  /\ Wallet.available_balance w' == Wallet.available_balance w
  /\ Wallet.locked_balance w' == Wallet.locked_balance w.

(** Two wallet rows with the same key that hold the same. *)
Definition same_total (w w' : Wallet.t) : Prop :=
  same_key w w' /\ total w' == total w.

(** ** Submitting an order *)

(** The wallet [create_order] locks funds in, and the amount. *)
Definition lock_currency (t : OrderType) (base quote : string) : string :=
  match t with BUY => quote | SELL => base end.

Definition lock_amount (t : OrderType) (order_data : OrderCreate) : Q :=
  match t with
  | BUY => oc_quantity order_data * default 0 (truthy (oc_price order_data))
  | SELL => oc_quantity order_data
  end.

(** A decimal with at most eight decimal places: a [DECIMAL(20, 8)] column
    holds it as it is. *)
Definition eight_decimals (x : Q) : Prop := exists n : Z, x == n # 100000000.

(** ** Supply *)

(** The share of an assignment to the row at [o] in the supply of [c]:
    [delta] if that row is a wallet of [c]. *)
Definition credit (c : string) (l : list Wallet.t) (o : option nat) (delta : Q) : Q :=
  match o ≫= (l !!.) with
  | Some w => if decide (Wallet.currency w = c) then delta else 0
  | None => 0
  end.

(** ** P2P trades *)

(** Buyer and seller of a trade that [current_user] initiates on [ad]. *)
Definition p2p_buyer (ad : P2PAdvertisement.t) (current_user : Z) : Z :=
  match P2PAdvertisement.ad_type ad with
  | SELL => current_user
  | BUY => P2PAdvertisement.user_id ad
  end.

Definition p2p_seller (ad : P2PAdvertisement.t) (current_user : Z) : Z :=
  match P2PAdvertisement.ad_type ad with
  | SELL => P2PAdvertisement.user_id ad
  | BUY => current_user
  end.

(** The assignments of [initiate_trade] to the seller's wallet and to the
    advertisement. *)
Definition lock_funds (amount : Q) (w : Wallet.t) : Wallet.t :=
  Wallet.set_locked (fun l => l + amount)
    (Wallet.set_available (fun a => a - amount) w).

Definition reserve (amount : Q) (a : P2PAdvertisement.t) : P2PAdvertisement.t :=
  let a := P2PAdvertisement.set_available_amount (fun x => x - amount) a in
  if decide (P2PAdvertisement.available_amount a <= 0) then
    P2PAdvertisement.set_is_active false a
  else a.

(** The assignments of [cancel_trade] to the seller's wallet and to the
    advertisement. *)
Definition unlock_funds (amount : Q) (w : Wallet.t) : Wallet.t :=
  Wallet.set_available (fun a => a + amount)
    (Wallet.set_locked (fun l => l - amount) w).

Definition restore (amount : Q) (a : P2PAdvertisement.t) : P2PAdvertisement.t :=
  let a := P2PAdvertisement.set_available_amount (fun x => x + amount) a in
  if decide (0 < P2PAdvertisement.available_amount a) then
    P2PAdvertisement.set_is_active true a
  else a.

(** An advertisement row with the same columns, up to the representation
    of the available amount. *)
Definition same_ad (a a' : P2PAdvertisement.t) : Prop :=
  P2PAdvertisement.set_available_amount (fun _ => 0) a'
  = P2PAdvertisement.set_available_amount (fun _ => 0) a
  /\ P2PAdvertisement.available_amount a' == P2PAdvertisement.available_amount a.

(** The requests that settle a trade: they move funds between wallets. *)
Definition settles (r : request) : Prop :=
  match r with
  | Create_order _ _ _ | Confirm_payment _ _ _ => True
  | _ => False
  end.

(** The request of an administrator. *)
Definition resolves (r : request) : Prop :=
  match r with
  | Resolve_dispute _ _ _ _ => True
  | _ => False
  end.

(** The statuses in which the handlers of the parties and the sweep leave a
    trade alone. *)
Definition trade_closed (s : P2PTradeStatus) : Prop :=
  s = P2P_COMPLETED \/ s = P2P_CANCELLED \/ s = P2P_DISPUTED.

(** From the trade table [l] to [l']: every row is where it was and has
    the id it had, and the closed rows are as they were. *)
Definition keeps_closed (l l' : list P2PTrade.t) : Prop :=
  forall j t, l !! j = Some t ->
    exists t', l' !! j = Some t'
      /\ P2PTrade.id t' = P2PTrade.id t
      /\ (trade_closed (P2PTrade.status t) -> t' = t).

(** From the wallet table of [db] to that of [db']: row by row the same
    wallet, holding the same. *)
Definition keeps_totals (db db' : Db) : Prop :=
  Forall2 same_total (wallets db) (wallets db').

(** ** Example data: a P2P market *)

Module Market.
(** Bob (user 2) offers up to 2 BTC at 50000 USD, for 10 to 50000 USD a
    trade; he has 2 BTC available. *)
Definition ad : P2PAdvertisement.t :=
  P2PAdvertisement.mk 1 2 SELL "BTC" "USD" 50000 10 50000 2 30 true 0.

Definition db : Db := mkDb Examples.ledger [] [] [] [ad] [] [] [] [].

(** Alice (user 1) asks for 25000 USD worth of it: half a bitcoin. *)
Definition half : P2PTradeCreate := mkP2PTradeCreate 1 25000 "bank transfer".
End Market.

(** ** Disputed trades *)

(** The trade that the handlers find under the id [trade_id] is DISPUTED. *)
Definition disputed_trade (trade_id : Z) (db : Db) : Prop :=
  exists it t,
    list_find (fun x => P2PTrade.id x = trade_id) (p2p_trades db) = Some (it, t)
    /\ P2PTrade.status t = P2P_DISPUTED.

(** ** The wallets after a confirmed payment *)

(** The assignments of [confirm_payment] to the wallet table, for the trade
    [t].  First the crypto currency: the amount leaves the seller's locked
    balance, if the seller has a wallet, and goes to the buyer's available
    balance, in a new wallet if the buyer has none. *)
Definition confirm_crypto (t : P2PTrade.t) (l0 : list Wallet.t) : list Wallet.t :=
  let amount := P2PTrade.amount t in
  let l1 :=
    upd_at (fst <$> find_wallet_in l0 (P2PTrade.seller_id t) (P2PTrade.currency t))
      (Wallet.set_locked (fun l => l - amount)) l0 in
  match find_wallet_in l0 (P2PTrade.buyer_id t) (P2PTrade.currency t) with
  | Some (i, _) => alter (Wallet.set_available (fun a => a + amount)) i l1
  | None =>
      add (Wallet.mk (next_id Wallet.id l1) (P2PTrade.buyer_id t)
             (P2PTrade.currency t) amount 0) l1
  end.

(** Then the fiat currency, the other way round: the total leaves the
    buyer's available balance, if the buyer has a wallet, and goes to the
    seller's available balance, in a new wallet if the seller has none. *)
Definition confirm_fiat (t : P2PTrade.t) (l2 : list Wallet.t) : list Wallet.t :=
  let total_fiat := P2PTrade.total_fiat t in
  let l3 :=
    upd_at (fst <$> find_wallet_in l2 (P2PTrade.buyer_id t) (P2PTrade.fiat_currency t))
      (Wallet.set_available (fun a => a - total_fiat)) l2 in
  match find_wallet_in l2 (P2PTrade.seller_id t) (P2PTrade.fiat_currency t) with
  | Some (i, _) => alter (Wallet.set_available (fun a => a + total_fiat)) i l3
  | None =>
      add (Wallet.mk (next_id Wallet.id l3) (P2PTrade.seller_id t)
             (P2PTrade.fiat_currency t) total_fiat 0) l3
  end.

Definition confirm_wallets (t : P2PTrade.t) (l0 : list Wallet.t) : list Wallet.t :=
  confirm_fiat t (confirm_crypto t l0).

(** ** The trades the sweep cancels *)

(** [t] is a trade that the sweep at [now] cancels: it is PENDING or
    PAYMENT_SENT and belongs to an advertisement that is active and has
    expired. *)
Definition swept (now : Z) (db : Db) (t : P2PTrade.t) : Prop :=
  (P2PTrade.status t = P2P_PENDING \/ P2PTrade.status t = P2P_PAYMENT_SENT)
  /\ Exists (fun ad => P2PAdvertisement.is_active ad = true /\ expired now ad
                       /\ P2PTrade.advertisement_id t = P2PAdvertisement.id ad)
       (advertisements db).

#[global] Instance swept_dec now db t : Decision (swept now db t).
Proof. unfold swept. apply _. Defined.

(** The dates that [datetime] holds, in seconds from 1970-01-01 00:00:00:
    [datetime.min] is 0001-01-01 00:00:00, [datetime.max] the last second
    of 9999-12-31. *)
Definition datetime_min : Z := (-62135596800)%Z.
Definition datetime_max : Z := 253402300799%Z.

Definition is_datetime (t : Z) : Prop := (datetime_min <= t <= datetime_max)%Z.

(** [ad.created_at + timedelta(minutes=ad.payment_time_limit)] is a date:
    the sum of the sweep does not raise [OverflowError].  (With both dates
    in range the [timedelta] is far below its own bound of 999999999
    days.) *)
Definition deadline_fits (ad : P2PAdvertisement.t) : Prop :=
  is_datetime (P2PAdvertisement.created_at ad)
  /\ is_datetime (P2PAdvertisement.created_at ad
                  + timedelta_minutes (P2PAdvertisement.payment_time_limit ad)).

(** The sweep computes the deadline of every active advertisement, expired
    or not; an exception at any of them takes the method to its [except]
    branch, which rolls back all that the sweep has done.
    [_check_and_expire_ads] is the method without that branch: it is the
    method where the deadlines fit. *)
Definition deadlines_fit (db : Db) : Prop :=
  Forall (fun ad => P2PAdvertisement.is_active ad = true -> deadline_fits ad)
    (advertisements db).

#[global] Instance deadlines_fit_dec db : Decision (deadlines_fit db).
Proof. unfold deadlines_fit, deadline_fits, is_datetime. apply _. Defined.

(** The trade table after the trades that satisfy [P] are cancelled. *)
Definition cancel_where (P : P2PTrade.t -> Prop) `{!forall t, Decision (P t)}
    (l : list P2PTrade.t) : list P2PTrade.t :=
  (fun t => if decide (P t) then P2PTrade.set_status P2P_CANCELLED t else t) <$> l.

(** ** The quantity a matching pass trades *)

Definition traded (ts : list Trade.t) : Q := foldr Qplus 0 (Trade.quantity <$> ts).

(** * Properties *)

(** ** Tables: queries after an assignment to a row *)

Section tables.
Context {A : Type} (P : A -> Prop) `{!forall x, Decision (P x)}.

(** An assignment that does not change the columns a query filters on
    does not change the row the query selects. *)
Lemma list_find_alter (f : A -> A) (i : nat) (l : list A) :
  (forall x, P (f x) <-> P x) ->
  list_find P (alter f i l)
  = (fun jx : nat * A => (jx.1, if decide (jx.1 = i) then f jx.2 else jx.2))
      <$> list_find P l.
Proof.
  intros Hf. revert i. induction l as [|x l IH]; intros i; [done|].
  destruct i as [|i]; simpl.
  - destruct (decide (P (f x))) as [H1|H1]; destruct (decide (P x)) as [H2|H2].
    + done.
    + destruct H2. by apply Hf.
    + destruct H1. by apply Hf.
    + destruct (list_find P l) as [[j y]|]; simpl; [|done].
      done.
  - destruct (decide (P x)) as [H2|H2]; simpl; [done|].
    change (list_alter f i l) with (alter f i l).
    rewrite IH. destruct (list_find P l) as [[j y]|]; simpl; [|done].
    destruct (decide (j = i)), (decide (S j = S i)); try lia; done.
Qed.

Lemma list_find_add_Some (l : list A) (x : A) i y :
  list_find P l = Some (i, y) -> list_find P (add x l) = Some (i, y).
Proof. intros Hl. unfold add. by apply list_find_app_l. Qed.

Lemma list_find_lookup (l : list A) i y :
  list_find P l = Some (i, y) -> l !! i = Some y /\ P y.
Proof. intros Hl%list_find_Some. tauto. Qed.
End tables.

(** Two queries that select the same row have the same filter columns. *)
Lemma find_wallet_lookup db u c i w :
  find_wallet db u c = Some (i, w) ->
  wallets db !! i = Some w /\ Wallet.user_id w = u /\ Wallet.currency w = c.
Proof. intros H. apply list_find_lookup in H. tauto. Qed.

Lemma find_wallet_same_row db u c u' c' i w w' :
  find_wallet db u c = Some (i, w) ->
  find_wallet db u' c' = Some (i, w') ->
  u = u' /\ c = c' /\ w = w'.
Proof.
  intros H1%find_wallet_lookup H2%find_wallet_lookup.
  destruct H1 as (L1 & <- & <-), H2 as (L2 & <- & <-).
  rewrite L1 in L2. by simplify_eq.
Qed.

Lemma keeps_key_set_locked g : keeps_key (Wallet.set_locked g).
Proof. by intros []. Qed.
Lemma keeps_key_set_available g : keeps_key (Wallet.set_available g).
Proof. by intros []. Qed.
Lemma keeps_key_compose f g : keeps_key f -> keeps_key g -> keeps_key (fun w => f (g w)).
Proof.
  intros Hf Hg w. destruct (Hf (g w)) as (-> & -> & ->). apply Hg.
Qed.

#[local] Hint Resolve keeps_key_set_locked keeps_key_set_available keeps_key_compose
  : core.

Lemma find_wallet_alter db f i u c :
  keeps_key f ->
  find_wallet (with_wallets (alter f i) db) u c
  = (fun jx : nat * Wallet.t => (jx.1, if decide (jx.1 = i) then f jx.2 else jx.2))
      <$> find_wallet db u c.
Proof.
  intros Hf. unfold find_wallet. simpl. apply list_find_alter.
  intros w. destruct (Hf w) as (_ & -> & ->). done.
Qed.

Lemma find_wallet_with_transactions db g u c :
  find_wallet (with_transactions g db) u c = find_wallet db u c.
Proof. done. Qed.

Lemma find_wallet_with_orders db g u c :
  find_wallet (with_orders g db) u c = find_wallet db u c.
Proof. done. Qed.

Lemma wallet_pos_alter db f i u c :
  keeps_key f -> wallet_pos (with_wallets (alter f i) db) u c = wallet_pos db u c.
Proof.
  intros Hf. unfold wallet_pos. rewrite find_wallet_alter by done.
  by destruct (find_wallet db u c) as [[]|].
Qed.

(** ** Settlement *)

(** What a leg does when it does not raise. *)
Lemma settlement_leg_Ok db0 u c guard upd a cur db db' :
  keeps_key upd ->
  wallet_pos db u c = wallet_pos db0 u c ->
  (forall i w w', find_wallet db u c = Some (i, w) ->
                  find_wallet db0 u c = Some (i, w') -> Wallet.id w = Wallet.id w') ->
  settlement_leg (find_wallet db u c) guard upd a cur db = Ok db' ->
  wallets db' = upd_at (wallet_pos db0 u c) upd (wallets db)
  /\ transactions db' = transactions db ++ leg_tx (find_wallet db0 u c) a cur
  /\ orders db' = orders db /\ trades db' = trades db
  /\ advertisements db' = advertisements db /\ p2p_trades db' = p2p_trades db
  /\ escrows db' = escrows db /\ disputes db' = disputes db
  /\ notifications db' = notifications db
  /\ (is_Some (wallet_pos db0 u c) -> ~ guard == 0).
Proof.
  intros Hk Hpos Hid. unfold settlement_leg, wallet_pos in *.
  destruct (find_wallet db u c) as [[i w]|] eqn:E;
    destruct (find_wallet db0 u c) as [[i0 w0]|] eqn:E0; simplify_eq/=.
  - destruct (decide (guard == 0)); [done|]. intros [= <-]. simpl.
    unfold add, trade_tx. rewrite (Hid i0 w w0) by done.
    split_and!; try done.
  - intros [= <-]. rewrite app_nil_r. split_and!; try done.
Qed.

Lemma same_keys_refl db : same_keys db db.
Proof. unfold same_keys. apply Forall2_same_length_lookup. split; [done|]. 
  intros i x y H1 H2. simplify_eq. done.
Qed.

Lemma same_keys_upd_at db0 l o f :
  keeps_key f -> Forall2 same_key (wallets db0) l ->
  Forall2 same_key (wallets db0) (upd_at o f l).
Proof.
  intros Hf H. destruct o as [i|]; simpl; [|done].
  revert i. induction H as [|x y l1 l2 Hxy H IH]; intros [|i]; simpl;
    constructor; auto.
  - unfold same_key in *. destruct (Hf y) as (-> & -> & ->). done.
  - change (list_alter f i l2) with (alter f i l2). apply IH.
Qed.

Lemma same_keys_find db0 db u c :
  same_keys db0 db ->
  wallet_pos db u c = wallet_pos db0 u c
  /\ (forall i w w', find_wallet db u c = Some (i, w) ->
                     find_wallet db0 u c = Some (i, w') -> Wallet.id w = Wallet.id w').
Proof.
  unfold same_keys, wallet_pos, find_wallet.
  generalize (wallets db0) (wallets db). clear db0 db.
  intros l0 l H. induction H as [|x y l0 l Hxy H IH]; simpl; [done|].
  destruct Hxy as (Hid & Hu & Hc).
  destruct (decide (Wallet.user_id y = u /\ Wallet.currency y = c)) as [Hy|Hy];
    destruct (decide (Wallet.user_id x = u /\ Wallet.currency x = c)) as [Hx|Hx];
    try (exfalso; rewrite Hu, Hc in *; tauto).
  - split; [done|]. intros i w w' [= <- <-] [= <-]. done.
  - destruct IH as [IH1 IH2]. split.
    + destruct (list_find _ l) as [[]|], (list_find _ l0) as [[]|]; simplify_eq/=; done.
    + intros i w w' E E0.
      destruct (list_find _ l) as [[j z]|] eqn:F; [|done].
      destruct (list_find _ l0) as [[j0 z0]|] eqn:F0; [|done].
      simplify_eq/=. by eapply IH2.
Qed.

Lemma bind_Ok {A B} (r : result A) (k : A -> result B) b :
  r ≫= k = Ok b -> exists a, r = Ok a /\ k a = Ok b.
Proof. destruct r; [eauto|done]. Qed.

(** The settlement, when it does not raise: four assignments at the
    positions of the four wallets, one transaction for each wallet found,
    nothing else. *)
Lemma execute_trade_settlement_Ok b s base quote qty amt fee db db' :
  execute_trade_settlement b s base quote qty amt fee db = Ok db' ->
  wallets db' =
    upd_at (wallet_pos db s quote) (Wallet.set_available (fun a => a + (amt - fee)))
      (upd_at (wallet_pos db s base) (Wallet.set_locked (fun l => l - qty))
         (upd_at (wallet_pos db b base)
            (Wallet.set_available (fun a => a + (qty - qty * fee / amt)))
            (upd_at (wallet_pos db b quote) (Wallet.set_locked (fun l => l - amt))
               (wallets db))))
  /\ transactions db' =
       transactions db
       ++ leg_tx (find_wallet db b quote) (- amt) quote
       ++ leg_tx (find_wallet db b base) (qty - qty * fee / amt) base
       ++ leg_tx (find_wallet db s base) (- qty) base
       ++ leg_tx (find_wallet db s quote) (amt - fee) quote
  /\ orders db' = orders db /\ trades db' = trades db
  /\ advertisements db' = advertisements db /\ p2p_trades db' = p2p_trades db
  /\ escrows db' = escrows db /\ disputes db' = disputes db
  /\ notifications db' = notifications db
  /\ (is_Some (wallet_pos db b quote) -> ~ qty == 0)
  /\ (is_Some (wallet_pos db b base) -> ~ amt == 0)
  /\ (is_Some (wallet_pos db s base) -> ~ qty == 0).
Proof.
  unfold execute_trade_settlement. intros H.
  apply bind_Ok in H as (db1 & H1 & H).
  apply bind_Ok in H as (db2 & H2 & H).
  apply bind_Ok in H as (db3 & H3 & H4).
  pose proof (same_keys_refl db) as K0.
  destruct (same_keys_find db db b quote K0) as [P1 I1].
  apply (settlement_leg_Ok db) in H1 as (W1 & T1 & ? & ? & ? & ? & ? & ? & ? & G1); auto.
  assert (K1 : same_keys db db1).
  { unfold same_keys. rewrite W1. apply same_keys_upd_at; auto. }
  (* the buyer's base wallet was queried before the first leg *)
  assert (H2' : settlement_leg (find_wallet db b base) amt
                  (Wallet.set_available (fun a => a + (qty - qty * fee / amt)))
                  (qty - qty * fee / amt) base db1 = Ok db2) by exact H2.
  assert (W2 : wallets db2 = upd_at (wallet_pos db b base)
                 (Wallet.set_available (fun a => a + (qty - qty * fee / amt))) (wallets db1)
          /\ transactions db2 = transactions db1
               ++ leg_tx (find_wallet db b base) (qty - qty * fee / amt) base
          /\ orders db2 = orders db1 /\ trades db2 = trades db1
          /\ advertisements db2 = advertisements db1 /\ p2p_trades db2 = p2p_trades db1
          /\ escrows db2 = escrows db1 /\ disputes db2 = disputes db1
          /\ notifications db2 = notifications db1
          /\ (is_Some (wallet_pos db b base) -> ~ amt == 0)).
  { clear -H2'. unfold settlement_leg, wallet_pos in *.
    destruct (find_wallet db b base) as [[i w]|]; simpl.
    - destruct (decide (amt == 0)); [done|]. simplify_eq/=. split_and!; done.
    - simplify_eq. rewrite app_nil_r. split_and!; try done. }
  destruct W2 as (W2 & T2 & ? & ? & ? & ? & ? & ? & ? & G2).
  assert (K2 : same_keys db db2).
  { unfold same_keys. rewrite W2. apply same_keys_upd_at; auto. }
  destruct (same_keys_find db db2 s base K2) as [P3 I3].
  apply (settlement_leg_Ok db) in H3 as (W3 & T3 & ? & ? & ? & ? & ? & ? & ? & G3); auto.
  assert (K3 : same_keys db db3).
  { unfold same_keys. rewrite W3. apply same_keys_upd_at; auto. }
  assert (H4' : settlement_leg (find_wallet db2 s quote) 1
                  (Wallet.set_available (fun a => a + (amt - fee))) (amt - fee)
                  quote db3 = Ok db') by exact H4.
  destruct (same_keys_find db db2 s quote K2) as [P4 I4].
  assert (W4 : wallets db' = upd_at (wallet_pos db s quote)
                 (Wallet.set_available (fun a => a + (amt - fee))) (wallets db3)
          /\ transactions db' = transactions db3
               ++ leg_tx (find_wallet db s quote) (amt - fee) quote
          /\ orders db' = orders db3 /\ trades db' = trades db3
          /\ advertisements db' = advertisements db3 /\ p2p_trades db' = p2p_trades db3
          /\ escrows db' = escrows db3 /\ disputes db' = disputes db3
          /\ notifications db' = notifications db3).
  { clear -H4' P4 I4. unfold settlement_leg, wallet_pos in *.
    destruct (find_wallet db2 s quote) as [[i w]|] eqn:E;
      destruct (find_wallet db s quote) as [[i0 w0]|] eqn:E0; simplify_eq/=.
    - destruct (decide (1 == 0)); [done|]. simplify_eq/=.
      unfold add, trade_tx. rewrite (I4 i0 w w0) by done. split_and!; done.
    - rewrite app_nil_r. split_and!; done. }
  destruct W4 as (W4 & T4 & ? & ? & ? & ? & ? & ? & ?).
  split_and!; [|rewrite T4, T3, T2, T1; by rewrite <- !app_assoc|(assumption || congruence)..].
  rewrite W4, W3, W2, W1. done.
Qed.

Lemma settlement_leg_total w guard upd a cur db :
  ~ guard == 0 -> exists db', settlement_leg w guard upd a cur db = Ok db'.
Proof.
  intros G. unfold settlement_leg. destruct w as [[i x]|]; [|eauto].
  destruct (decide (guard == 0)); [done|eauto].
Qed.

Lemma execute_trade_settlement_total b s base quote qty amt fee db :
  ~ qty == 0 -> ~ amt == 0 ->
  exists db', execute_trade_settlement b s base quote qty amt fee db = Ok db'.
Proof.
  intros Gq Ga. unfold execute_trade_settlement.
  destruct (settlement_leg_total (find_wallet db b quote) qty
              (Wallet.set_locked (fun l => l - amt)) (- amt) quote db Gq) as [db1 ->].
  simpl.
  destruct (settlement_leg_total (find_wallet db b base) amt
              (Wallet.set_available (fun a => a + (qty - qty * fee / amt)))
              (qty - qty * fee / amt) base db1 Ga) as [db2 ->].
  simpl.
  destruct (settlement_leg_total (find_wallet db2 s base) qty
              (Wallet.set_locked (fun l => l - qty)) (- qty) base db2 Gq) as [db3 ->].
  simpl. apply settlement_leg_total. by intros ?.
Qed.

Lemma find_wallet_in_upd_at l o f u c :
  keeps_key f ->
  find_wallet_in (upd_at o f l) u c = upd_row o f <$> find_wallet_in l u c.
Proof.
  intros Hf. destruct o as [i|]; simpl.
  - unfold find_wallet_in. rewrite list_find_alter; [done|].
    intros w. destruct (Hf w) as (_ & -> & ->). done.
  - unfold upd_row. by destruct (find_wallet_in l u c) as [[]|].
Qed.

Lemma wallet_of_Some db u c w :
  wallet_of db u c = Some w -> exists i, find_wallet db u c = Some (i, w).
Proof.
  unfold wallet_of. destruct (find_wallet db u c) as [[i x]|]; [|done].
  intros [= ->]. eauto.
Qed.

Local Ltac same_row_contra :=
  match goal with
  | H1 : find_wallet ?db ?u ?c = Some (?i, _),
    H2 : find_wallet ?db ?u' ?c' = Some (?i, _) |- _ =>
      destruct (find_wallet_same_row _ _ _ _ _ _ _ _ H1 H2) as (? & ? & ?);
      subst; tauto
  end.

(** C4, as stated, fails where the four wallets are one row.  User 1 holds
    100 USD, rests a limit SELL of 10 on the instrument USD/USD at 2 (10
    locked) and then submits a limit BUY of 10 at 2 (20 more locked), which
    meets the SELL: [match_order] leaves out only the aggressor's own row.
    Buyer and seller are user 1, base and quote are USD, the wallet exists
    and holds 70 available and 30 locked when the trade of 10 at 2 is
    settled; all four assignments land on that row, and its locked balance
    falls by the notional and the quantity, to 0, not by the notional, to
    10. *)
Lemma self_trade_debits_lock_twice :
  let db := mkDb [Wallet.mk 1 1 "USD" 70 30] [] [] [] [] [] [] [] [] in
  exists db' w,
    wallet_of db 1 "USD" = Some (Wallet.mk 1 1 "USD" 70 30)
    /\ execute_trade_settlement 1 1 "USD" "USD" 10 (10 * 2) (10 * 2 * fee_rate) db
       = Ok db'
    /\ wallet_of db' 1 "USD" = Some w
    /\ Wallet.locked_balance w == 30 - 10 * 2 - 10
    /\ ~ Wallet.locked_balance w == 30 - 10 * 2
    /\ Wallet.available_balance w
       == 70 + (10 - 10 * (10 * 2 * fee_rate) / (10 * 2)) + (10 * 2 - 10 * 2 * fee_rate)
    /\ exists db1 db2,
         create_order (mkOrderCreate "USD/USD" "SELL" "LIMIT" (Some 2) 10) 1 0
           (mkDb [Wallet.mk 1 1 "USD" 100 0] [] [] [] [] [] [] [] []) = Ok (db1, 1%Z)
         /\ create_order (mkOrderCreate "USD/USD" "BUY" "LIMIT" (Some 2) 10) 1 1 db1
            = Ok (db2, 2%Z)
         /\ (fun t => (Trade.buyer_id t, Trade.seller_id t, Trade.quantity t,
                       Trade.price t)) <$> trades db2 = [(1%Z, 1%Z, 10, 2)]
         /\ wallet_of db2 1 "USD" = Some w.
Proof.
  intros db.
  destruct (execute_trade_settlement 1 1 "USD" "USD" 10 (10 * 2) (10 * 2 * fee_rate) db)
    as [db'|e] eqn:E; [|by vm_compute in E].
  vm_compute in E. simplify_eq. eexists _, _. split; [done|]. split; [done|].
  split; [by vm_compute|]. split; [done|]. split; [by vm_compute|]. split; [done|].
  destruct (create_order (mkOrderCreate "USD/USD" "SELL" "LIMIT" (Some 2) 10) 1 0
              (mkDb [Wallet.mk 1 1 "USD" 100 0] [] [] [] [] [] [] [] []))
    as [[db1 o1]|e] eqn:E1; [|by vm_compute in E1].
  vm_compute in E1. simplify_eq.
  eexists _, _. split; [done|]. split; [by vm_compute|]. split; by vm_compute.
Qed.

(** C4, amended.  A trade of [quantity] at the resting price [price], with
    notional [quantity * price] and fee [notional * fee_rate], between a
    buyer and a seller whose four wallets (buyer quote, buyer base, seller
    base, seller quote) exist and are not all one and the same row, as they
    are when the buyer is the seller and the base currency is the quote
    currency: the settlement completes, the buyer's quote wallet has its
    locked balance lowered by the notional, the buyer's base wallet its
    available balance raised by [quantity - quantity * fee / notional], the
    seller's base wallet its locked balance lowered by [quantity], the
    seller's quote wallet its available balance raised by
    [notional - fee]; exactly that: every other wallet is as before, and
    when the four wallets are four different rows the other balance of each
    is as before. *)
Theorem execute_trade_settlement_exact
    (db : Db) (buyer seller : Z) (base quote : string) (quantity price : Q)
    (wbq wbb wsb wsq : Wallet.t) :
  0 < quantity -> 0 < price ->
  wallet_of db buyer quote = Some wbq ->
  wallet_of db buyer base = Some wbb ->
  wallet_of db seller base = Some wsb ->
  wallet_of db seller quote = Some wsq ->
  ~ (buyer = seller /\ base = quote) ->
  let notional := quantity * price in
  let fee := notional * fee_rate in
  exists db',
    execute_trade_settlement buyer seller base quote quantity notional fee db = Ok db'
    /\ (exists w, wallet_of db' buyer quote = Some w
          /\ Wallet.locked_balance w == Wallet.locked_balance wbq - notional)
    /\ (exists w, wallet_of db' buyer base = Some w
          /\ Wallet.available_balance w
             == Wallet.available_balance wbb + (quantity - quantity * fee / notional))
    /\ (exists w, wallet_of db' seller base = Some w
          /\ Wallet.locked_balance w == Wallet.locked_balance wsb - quantity)
    /\ (exists w, wallet_of db' seller quote = Some w
          /\ Wallet.available_balance w
             == Wallet.available_balance wsq + (notional - fee))
    /\ (forall u c, ~ ((u = buyer \/ u = seller) /\ (c = base \/ c = quote)) ->
          wallet_of db' u c = wallet_of db u c)
    /\ (buyer <> seller -> base <> quote ->
          (exists w, wallet_of db' buyer quote = Some w
             /\ Wallet.available_balance w = Wallet.available_balance wbq)
          /\ (exists w, wallet_of db' buyer base = Some w
                /\ Wallet.locked_balance w = Wallet.locked_balance wbb)
          /\ (exists w, wallet_of db' seller base = Some w
                /\ Wallet.available_balance w = Wallet.available_balance wsb)
          /\ (exists w, wallet_of db' seller quote = Some w
                /\ Wallet.locked_balance w = Wallet.locked_balance wsq)).
Proof.
  intros Hq Hp H1 H2 H3 H4 Hnd notional fee.
  assert (Gq : ~ quantity == 0) by lra.
  assert (Ga : ~ notional == 0) by (unfold notional; nra).
  destruct (execute_trade_settlement_total buyer seller base quote quantity
              notional fee db Gq Ga) as [db' E].
  exists db'. split; [exact E|].
  apply execute_trade_settlement_Ok in E as (W & _).
  apply wallet_of_Some in H1 as [i1 F1], H2 as [i2 F2], H3 as [i3 F3], H4 as [i4 F4].
  assert (L : forall u c, find_wallet db' u c
              = upd_row (Some i4) (Wallet.set_available (fun a => a + (notional - fee)))
                  <$> (upd_row (Some i3) (Wallet.set_locked (fun l => l - quantity))
                  <$> (upd_row (Some i2)
                         (Wallet.set_available
                            (fun a => a + (quantity - quantity * fee / notional)))
                  <$> (upd_row (Some i1) (Wallet.set_locked (fun l => l - notional))
                  <$> find_wallet db u c)))).
  { intros u c. unfold find_wallet at 1. rewrite W. unfold wallet_pos.
    rewrite F1, F2, F3, F4. simpl fst. simpl fmap at 1 2 3 4.
    change (list_find _ ?l) with (find_wallet_in l u c).
    rewrite !find_wallet_in_upd_at by auto. done. }
  unfold wallet_of. split_and!.
  - rewrite L, F1. simpl. eexists; split; [done|].
    repeat (destruct (decide _); simpl); try (exfalso; subst; same_row_contra); try lia; reflexivity.
  - rewrite L, F2. simpl. eexists; split; [done|].
    repeat (destruct (decide _); simpl); try (exfalso; subst; same_row_contra); try lia; reflexivity.
  - rewrite L, F3. simpl. eexists; split; [done|].
    repeat (destruct (decide _); simpl); try (exfalso; subst; same_row_contra); try lia; reflexivity.
  - rewrite L, F4. simpl. eexists; split; [done|].
    repeat (destruct (decide _); simpl); try (exfalso; subst; same_row_contra); try lia; reflexivity.
  - intros u c Hn. rewrite L.
    destruct (find_wallet db u c) as [[j x]|] eqn:F; [|done]. simpl.
    repeat (destruct (decide _); simpl); try done; subst; exfalso;
      match goal with
      | G : find_wallet db ?u' ?c' = Some (?i, _) |- _ =>
          lazymatch u' with
          | u => fail
          | _ => destruct (find_wallet_same_row _ _ _ _ _ _ _ _ F G) as (? & ? & ?);
                 subst; tauto
          end
      end.
  - intros Hbs Hbq. split_and!.
    + rewrite L, F1. simpl. eexists; split; [done|].
      repeat (destruct (decide _); simpl); try (exfalso; subst; same_row_contra); try lia; reflexivity.
    + rewrite L, F2. simpl. eexists; split; [done|].
      repeat (destruct (decide _); simpl); try (exfalso; subst; same_row_contra); try lia; reflexivity.
    + rewrite L, F3. simpl. eexists; split; [done|].
      repeat (destruct (decide _); simpl); try (exfalso; subst; same_row_contra); try lia; reflexivity.
    + rewrite L, F4. simpl. eexists; split; [done|].
      repeat (destruct (decide _); simpl); try (exfalso; subst; same_row_contra); try lia; reflexivity.
Qed.

(** ** Dispute resolution and the ledger *)

(** [resolve_dispute] assigns to trade, escrow and dispute rows only. *)
Lemma resolve_dispute_frame dispute_id rd admin now db db' :
  resolve_dispute dispute_id rd admin now db = Ok db' ->
  wallets db' = wallets db /\ transactions db' = transactions db
  /\ orders db' = orders db /\ trades db' = trades db
  /\ advertisements db' = advertisements db.
Proof.
  unfold resolve_dispute, find_escrow. intros H.
  repeat case_match; simplify_eq/=; done.
Qed.

(** C6 (the code at the failing input and beyond).  Whatever the decision,
    a dispute resolution that succeeds leaves every wallet as it was: with
    [refund_to_buyer] the escrow becomes REFUNDED and the trade CANCELLED,
    but the escrowed amount stays in the seller's locked balance. *)
Theorem resolve_dispute_moves_no_funds
    (dispute_id : Z) (rd : DisputeResolve) (admin now : Z) (db db' : Db) :
  resolve_dispute dispute_id rd admin now db = Ok db' ->
  wallets db' = wallets db.
Proof. intros H. by apply resolve_dispute_frame in H as (-> & _). Qed.

Lemma resolve_dispute_moves_no_funds_witness :
  let db := Examples.p2p_db P2P_DISPUTED [Examples.open_dispute] in
  exists db',
    resolve_dispute 1 Examples.refund 9 100 db = Ok db'
    /\ Escrow.status <$> escrows db' = ["REFUNDED"]
    /\ P2PTrade.status <$> p2p_trades db' = [P2P_CANCELLED]
    /\ wallet_of db 2 "BTC" = Some (Wallet.mk 4 2 "BTC" 1 1)
    /\ wallet_of db' 2 "BTC" = Some (Wallet.mk 4 2 "BTC" 1 1).
Proof.
  intros db.
  destruct (resolve_dispute 1 Examples.refund 9 100 db) as [db'|e] eqn:E;
    [|by vm_compute in E].
  exists db'. split; [done|].
  pose proof (resolve_dispute_moves_no_funds 1 Examples.refund 9 100 db db' E) as W.
  assert (wallet_of db' 2 "BTC" = wallet_of db 2 "BTC") as ->.
  { unfold wallet_of, find_wallet. by rewrite W. }
  vm_compute in E. simplify_eq. by vm_compute.
Defined.

(** ** The ledger invariant *)

(** C3 (the code at the failing input).  Alice owes 50000 USD for the
    trade and has 1000 USD: every wallet is non-negative before
    [confirm_payment], the handler succeeds, and Alice's dollar wallet then
    has an available balance of 1000 - 50000. *)
Theorem confirm_payment_breaks_non_negative :
  let db := Examples.p2p_db P2P_PAYMENT_SENT [] in
  Forall non_negative (wallets db)
  /\ exists db' w,
       confirm_payment 1 2 100 db = Ok db'
       /\ wallet_of db' 1 "USD" = Some w
       /\ Wallet.available_balance w == -49000
       /\ ~ Forall non_negative (wallets db').
Proof.
  intros db. split.
  - apply (bool_decide_unpack _). by vm_compute.
  - destruct (confirm_payment 1 2 100 db) as [db'|e] eqn:E; [|by vm_compute in E].
    vm_compute in E. simplify_eq. eexists _, _. split; [done|].
    split; [by vm_compute|]. split; [done|].
    intros H. apply (bool_decide_pack _) in H. by vm_compute in H.
Qed.

(** ** One match *)

Lemma match_step_Ok ia order ic m db db' order' :
  match_step ia order ic m db = Ok (db', order') ->
  let q := Qmin (OrderBookOrder.remaining_quantity order)
                (OrderBookOrder.remaining_quantity m) in
  exists p base quote,
    OrderBookOrder.price m = Some p
    /\ split_instrument (OrderBookOrder.instrument order) = Ok (base, quote)
    /\ order' = fill q order
    /\ orders db' = <[ic := fill q m]> (<[ia := fill q order]> (orders db))
    /\ trades db' = trades db ++ [trade_of order m p q]
    /\ execute_trade_settlement (buyer_of order m) (seller_of order m) base quote
         q (q * p) (q * p * fee_rate)
         (with_trades (add (trade_of order m p q))
            (with_orders (fun t => <[ic := fill q m]> (<[ia := fill q order]> t)) db))
       = Ok db'.
Proof.
  intros H q. unfold match_step in H.
  destruct (OrderBookOrder.price m) as [p|]; [|done]. simpl in H.
  destruct (split_instrument (OrderBookOrder.instrument order)) as [[base quote]|];
    [|done].
  simpl in H. apply bind_Ok in H as (db1 & S & [= <- <-]).
  exists p, base, quote. split_and!; try done.
  - apply execute_trade_settlement_Ok in S as (_ & _ & -> & _). done.
  - apply execute_trade_settlement_Ok in S as (_ & _ & _ & -> & _). done.
Qed.

Lemma match_step_total ia order ic m db p base quote :
  OrderBookOrder.price m = Some p ->
  split_instrument (OrderBookOrder.instrument order) = Ok (base, quote) ->
  0 < OrderBookOrder.remaining_quantity order ->
  0 < OrderBookOrder.remaining_quantity m ->
  0 < p ->
  exists db', match_step ia order ic m db
              = Ok (db', fill (Qmin (OrderBookOrder.remaining_quantity order)
                                    (OrderBookOrder.remaining_quantity m)) order).
Proof.
  intros Hp Hs Ho Hm Hpos. unfold match_step. rewrite Hp, Hs. simpl.
  set (q := Qmin _ _).
  assert (0 < q) by (unfold q; destruct (Q.min_spec (OrderBookOrder.remaining_quantity order)
    (OrderBookOrder.remaining_quantity m)) as [[? ->]|[? ->]]; lra).
  edestruct (execute_trade_settlement_total (buyer_of order m) (seller_of order m)
               base quote q (q * p) (q * p * fee_rate)) as [db' E];
    [lra|nra|].
  unfold buyer_of, seller_of in E. rewrite E. simpl. eauto.
Qed.

(** A fill changes the remaining quantity and the status, nothing else. *)
Lemma fill_static q o :
  OrderBookOrder.id (fill q o) = OrderBookOrder.id o
  /\ OrderBookOrder.user_id (fill q o) = OrderBookOrder.user_id o
  /\ OrderBookOrder.instrument (fill q o) = OrderBookOrder.instrument o
  /\ OrderBookOrder.order_type (fill q o) = OrderBookOrder.order_type o
  /\ OrderBookOrder.order_subtype (fill q o) = OrderBookOrder.order_subtype o
  /\ OrderBookOrder.price (fill q o) = OrderBookOrder.price o
  /\ OrderBookOrder.quantity (fill q o) = OrderBookOrder.quantity o
  /\ OrderBookOrder.created_at (fill q o) = OrderBookOrder.created_at o
  /\ OrderBookOrder.remaining_quantity (fill q o)
     = OrderBookOrder.remaining_quantity o - q.
Proof. unfold fill, update_status. repeat case_decide; done. Qed.

Lemma trade_of_fill q' order c p q :
  trade_of (fill q' order) c p q = trade_of order c p q.
Proof.
  unfold trade_of, buyer_of, seller_of.
  destruct (fill_static q' order) as (-> & -> & -> & -> & _). done.
Qed.

(** ** The trades and transactions a matching pass commits *)

Lemma leg_tx_length o a c : (length (leg_tx o a c) <= 1)%nat.
Proof. destruct o as [[]|]; simpl; lia. Qed.

Lemma leg_tx_type o a c :
  Forall (fun tx => Transaction.type tx = TRADE) (leg_tx o a c).
Proof. destruct o as [[]|]; simpl; repeat constructor. Qed.

Lemma match_loop_log ia cands : forall order db db' e,
  match_loop ia order cands db = (db', e) ->
  exists new_trades new_txs,
    trades db' = trades db ++ new_trades
    /\ transactions db' = transactions db ++ new_txs
    /\ (length new_txs <= 4 * length new_trades)%nat
    /\ Forall (fun tx => Transaction.type tx = TRADE) new_txs
    /\ Forall (made_by order cands) new_trades.
Proof.
  induction cands as [|[ic m] rest IH]; intros order db db' e H; simpl in H.
  - simplify_eq. exists [], []. rewrite !app_nil_r. by repeat constructor.
  - destruct (decide _).
    { simplify_eq. exists [], []. rewrite !app_nil_r. by repeat constructor. }
    destruct (match_step ia order ic m db) as [[db1 order1]|ex] eqn:S.
    2:{ simplify_eq. exists [], []. rewrite !app_nil_r. by repeat constructor. }
    apply IH in H as (nt & ntx & T & X & L & Ty & M).
    apply match_step_Ok in S as (p & base & quote & Hp & Hs & -> & O1 & T1 & S).
    apply execute_trade_settlement_Ok in S as (_ & X1 & _).
    simpl in X1.
    set (q := Qmin _ _) in *.
    exists (trade_of order m p q :: nt),
      ((leg_tx (find_wallet db (buyer_of order m) quote) (- (q * p)) quote
        ++ leg_tx (find_wallet db (buyer_of order m) base)
             (q - q * (q * p * fee_rate) / (q * p)) base
        ++ leg_tx (find_wallet db (seller_of order m) base) (- q) base
        ++ leg_tx (find_wallet db (seller_of order m) quote)
             (q * p - q * p * fee_rate) quote) ++ ntx).
    split_and!.
    + rewrite T, T1, <- app_assoc. done.
    + rewrite X, X1. rewrite <- !app_assoc. reflexivity.
    + rewrite !length_app. simpl.
      pose proof (leg_tx_length (find_wallet db (buyer_of order m) quote) (- (q * p)) quote).
      pose proof (leg_tx_length (find_wallet db (buyer_of order m) base)
             (q - q * (q * p * fee_rate) / (q * p)) base).
      pose proof (leg_tx_length (find_wallet db (seller_of order m) base) (- q) base).
      pose proof (leg_tx_length (find_wallet db (seller_of order m) quote)
             (q * p - q * p * fee_rate) quote).
      lia.
    + repeat (apply Forall_app; split); auto using leg_tx_type.
    + constructor.
      * exists ic, m. split_and!; [by left|done|done].
      * eapply Forall_impl; [exact M|]. intros t (i & c & Hin & Hpc & Ht).
        exists i, c. split_and!; [by right|done|].
        by rewrite trade_of_fill in Ht.
Qed.

(** ** The rows a matching pass considers *)

Lemma elem_of_matching_orders db order i c :
  (i, c) ∈ matching_orders db order
  <-> orders db !! i = Some c /\ is_candidate order c.
Proof.
  unfold matching_orders. rewrite merge_sort_Permutation.
  rewrite list_elem_of_filter, elem_of_lookup_imap. simpl. split.
  - intros (Hc & j & x & [= -> ->] & Hl). done.
  - intros (Hl & Hc). split; [done|]. by exists i, c.
Qed.


Lemma match_order_log order_id db :
  exists new_trades new_txs,
    trades (match_order order_id db).1 = trades db ++ new_trades
    /\ transactions (match_order order_id db).1 = transactions db ++ new_txs
    /\ (length new_txs <= 4 * length new_trades)%nat
    /\ Forall (fun tx => Transaction.type tx = TRADE) new_txs.
Proof.
  unfold match_order.
  destruct (find_order db order_id) as [[ia order]|] eqn:F.
  2:{ exists [], []. rewrite !app_nil_r. by repeat constructor. }
  destruct (decide _).
  { exists [], []. rewrite !app_nil_r. by repeat constructor. }
  destruct (match_loop ia order (matching_orders db order) db) as [db' e] eqn:L.
  apply match_loop_log in L as (nt & ntx & T & X & Hl & Ty & _).
  by exists nt, ntx.
Qed.

(** ** The audit log *)

(** The lock of [create_order] and what follows it up to the first commit
    add no transaction and no trade. *)
Lemma create_order_Ok order_data current_user now db db' oid :
  create_order order_data current_user now db = Ok (db', oid) ->
  exists db1,
    db' = (match_order oid db1).1
    /\ transactions db1 = transactions db /\ trades db1 = trades db
    /\ length (wallets db1) = length (wallets db)
    /\ exists new_order,
         orders db1 = orders db ++ [new_order]
         /\ OrderBookOrder.id new_order = oid
         /\ OrderBookOrder.user_id new_order = current_user
         /\ OrderBookOrder.instrument new_order = oc_instrument order_data
         /\ OrderBookOrder.price new_order = truthy (oc_price order_data)
         /\ OrderBookOrder.quantity new_order = oc_quantity order_data
         /\ OrderBookOrder.remaining_quantity new_order = oc_quantity order_data
         /\ OrderBookOrder.status new_order = PENDING
         /\ OrderBookOrder.created_at new_order = now
         /\ OrderType_of_string (oc_order_type order_data)
            = Ok (OrderBookOrder.order_type new_order)
         /\ OrderBookOrderType_of_string (oc_order_subtype order_data)
            = Ok (OrderBookOrder.order_subtype new_order).
Proof.
  unfold create_order. intros H.
  repeat (destruct (decide _) as [?|?] in H; [done|]).
  destruct (split_instrument _) as [[base quote]|]; [|done].
  apply bind_Ok in H as (db1 & Hlock & H).
  apply bind_Ok in H as (ot & Hot & H).
  apply bind_Ok in H as (ost & Host & H).
  injection H as <- <-.
  assert (transactions db1 = transactions db /\ trades db1 = trades db
          /\ orders db1 = orders db
          /\ length (wallets db1) = length (wallets db)) as (X & T & O & W).
  { destruct (decide _) in Hlock;
      destruct (find_wallet db current_user _) as [[i w]|]; try done;
      destruct (decide _) in Hlock; try done; injection Hlock as <-; simpl;
      rewrite length_alter; done. }
  eexists. split; [reflexivity|]. simpl. split_and!; try done.
  eexists. split; [by rewrite O|]. simpl. rewrite O. split_and!; done.
Qed.

Lemma cancel_order_frame order_id current_user db db' :
  cancel_order order_id current_user db = Ok db' ->
  transactions db' = transactions db /\ trades db' = trades db.
Proof.
  unfold cancel_order. intros H.
  destruct (list_find _ (orders db)) as [[io order]|]; [|done].
  destruct (decide _); [|done].
  destruct (split_instrument _) as [[base quote]|]; [|done]. simpl in H.
  apply bind_Ok in H as (db1 & H1 & [= <-]). simpl.
  destruct (OrderBookOrder.order_type order);
    [destruct (OrderBookOrder.price order); [|done]|];
    injection H1 as <-;
    match goal with
    | |- context [find_wallet db ?u ?c] => destruct (find_wallet db u c) as [[]|]
    end; done.
Qed.

Lemma unlock_seller_frame seller_id currency amount db :
  transactions (unlock_seller seller_id currency amount db) = transactions db
  /\ escrows (unlock_seller seller_id currency amount db) = escrows db
  /\ advertisements (unlock_seller seller_id currency amount db) = advertisements db
  /\ p2p_trades (unlock_seller seller_id currency amount db) = p2p_trades db
  /\ disputes (unlock_seller seller_id currency amount db) = disputes db
  /\ notifications (unlock_seller seller_id currency amount db) = notifications db.
Proof. unfold unlock_seller. by destruct (find_wallet _ _ _) as [[]|]. Qed.

Lemma cancel_trade_frame trade_id current_user db db' :
  cancel_trade trade_id current_user db = Ok db' ->
  transactions db' = transactions db.
Proof.
  unfold cancel_trade, find_escrow, unlock_seller. intros H.
  repeat case_match; simplify_eq/=; done.
Qed.

Lemma foldl_preserves {A B C} (f : A -> B -> A) (g : A -> C) (l : list B) :
  (forall a x, g (f a x) = g a) -> forall a, g (foldl f a l) = g a.
Proof.
  intros Hf. induction l as [|x l IH]; intros a; simpl; [done|].
  by rewrite IH, Hf.
Qed.

Lemma expire_trade_transactions ia db x :
  transactions (expire_trade ia db x) = transactions db.
Proof.
  destruct x as [it trade]. unfold expire_trade, find_escrow, unlock_seller.
  repeat case_match; simplify_eq/=; done.
Qed.

Lemma expire_ad_transactions now db x :
  transactions (expire_ad now db x) = transactions db.
Proof.
  destruct x as [ia ad]. unfold expire_ad. case_decide; [|done].
  rewrite (foldl_preserves _ transactions); [done|].
  intros. apply expire_trade_transactions.
Qed.

Lemma _check_and_expire_ads_transactions now db :
  transactions (_check_and_expire_ads now db) = transactions db.
Proof.
  unfold _check_and_expire_ads.
  rewrite (foldl_preserves _ transactions); [done|].
  intros. apply expire_ad_transactions.
Qed.

(** C5, as stated, fails.  Alice has 100000 USD and submits a limit BUY of
    0.01 BTC at 50000 on an empty book: 500 USD move from her available to
    her locked balance and the transaction table stays empty. *)
Lemma lock_appends_no_transaction :
  exists db' oid w,
    create_order (mkOrderCreate "BTC/USD" "BUY" "LIMIT" (Some 50000) (1 # 100))
      1 0 Examples.empty_book = Ok (db', oid)
    /\ wallet_of Examples.empty_book 1 "USD" = Some (Wallet.mk 1 1 "USD" 100000 0)
    /\ wallet_of db' 1 "USD" = Some w
    /\ Wallet.available_balance w == 99500
    /\ Wallet.locked_balance w == 500
    /\ transactions db' = [].
Proof.
  destruct (create_order _ 1 0 Examples.empty_book) as [[db' oid]|e] eqn:E;
    [|by vm_compute in E].
  vm_compute in E. simplify_eq. eexists _, _, _. split; [done|].
  split; [done|]. split; [by vm_compute|]. done.
Qed.

(** C5, amended.  Each settlement leg that finds its wallet appends exactly
    one transaction, of type TRADE, with the signed amount of the leg (and
    a leg that finds no wallet appends none).  The lock of [create_order]
    appends none: the transactions a submission appends are of type TRADE
    and at most four for each trade it executes.  The unlock of
    [cancel_order], the escrow refund of [cancel_trade] and that of the
    expiration sweep append none. *)
Theorem audit_log_rows :
  (forall b s base quote qty amt fee db db',
     execute_trade_settlement b s base quote qty amt fee db = Ok db' ->
     transactions db' =
       transactions db
       ++ leg_tx (find_wallet db b quote) (- amt) quote
       ++ leg_tx (find_wallet db b base) (qty - qty * fee / amt) base
       ++ leg_tx (find_wallet db s base) (- qty) base
       ++ leg_tx (find_wallet db s quote) (amt - fee) quote)
  /\ (forall order_data current_user now db db' oid,
        create_order order_data current_user now db = Ok (db', oid) ->
        exists new_trades new_txs,
          trades db' = trades db ++ new_trades
          /\ transactions db' = transactions db ++ new_txs
          /\ (length new_txs <= 4 * length new_trades)%nat
          /\ Forall (fun tx => Transaction.type tx = TRADE) new_txs)
  /\ (forall order_id current_user db db',
        cancel_order order_id current_user db = Ok db' ->
        transactions db' = transactions db)
  /\ (forall trade_id current_user db db',
        cancel_trade trade_id current_user db = Ok db' ->
        transactions db' = transactions db)
  /\ (forall now db,
        transactions (_check_and_expire_ads now db) = transactions db).
Proof.
  split_and!.
  - intros * H. by apply execute_trade_settlement_Ok in H as (_ & -> & _).
  - intros * H. apply create_order_Ok in H as (db1 & -> & X & T & _).
    destruct (match_order_log oid db1) as (nt & ntx & ? & ? & ? & ?).
    exists nt, ntx. rewrite <- X, <- T. done.
  - intros * H. by apply cancel_order_frame in H as [-> _].
  - intros * H. by apply cancel_trade_frame in H.
  - apply _check_and_expire_ads_transactions.
Qed.

Lemma audit_log_rows_witness :
  exists db' oid new_trades new_txs,
    create_order (mkOrderCreate "BTC/USD" "BUY" "LIMIT" (Some 50000) (3 # 2))
      1 2 Examples.two_sells = Ok (db', oid)
    /\ trades db' = trades Examples.two_sells ++ new_trades
    /\ transactions db' = transactions Examples.two_sells ++ new_txs
    /\ (length new_txs <= 4 * length new_trades)%nat
    /\ Forall (fun tx => Transaction.type tx = TRADE) new_txs
    /\ length new_trades = 2%nat /\ length new_txs = 8%nat.
Proof.
  destruct (create_order (mkOrderCreate "BTC/USD" "BUY" "LIMIT" (Some 50000) (3 # 2))
              1 2 Examples.two_sells) as [[db' oid]|e] eqn:E;
    [|by vm_compute in E].
  destruct audit_log_rows as (_ & H & _).
  destruct (H _ _ _ _ _ _ E) as (nt & ntx & T & X & L & Ty).
  exists db', oid, nt, ntx. split_and!; try done.
  - vm_compute in E. simplify_eq. simpl in T. by subst nt.
  - vm_compute in E. simplify_eq. simpl in X. by subst ntx.
Defined.

Lemma execute_trade_settlement_exact_witness :
  exists db' w,
    execute_trade_settlement 1 2 "BTC" "USD" 1 (1 * 50000) (1 * 50000 * fee_rate)
      Examples.two_sells = Ok db'
    /\ wallet_of db' 2 "USD" = Some w
    /\ Wallet.available_balance w == 49950.
Proof.
  destruct (execute_trade_settlement_exact Examples.two_sells 1 2 "BTC" "USD" 1 50000
              (Wallet.mk 1 1 "USD" 100000 0) (Wallet.mk 2 1 "BTC" 0 0)
              (Wallet.mk 4 2 "BTC" 1 1) (Wallet.mk 3 2 "USD" 0 0))
    as (db' & E & _ & _ & _ & (w & Hw & Ha) & _).
  - reflexivity.
  - reflexivity.
  - reflexivity.
  - reflexivity.
  - reflexivity.
  - reflexivity.
  - intros [? _]. lia.
  - exists db', w. split; [exact E|]. split; [exact Hw|].
    rewrite Ha. vm_compute. reflexivity.
Defined.

(** ** Cancellation *)

(** C7 (the code at the failing input and beyond).  An open BUY order that
    carries no price, as [create_order] stores a market BUY submitted
    without one, cannot be cancelled by its owner: [cancel_order] raises
    [TypeError] at [order.remaining_quantity * order.price] and the order
    keeps its status. *)
Theorem cancel_order_unpriced_buy_raises
    (order_id current_user : Z) (db : Db) (io : nat) (order : Order)
    (base quote : string) :
  list_find (fun o => OrderBookOrder.id o = order_id
                      /\ OrderBookOrder.user_id o = current_user) (orders db)
    = Some (io, order) ->
  open_status (OrderBookOrder.status order) ->
  split_instrument (OrderBookOrder.instrument order) = Ok (base, quote) ->
  OrderBookOrder.order_type order = BUY ->
  OrderBookOrder.price order = None ->
  cancel_order order_id current_user db = Raise TypeError.
Proof.
  intros F Ho Hs Ht Hp. unfold cancel_order. rewrite F.
  rewrite decide_True by done. rewrite Hs. simpl. by rewrite Ht, Hp.
Qed.

Lemma cancel_order_unpriced_buy_raises_witness :
  exists db1 oid,
    create_order (mkOrderCreate "BTC/USD" "BUY" "MARKET" None 1) 1 0
      Examples.empty_book = Ok (db1, oid)
    /\ OrderBookOrder.status <$> orders db1 = [PENDING]
    /\ cancel_order oid 1 db1 = Raise TypeError.
Proof.
  destruct (create_order (mkOrderCreate "BTC/USD" "BUY" "MARKET" None 1) 1 0
              Examples.empty_book) as [[db1 oid]|e] eqn:E; [|by vm_compute in E].
  vm_compute in E. simplify_eq. eexists _, _. split; [done|]. split; [done|].
  eapply (cancel_order_unpriced_buy_raises _ _ _ 0%nat _ "BTC" "USD").
  - reflexivity.
  - left. reflexivity.
  - reflexivity.
  - reflexivity.
  - reflexivity.
Defined.

(** The rest of the cancellation contract holds on the code. *)
Lemma cancel_order_not_found order_id current_user db :
  list_find (fun o => OrderBookOrder.id o = order_id
                      /\ OrderBookOrder.user_id o = current_user) (orders db) = None ->
  cancel_order order_id current_user db
  = Raise (HTTPException HTTP_404_NOT_FOUND "Order not found").
Proof. intros F. unfold cancel_order. by rewrite F. Qed.

Lemma cancel_order_invalid_state order_id current_user db io order :
  list_find (fun o => OrderBookOrder.id o = order_id
                      /\ OrderBookOrder.user_id o = current_user) (orders db)
    = Some (io, order) ->
  ~ open_status (OrderBookOrder.status order) ->
  cancel_order order_id current_user db
  = Raise (HTTPException HTTP_400_BAD_REQUEST
             "Can only cancel pending or partially filled orders").
Proof. intros F Ho. unfold cancel_order. rewrite F. by rewrite decide_False. Qed.

Lemma cancel_order_unlocks order_id current_user db io order base quote amount i w :
  list_find (fun o => OrderBookOrder.id o = order_id
                      /\ OrderBookOrder.user_id o = current_user) (orders db)
    = Some (io, order) ->
  open_status (OrderBookOrder.status order) ->
  split_instrument (OrderBookOrder.instrument order) = Ok (base, quote) ->
  locked_amount order = Some amount ->
  find_wallet db current_user (locked_currency order base quote) = Some (i, w) ->
  exists db',
    cancel_order order_id current_user db = Ok db'
    /\ wallet_of db' current_user (locked_currency order base quote)
       = Some (Wallet.mk (Wallet.id w) (Wallet.user_id w) (Wallet.currency w)
                 (Wallet.available_balance w + amount)
                 (Wallet.locked_balance w - amount))
    /\ orders db' !! io = Some (OrderBookOrder.set_status CANCELLED order)
    /\ OrderBookOrder.remaining_quantity (OrderBookOrder.set_status CANCELLED order)
       = OrderBookOrder.remaining_quantity order.
Proof.
  intros F Ho Hs Ha Hw. unfold cancel_order. rewrite F.
  rewrite decide_True by done. rewrite Hs. simpl.
  pose proof (list_find_lookup _ _ _ _ F) as [Hl _].
  unfold locked_amount, locked_currency in *.
  destruct (OrderBookOrder.order_type order).
  - destruct (OrderBookOrder.price order) as [p|]; [|done]. simplify_eq/=.
    rewrite Hw. eexists. split; [done|]. split_and!; [|simpl; by rewrite list_lookup_alter_eq, Hl|done].
    unfold wallet_of. rewrite find_wallet_with_orders, find_wallet_alter by auto.
    rewrite Hw. simpl. by rewrite decide_True.
  - simplify_eq/=.
    rewrite Hw. eexists. split; [done|]. split_and!; [|simpl; by rewrite list_lookup_alter_eq, Hl|done].
    unfold wallet_of. rewrite find_wallet_with_orders, find_wallet_alter by auto.
    rewrite Hw. simpl. by rewrite decide_True.
Qed.

(** Cancelling a partially filled BUY, remaining 0.3 at price 100, unlocks
    30 of the quote currency and leaves the remaining quantity at 0.3. *)
Example cancel_order_scenario :
  let order := OrderBookOrder.mk 1 1 "BTC/USD" BUY LIMIT (Some 100) 1 (3 # 10)
                 PARTIALLY_FILLED 0 in
  let db := mkDb [Wallet.mk 1 1 "USD" 0 30] [] [order] [] [] [] [] [] [] in
  exists db' w o,
    cancel_order 1 1 db = Ok db'
    /\ wallet_of db' 1 "USD" = Some w
    /\ Wallet.available_balance w == 30 /\ Wallet.locked_balance w == 0
    /\ orders db' = [o]
    /\ OrderBookOrder.status o = CANCELLED
    /\ OrderBookOrder.remaining_quantity o = 3 # 10.
Proof.
  intros order db.
  destruct (cancel_order 1 1 db) as [db'|e] eqn:E; [|by vm_compute in E].
  vm_compute in E. simplify_eq. eexists _, _, _. split; [done|].
  split; [by vm_compute|]. done.
Qed.

(** ** Market BUY orders without a price *)

(** The row a wallet query selects after a settlement. *)
Lemma find_wallet_settled b s base quote qty amt fee db db' u c :
  execute_trade_settlement b s base quote qty amt fee db = Ok db' ->
  find_wallet db' u c
  = upd_row (wallet_pos db s quote) (Wallet.set_available (fun a => a + (amt - fee)))
      <$> (upd_row (wallet_pos db s base) (Wallet.set_locked (fun l => l - qty))
      <$> (upd_row (wallet_pos db b base)
             (Wallet.set_available (fun a => a + (qty - qty * fee / amt)))
      <$> (upd_row (wallet_pos db b quote) (Wallet.set_locked (fun l => l - amt))
      <$> find_wallet db u c))).
Proof.
  intros E. apply execute_trade_settlement_Ok in E as (W & _).
  unfold find_wallet at 1. rewrite W.
  change (list_find _ ?l) with (find_wallet_in l u c).
  rewrite !find_wallet_in_upd_at by auto. done.
Qed.

(** A match charges its notional to the locked quote balance of the buyer,
    whatever that balance is. *)
Lemma match_step_debits_buyer_lock ia order ic m db db' order' base quote i w :
  OrderBookOrder.order_type order = BUY ->
  split_instrument (OrderBookOrder.instrument order) = Ok (base, quote) ->
  find_wallet db (OrderBookOrder.user_id order) quote = Some (i, w) ->
  ~ (OrderBookOrder.user_id m = OrderBookOrder.user_id order /\ base = quote) ->
  match_step ia order ic m db = Ok (db', order') ->
  exists p w',
    OrderBookOrder.price m = Some p
    /\ wallet_of db' (OrderBookOrder.user_id order) quote = Some w'
    /\ Wallet.locked_balance w'
       = Wallet.locked_balance w
         - Qmin (OrderBookOrder.remaining_quantity order)
                (OrderBookOrder.remaining_quantity m) * p.
Proof.
  intros Ht Hs Hw Hnd H.
  apply match_step_Ok in H as (p & base' & quote' & Hp & Hs' & _ & _ & _ & E).
  rewrite Hs in Hs'. injection Hs' as <- <-.
  exists p. unfold wallet_of.
  rewrite (find_wallet_settled _ _ _ _ _ _ _ _ _ _ _ E).
  unfold buyer_of, seller_of, wallet_pos. rewrite Ht.
  change (find_wallet (with_trades ?g (with_orders ?h db)) ?u ?c)
    with (find_wallet db u c).
  rewrite Hw. simpl.
  destruct (find_wallet db (OrderBookOrder.user_id order) base) as [[i2 w2]|] eqn:F2;
    destruct (find_wallet db (OrderBookOrder.user_id m) base) as [[i3 w3]|] eqn:F3;
    destruct (find_wallet db (OrderBookOrder.user_id m) quote) as [[i4 w4]|] eqn:F4;
    simpl; eexists; (split; [done|]); (split; [done|]);
    repeat (destruct (decide _); simpl); try (exfalso; subst; same_row_contra);
    try lia; reflexivity.
Qed.

(** C10, as stated, fails on a wallet that is overdrawn: after a
    [confirm_payment] that charges her 50000 USD of the 1000 she has, Alice
    has a USD wallet, with -49000 available, and her market BUY without a
    price is rejected by the balance check. *)
Lemma market_buy_rejected_when_overdrawn :
  exists db' w,
    confirm_payment 1 2 100 (Examples.p2p_db P2P_PAYMENT_SENT []) = Ok db'
    /\ wallet_of db' 1 "USD" = Some w
    /\ Wallet.available_balance w == -49000
    /\ create_order (mkOrderCreate "BTC/USD" "BUY" "MARKET" None 1) 1 200 db'
       = Raise (HTTPException HTTP_400_BAD_REQUEST "Insufficient USD balance").
Proof.
  destruct (confirm_payment 1 2 100 (Examples.p2p_db P2P_PAYMENT_SENT []))
    as [db'|e] eqn:E; [|by vm_compute in E].
  vm_compute in E. simplify_eq. eexists _, _. split; [done|].
  split; [by vm_compute|]. split; [done|]. by vm_compute.
Qed.

(** C10, amended.  A BUY order submitted with kind MARKET and no price, a
    positive quantity and a well-formed instrument, by a user whose quote
    wallet has a non-negative available balance: the required lock is
    [quantity * 0 == 0]; the order is admitted (stored PENDING, without a
    price) and the wallet's balances are as before; and whenever such an
    order is matched, the notional of the trade is subtracted from the
    buyer's locked quote balance, whatever that balance is. *)
Theorem market_buy_locks_nothing
    (db : Db) (user now : Z) (instrument base quote : string) (quantity : Q)
    (i : nat) (w : Wallet.t) :
  split_instrument instrument = Ok (base, quote) ->
  0 < quantity ->
  find_wallet db user quote = Some (i, w) ->
  0 <= Wallet.available_balance w ->
  let order_data := mkOrderCreate instrument "BUY" "MARKET" None quantity in
  let required_amount :=
    oc_quantity order_data * default 0 (truthy (oc_price order_data)) in
  let new_order :=
    OrderBookOrder.mk (next_id OrderBookOrder.id (orders db)) user instrument
      BUY MARKET None quantity quantity PENDING now in
  required_amount == 0
  /\ (exists db1 w1,
        create_order order_data user now db
        = Ok ((match_order (OrderBookOrder.id new_order) db1).1,
              OrderBookOrder.id new_order)
        /\ orders db1 = orders db ++ [new_order]
        /\ wallets db1 = alter (fun _ => w1) i (wallets db)
        /\ Wallet.available_balance w1 == Wallet.available_balance w
        /\ Wallet.locked_balance w1 == Wallet.locked_balance w)
  /\ (forall ia order ic m d d' order' j wd,
        OrderBookOrder.order_type order = BUY ->
        OrderBookOrder.user_id order = user ->
        OrderBookOrder.instrument order = instrument ->
        find_wallet d user quote = Some (j, wd) ->
        ~ (OrderBookOrder.user_id m = user /\ base = quote) ->
        match_step ia order ic m d = Ok (d', order') ->
        exists p wd',
          OrderBookOrder.price m = Some p
          /\ wallet_of d' user quote = Some wd'
          /\ Wallet.locked_balance wd'
             = Wallet.locked_balance wd
               - Qmin (OrderBookOrder.remaining_quantity order)
                      (OrderBookOrder.remaining_quantity m) * p).
Proof.
  intros Hs Hq Hw Ha order_data required_amount new_order.
  assert (R : required_amount == 0) by (unfold required_amount; simpl; lra).
  split; [exact R|]. split.
  - unfold create_order.
    cbn [oc_order_subtype oc_price oc_quantity oc_instrument oc_order_type order_data].
    rewrite decide_False by (intros [? _]; done).
    rewrite decide_False by (by intros ?).
    rewrite decide_False by lra.
    rewrite Hs. rewrite decide_True by done. cbn [mbind result_bind].
    rewrite Hw.
    rewrite decide_False by (change (truthy None) with (@None Q); simpl; lra).
    cbn [mbind result_bind].
    eexists _, (Wallet.set_locked (fun l => l + required_amount)
                  (Wallet.set_available (fun a => a - required_amount) w)).
    split; [reflexivity|]. split; [reflexivity|]. simpl. split_and!.
    + apply list_eq. intros j. rewrite !list_lookup_alter.
      apply find_wallet_lookup in Hw as [Hl _].
      case_decide; [subst; by rewrite Hl|done].
    + unfold required_amount in *. simpl in *. lra.
    + unfold required_amount in *. simpl in *. lra.
  - intros ia order ic m d d' order' j wd Ht <- <- Hwd Hnd H.
    by eapply match_step_debits_buyer_lock.
Qed.

Lemma market_buy_locks_nothing_witness :
  exists db' oid w,
    create_order (mkOrderCreate "BTC/USD" "BUY" "MARKET" None 1) 1 2
      Examples.two_sells = Ok (db', oid)
    /\ wallet_of Examples.two_sells 1 "USD" = Some (Wallet.mk 1 1 "USD" 100000 0)
    /\ wallet_of db' 1 "USD" = Some w
    /\ Wallet.available_balance w == 100000
    /\ Wallet.locked_balance w == -50000.
Proof.
  destruct (market_buy_locks_nothing Examples.two_sells 1 2 "BTC/USD" "BTC" "USD" 1
              0%nat (Wallet.mk 1 1 "USD" 100000 0))
    as (_ & (db1 & w1 & E & _) & _).
  - reflexivity.
  - reflexivity.
  - reflexivity.
  - apply Qle_bool_imp_le. reflexivity.
  - destruct (create_order (mkOrderCreate "BTC/USD" "BUY" "MARKET" None 1) 1 2
                Examples.two_sells) as [[db' oid]|e] eqn:C; [|done].
    clear E. vm_compute in C. simplify_eq.
    eexists _, _, _. split; [reflexivity|]. split; [reflexivity|].
    split; [by vm_compute|]. split; by vm_compute.
Defined.

(** ** Escrow exclusivity *)

Lemma no_relock_refl l : no_relock l l.
Proof. by intros i. Qed.

Lemma no_relock_trans l1 l2 l3 : no_relock l1 l2 -> no_relock l2 l3 -> no_relock l1 l3.
Proof. intros H1 H2 i H. by apply H1, H2. Qed.

Lemma no_relock_alter l ie f :
  (forall e, Escrow.status (f e) <> "LOCKED") -> no_relock l (alter f ie l).
Proof.
  intros Hf i. rewrite list_lookup_alter. case_decide; [|done]. subst.
  destruct (l !! i) as [e|]; simpl; [|done]. intros [= H]. by destruct (Hf e).
Qed.

Lemma confirm_payment_frame trade_id current_user now db db' :
  confirm_payment trade_id current_user now db = Ok db' ->
  no_relock (escrows db) (escrows db') /\ disputes db' = disputes db.
Proof.
  unfold confirm_payment, find_escrow. intros H.
  repeat case_match; simplify_eq/=;
    (split; [first [apply no_relock_refl | by apply no_relock_alter]|done]).
Qed.

Lemma cancel_trade_escrows trade_id current_user db db' :
  cancel_trade trade_id current_user db = Ok db' ->
  no_relock (escrows db) (escrows db') /\ disputes db' = disputes db.
Proof.
  unfold cancel_trade, find_escrow, unlock_seller. intros H.
  repeat case_match; simplify_eq/=;
    (split; [first [apply no_relock_refl | by apply no_relock_alter]|done]).
Qed.

Lemma resolve_dispute_escrows dispute_id rd admin now db db' :
  resolve_dispute dispute_id rd admin now db = Ok db' ->
  no_relock (escrows db) (escrows db').
Proof.
  unfold resolve_dispute, find_escrow. intros H.
  repeat case_match; simplify_eq/=;
    first [apply no_relock_refl | by apply no_relock_alter].
Qed.

Lemma expire_trade_escrows ia db x :
  no_relock (escrows db) (escrows (expire_trade ia db x))
  /\ disputes (expire_trade ia db x) = disputes db.
Proof.
  destruct x as [it trade]. unfold expire_trade, find_escrow, unlock_seller.
  repeat case_match; simplify_eq/=;
    (split; [first [apply no_relock_refl | by apply no_relock_alter]|done]).
Qed.

Lemma foldl_invariant {A B} (R : A -> A -> Prop) (f : A -> B -> A) (l : list B) :
  (forall a, R a a) -> (forall a b c, R a b -> R b c -> R a c) ->
  (forall a x, R a (f a x)) -> forall a, R a (foldl f a l).
Proof.
  intros Hr Ht Hf. induction l as [|x l IH]; intros a; simpl; [apply Hr|].
  eapply Ht; [apply Hf|apply IH].
Qed.

Lemma p2p_step_refl db : p2p_step db db.
Proof. split; [apply no_relock_refl|done]. Qed.

Lemma p2p_step_trans a b c : p2p_step a b -> p2p_step b c -> p2p_step a c.
Proof.
  intros [H1 D1] [H2 D2]. split; [by eapply no_relock_trans|congruence].
Qed.

Lemma expire_ad_escrows now db x : p2p_step db (expire_ad now db x).
Proof.
  destruct x as [ia ad]. unfold expire_ad. case_decide; [|apply p2p_step_refl].
  eapply p2p_step_trans;
    [|apply (foldl_invariant p2p_step);
      [apply p2p_step_refl|apply p2p_step_trans|intros a x; apply expire_trade_escrows]].
  split; [apply no_relock_refl|done].
Qed.

Lemma _check_and_expire_ads_escrows now db :
  p2p_step db (_check_and_expire_ads now db).
Proof.
  unfold _check_and_expire_ads. apply (foldl_invariant p2p_step).
  - apply p2p_step_refl.
  - apply p2p_step_trans.
  - intros a x. apply expire_ad_escrows.
Qed.

(** No operation sets an escrow to LOCKED. *)
Lemma run_op_no_relock op db : no_relock (escrows db) (escrows (run_op op db)).
Proof.
  destruct op; simpl.
  - destruct (confirm_payment _ _ _ db) eqn:E; simpl; [|apply no_relock_refl].
    by apply confirm_payment_frame in E as [? _].
  - destruct (cancel_trade _ _ db) eqn:E; simpl; [|apply no_relock_refl].
    by apply cancel_trade_escrows in E as [? _].
  - destruct (resolve_dispute _ _ _ _ db) eqn:E; simpl; [|apply no_relock_refl].
    by apply resolve_dispute_escrows in E.
  - apply _check_and_expire_ads_escrows.
Qed.

Lemma departures_unlocked i ops : forall db,
  ~ locked_at db i -> departures i (trace ops db) = 0%nat.
Proof.
  induction ops as [|op ops IH]; intros db H; [done|].
  change (trace (op :: ops) db) with (db :: trace ops (run_op op db)).
  destruct ops as [|op' ops']; simpl.
  - rewrite decide_False by tauto. done.
  - rewrite decide_False by tauto.
    assert (H' : ~ locked_at (run_op op db) i).
    { intros L. apply H. by apply (run_op_no_relock op db i). }
    apply (IH _ H').
Qed.

Lemma resolve_dispute_disputes dispute_id rd admin now db db' :
  resolve_dispute dispute_id rd admin now db = Ok db' ->
  exists k d,
    list_find (fun d => Dispute.id d = dispute_id) (disputes db) = Some (k, d)
    /\ disputes db' = alter (resolved_by (dr_resolution rd) admin now) k (disputes db).
Proof.
  unfold resolve_dispute, find_escrow. intros H.
  destruct (list_find _ (disputes db)) as [[k d]|]; [|done].
  exists k, d. split; [done|].
  repeat case_match; simplify_eq/=; done.
Qed.

Lemma already_resolved_alter dispute_id resolution admin now k db db' :
  disputes db' = alter (resolved_by resolution admin now) k (disputes db) ->
  (already_resolved dispute_id db
   \/ exists d, list_find (fun d => Dispute.id d = dispute_id) (disputes db) = Some (k, d)) ->
  already_resolved dispute_id db'.
Proof.
  intros D H. unfold already_resolved. rewrite D.
  rewrite list_find_alter by done.
  destruct H as [(j & d & -> & R)|(d & ->)]; simpl.
  - eexists _, _. split; [done|]. by case_decide.
  - eexists _, _. split; [done|]. by rewrite decide_True.
Qed.

Lemma resolve_dispute_resolves dispute_id rd admin now db db' :
  resolve_dispute dispute_id rd admin now db = Ok db' ->
  already_resolved dispute_id db'.
Proof.
  intros H. apply resolve_dispute_disputes in H as (k & d & F & D).
  eapply already_resolved_alter; [exact D|]. right. eauto.
Qed.

Lemma already_resolved_disputes dispute_id db db' :
  disputes db' = disputes db ->
  already_resolved dispute_id db -> already_resolved dispute_id db'.
Proof. unfold already_resolved. by intros ->. Qed.

Lemma already_resolved_run_op dispute_id op db :
  already_resolved dispute_id db -> already_resolved dispute_id (run_op op db).
Proof.
  intros R. destruct op; simpl.
  - destruct (confirm_payment _ _ _ db) eqn:E; simpl; [|done].
    apply confirm_payment_frame in E as [_ D]. by eapply already_resolved_disputes.
  - destruct (cancel_trade _ _ db) eqn:E; simpl; [|done].
    apply cancel_trade_escrows in E as [_ D]. by eapply already_resolved_disputes.
  - destruct (resolve_dispute _ _ _ _ db) eqn:E; simpl; [|done].
    apply resolve_dispute_disputes in E as (k & d & F & D).
    eapply already_resolved_alter; [exact D|]. by left.
  - destruct (_check_and_expire_ads_escrows now db) as [_ D].
    by eapply already_resolved_disputes.
Qed.

Lemma already_resolved_run dispute_id ops : forall db,
  already_resolved dispute_id db -> already_resolved dispute_id (run ops db).
Proof.
  induction ops as [|op ops IH]; intros db R; [done|].
  apply IH. by apply already_resolved_run_op.
Qed.

Lemma resolve_dispute_already_resolved dispute_id rd admin now db :
  already_resolved dispute_id db ->
  resolve_dispute dispute_id rd admin now db
  = Raise (HTTPException HTTP_400_BAD_REQUEST "Dispute already resolved").
Proof.
  intros (k & d & F & R). unfold resolve_dispute. rewrite F.
  by rewrite decide_True.
Qed.

(** C8.  Over any sequence of [confirm_payment], [cancel_trade],
    [resolve_dispute] and expiration sweeps, from any state, an escrow goes
    from LOCKED to another status at most once.  And once a dispute has
    been resolved, whatever of these operations follow, resolving it again
    raises 400 "Dispute already resolved" and changes nothing. *)
Theorem escrow_leaves_locked_at_most_once :
  (forall ops db i, (departures i (trace ops db) <= 1)%nat)
  /\ (forall dispute_id rd admin now db db1 ops rd' admin' now',
        resolve_dispute dispute_id rd admin now db = Ok db1 ->
        resolve_dispute dispute_id rd' admin' now' (run ops db1)
        = Raise (HTTPException HTTP_400_BAD_REQUEST "Dispute already resolved")
        /\ run_op (ResolveDispute dispute_id rd' admin' now') (run ops db1)
           = run ops db1).
Proof.
  split.
  - intros ops. induction ops as [|op ops IH]; intros db i; [simpl; lia|].
    change (trace (op :: ops) db) with (db :: trace ops (run_op op db)).
    pose proof (IH (run_op op db) i) as Le.
    destruct (decide (locked_at (run_op op db) i)) as [L|L].
    + destruct ops; simpl in *; rewrite decide_False by tauto; lia.
    + pose proof (departures_unlocked i ops _ L) as Z.
      destruct ops; simpl in *; case_decide; lia.
  - intros * H.
    assert (R : already_resolved dispute_id (run ops db1))
      by (by eapply already_resolved_run, resolve_dispute_resolves).
    pose proof (resolve_dispute_already_resolved dispute_id rd' admin' now' _ R) as E.
    split; [exact E|]. simpl. by rewrite E.
Qed.

Lemma escrow_leaves_locked_at_most_once_witness :
  let db := Examples.p2p_db P2P_DISPUTED [Examples.open_dispute] in
  let ops := [CancelTrade 1 2; ExpirationSweep 5000; ConfirmPayment 1 2 5001] in
  exists db1,
    resolve_dispute 1 Examples.refund 9 100 db = Ok db1
    /\ resolve_dispute 1 Examples.release 9 6000 (run ops db1)
       = Raise (HTTPException HTTP_400_BAD_REQUEST "Dispute already resolved")
    /\ departures 0 (trace (ResolveDispute 1 Examples.refund 9 100 :: ops) db) = 1%nat.
Proof.
  intros db ops.
  destruct (resolve_dispute 1 Examples.refund 9 100 db) as [db1|e] eqn:E;
    [|by vm_compute in E].
  exists db1. split; [done|].
  destruct escrow_leaves_locked_at_most_once as [_ H].
  split; [exact (proj1 (H 1%Z _ 9%Z 100%Z db db1 ops Examples.release 9%Z 6000%Z E))|].
  by vm_compute.
Defined.

(** ** The expiration sweep *)

Lemma ads_step_refl db : ads_step db db.
Proof.
  apply Forall2_same_length_lookup. split; [done|].
  intros i x y H1 H2. by simplify_eq.
Qed.

Lemma ads_step_trans a b c : ads_step a b -> ads_step b c -> ads_step a c.
Proof.
  unfold ads_step. intros H1 H2. eapply Forall2_trans; [|exact H1|exact H2].
  intros x y z (E1 & E2 & A1) (E3 & E4 & A2). unfold ad_step.
  rewrite E3, E4, E1, E2. split_and!; auto.
Qed.

Lemma ads_step_alter db db' f i :
  advertisements db' = alter f i (advertisements db) ->
  (forall a, ad_step a (f a)) -> ads_step db db'.
Proof.
  intros E Hf. unfold ads_step. rewrite E.
  apply Forall2_same_length_lookup. split; [by rewrite length_alter|].
  intros j x y H1. rewrite list_lookup_alter. case_decide.
  - subst. rewrite H1. intros [= <-]. apply Hf.
  - rewrite H1. intros [= <-]. done.
Qed.

Lemma ads_step_same db db' :
  advertisements db' = advertisements db -> ads_step db db'.
Proof. intros E. unfold ads_step. rewrite E. apply ads_step_refl. Qed.

Lemma expire_trade_ads ia db x : ads_step db (expire_trade ia db x).
Proof.
  destruct x as [it trade]. unfold expire_trade.
  match goal with
  | |- ads_step db (with_notifications _ (with_p2p_trades _
         (with_advertisements _ ?d))) =>
      apply ads_step_trans with d
  end.
  - apply ads_step_same. unfold find_escrow, unlock_seller.
    repeat case_match; simplify_eq/=; done.
  - eapply ads_step_alter; [reflexivity|]. by intros [].
Qed.

Lemma expire_ad_ads now db x : ads_step db (expire_ad now db x).
Proof.
  destruct x as [ia ad]. unfold expire_ad. case_decide; [|apply ads_step_refl].
  eapply ads_step_trans;
    [|apply (foldl_invariant ads_step);
      [apply ads_step_refl|apply ads_step_trans|intros a x; apply expire_trade_ads]].
  eapply ads_step_alter; [reflexivity|]. by intros [].
Qed.

Lemma expired_ext now a b :
  P2PAdvertisement.created_at a = P2PAdvertisement.created_at b ->
  P2PAdvertisement.payment_time_limit a = P2PAdvertisement.payment_time_limit b ->
  expired now a -> expired now b.
Proof. unfold expired. by intros -> ->. Qed.

(** An expired advertisement is inactive once its iteration is over. *)
Lemma expire_ad_deactivates now db ia ad a' :
  expired now ad ->
  advertisements (expire_ad now db (ia, ad)) !! ia = Some a' ->
  P2PAdvertisement.is_active a' = false.
Proof.
  intros He. unfold expire_ad. rewrite decide_True by done.
  set (db1 := with_advertisements _ db).
  set (l := filter _ _).
  pose proof (foldl_invariant ads_step (expire_trade ia) l ads_step_refl
                ads_step_trans (fun a x => expire_trade_ads ia a x) db1) as S.
  intros Hl. unfold ads_step in S.
  destruct (Forall2_lookup_r _ _ _ _ _ S Hl) as (a1 & H1 & (_ & _ & A)).
  unfold db1 in H1. simpl in H1. rewrite list_lookup_alter_eq in H1.
  destruct (advertisements db !! ia) as [a0|]; [|done]. simplify_eq/=.
  destruct (P2PAdvertisement.is_active a'); [|done]. by specialize (A eq_refl).
Qed.

(** After the loop over [todo], an advertisement is active and expired
    only if one was and is not in [todo]. *)
Lemma expire_ads_complete now todo : forall db,
  (forall i a, advertisements db !! i = Some a ->
     P2PAdvertisement.is_active a = true -> expired now a ->
     exists a0, (i, a0) ∈ todo
       /\ P2PAdvertisement.created_at a0 = P2PAdvertisement.created_at a
       /\ P2PAdvertisement.payment_time_limit a0
          = P2PAdvertisement.payment_time_limit a) ->
  forall i a, advertisements (foldl (expire_ad now) db todo) !! i = Some a ->
    P2PAdvertisement.is_active a = true -> ~ expired now a.
Proof.
  induction todo as [|[i0 a0] rest IH]; intros db H i a Hl Ha He; simpl in Hl.
  - destruct (H i a Hl Ha He) as (? & Hin & _). by apply elem_of_nil in Hin.
  - revert Hl Ha He. apply IH. clear i a. intros i a1 Hl1 Ha1 He1.
    pose proof (expire_ad_ads now db (i0, a0)) as S. unfold ads_step in S.
    destruct (Forall2_lookup_r _ _ _ _ _ S Hl1) as (a & Hl & (Hc & Hp & A)).
    assert (He : expired now a) by (by eapply expired_ext; [..|exact He1]).
    destruct (H i a Hl (A Ha1) He) as (a0' & Hin & Hc0 & Hp0).
    apply elem_of_cons in Hin as [[= -> ->]|Hin].
    + assert (expired now a0) by (by eapply expired_ext; [..|exact He]).
      pose proof (expire_ad_deactivates now db i0 a0 a1 ltac:(done) Hl1). congruence.
    + exists a0'. split_and!; [done|congruence..].
Qed.

Lemma _check_and_expire_ads_complete now db i a :
  advertisements (_check_and_expire_ads now db) !! i = Some a ->
  P2PAdvertisement.is_active a = true -> ~ expired now a.
Proof.
  unfold _check_and_expire_ads. apply expire_ads_complete.
  intros j b Hl Hb _. exists b. split; [|done].
  apply list_elem_of_filter. split; [done|].
  apply elem_of_lookup_imap. by exists j, b.
Qed.

(** With no active advertisement expired, the sweep does nothing. *)
Lemma _check_and_expire_ads_idle now db :
  (forall i a, advertisements db !! i = Some a ->
     P2PAdvertisement.is_active a = true -> ~ expired now a) ->
  _check_and_expire_ads now db = db.
Proof.
  intros H. unfold _check_and_expire_ads.
  set (l := filter _ _).
  assert (Hall : forall x, x ∈ l -> expire_ad now db x = db).
  { intros [i a] Hin. apply list_elem_of_filter in Hin as [Ha Hin]. simpl in Ha.
    apply elem_of_lookup_imap in Hin as (j & b & [= -> ->] & Hl).
    unfold expire_ad. rewrite decide_False; [done|]. by eapply H. }
  clearbody l. induction l as [|x l IH]; simpl; [done|].
  rewrite Hall by (by left). apply IH. intros y Hy. apply Hall. by right.
Qed.

(** C9.  Running the sweep a second time, at the same time [now], gives
    the state the first run gave: from any database. *)
Theorem _check_and_expire_ads_idempotent (now : Z) (db : Db) :
  _check_and_expire_ads now (_check_and_expire_ads now db)
  = _check_and_expire_ads now db.
Proof.
  apply _check_and_expire_ads_idle. intros i a.
  apply _check_and_expire_ads_complete.
Qed.

(** ** Price-time priority *)

Lemma null_lt_eq_total a b : null_lt a b \/ null_eq a b \/ null_lt b a.
Proof.
  destruct a as [x|], b as [y|]; simpl; auto.
  destruct (Q_dec x y) as [[?|?]|?]; auto.
Qed.

Lemma null_eq_sym a b : null_eq a b -> null_eq b a.
Proof. destruct a, b; simpl; auto. intros H. by symmetry. Qed.

Lemma null_eq_trans a b c : null_eq a b -> null_eq b c -> null_eq a c.
Proof. destruct a, b, c; simpl; auto; try tauto. intros H1 H2. by rewrite H1. Qed.

Lemma null_lt_trans a b c : null_lt a b -> null_lt b c -> null_lt a c.
Proof. destruct a, b, c; simpl; auto; try tauto. intros; lra. Qed.

Lemma null_lt_eq_l a b c : null_eq a b -> null_lt b c -> null_lt a c.
Proof. destruct a, b, c; simpl; auto; try tauto. intros; lra. Qed.

Lemma null_lt_eq_r a b c : null_lt a b -> null_eq b c -> null_lt a c.
Proof. destruct a, b, c; simpl; auto; try tauto. intros; lra. Qed.

Lemma null_lt_irrefl a b : null_eq a b -> ~ null_lt a b /\ ~ null_lt b a.
Proof. destruct a, b; simpl; auto; try tauto. intros; lra. Qed.

#[global] Instance row_priority_total t : Total (row_priority t).
Proof.
  intros [i x] [j y]. unfold row_priority. simpl.
  destruct (null_lt_eq_total (OrderBookOrder.price x) (OrderBookOrder.price y))
    as [H|[H|H]];
    destruct t; simpl; unfold by_price_asc_time, by_price_desc_time; auto.
  - destruct (Z.le_ge_cases (OrderBookOrder.created_at x) (OrderBookOrder.created_at y));
      [left|right]; right; auto using null_eq_sym.
  - destruct (Z.le_ge_cases (OrderBookOrder.created_at x) (OrderBookOrder.created_at y));
      [left|right]; right; auto using null_eq_sym.
Qed.

#[global] Instance row_priority_trans t : Transitive (row_priority t).
Proof.
  intros [i x] [j y] [k z]. unfold row_priority. simpl.
  destruct t; simpl; unfold by_price_asc_time, by_price_desc_time;
    intros [H1|[E1 T1]] [H2|[E2 T2]];
    eauto using null_lt_trans, null_lt_eq_l, null_lt_eq_r, null_eq_sym.
  - right. split; [by eapply null_eq_trans|lia].
  - right. split; [by eapply null_eq_trans|lia].
Qed.

Lemma StronglySorted_lookup {A} (R : relation A) (l : list A) :
  StronglySorted R l ->
  forall k1 k2 x y, (k1 < k2)%nat -> l !! k1 = Some x -> l !! k2 = Some y -> R x y.
Proof.
  induction 1 as [|a l S IH F]; intros k1 k2 x y Hk H1 H2; [done|].
  destruct k2 as [|k2]; [lia|]. destruct k1 as [|k1]; simpl in *.
  - simplify_eq. rewrite Forall_forall in F. apply F.
    by eapply list_elem_of_lookup_2.
  - eapply IH; [|done..]. lia.
Qed.

Lemma matching_orders_sorted db order :
  StronglySorted (row_priority (OrderBookOrder.order_type order))
    (matching_orders db order).
Proof. unfold matching_orders. apply StronglySorted_merge_sort; apply _. Qed.

Lemma matching_orders_NoDup db order : NoDup (matching_orders db order).*1.
Proof.
  apply NoDup_fmap_fst.
  - intros i c1 c2 [H1 _]%elem_of_matching_orders [H2 _]%elem_of_matching_orders.
    congruence.
  - unfold matching_orders. rewrite merge_sort_Permutation.
    apply NoDup_filter. apply (NoDup_fmap_1 fst).
    rewrite fmap_imap.
    rewrite (imap_ext _ (fun j _ => j)) by done.
    rewrite (imap_seq_0 _ id). rewrite list_fmap_id. apply NoDup_seq.
Qed.

Lemma find_order_lookup db order_id ia order :
  find_order db order_id = Some (ia, order) ->
  orders db !! ia = Some order /\ OrderBookOrder.id order = order_id.
Proof. intros H. by apply list_find_lookup in H. Qed.

Lemma opposite_ne t : opposite t <> t.
Proof. by destruct t. Qed.

Lemma aggressor_not_candidate db order_id ia order :
  find_order db order_id = Some (ia, order) ->
  ia ∉ (matching_orders db order).*1.
Proof.
  intros [Ha _]%find_order_lookup Hin.
  apply list_elem_of_fmap in Hin as ([i c] & -> & Hin). simpl in *.
  apply elem_of_matching_orders in Hin as [Hl (_ & Ht & _)].
  rewrite Ha in Hl. simplify_eq. symmetry in Ht. by apply opposite_ne in Ht.
Qed.

Lemma fill_plan_sub R cands : forall i c q,
  (i, c, q) ∈ fill_plan R cands -> (i, c) ∈ cands.
Proof.
  revert R. induction cands as [|[j d] rest IH]; intros R i c q; simpl.
  - by intros ?%elem_of_nil.
  - case_decide; [by intros ?%elem_of_nil|].
    intros [[= -> -> ->]|Hin]%elem_of_cons; [by left|]. right. by eapply IH.
Qed.

Lemma plan_trades_fill q order plan :
  plan_trades (fill q order) plan = plan_trades order plan.
Proof.
  unfold plan_trades. apply list_fmap_ext. intros k x _. apply trade_of_fill.
Qed.

(** The loop carries out the plan. *)
Lemma match_loop_plan ia base quote cands : forall order db,
  split_instrument (OrderBookOrder.instrument order) = Ok (base, quote) ->
  orders db !! ia = Some order ->
  (forall i c, (i, c) ∈ cands -> orders db !! i = Some c /\ resting_well_formed c) ->
  NoDup cands.*1 ->
  ia ∉ cands.*1 ->
  let plan := fill_plan (OrderBookOrder.remaining_quantity order) cands in
  exists db',
    match_loop ia order cands db = (db', None)
    /\ trades db' = trades db ++ plan_trades order plan
    /\ (forall i c q, (i, c, q) ∈ plan -> orders db' !! i = Some (fill q c))
    /\ (forall j, j <> ia -> j ∉ plan.*1.*1 -> orders db' !! j = orders db !! j)
    /\ orders db' !! ia = Some (aggressor_after order plan).
Proof.
  induction cands as [|[ic m] rest IH]; intros order db Hs Ha Hc Hnd Hia plan.
  - exists db. simpl. rewrite app_nil_r. split_and!; try done.
    by intros ??? ?%elem_of_nil.
  - unfold plan. simpl. destruct (decide _) as [Hle|Hgt].
    { exists db. simpl. rewrite app_nil_r. split_and!; try done.
      by intros ??? ?%elem_of_nil. }
    destruct (Hc ic m ltac:(by left)) as (Hm & (p & Hp & Hpos) & Hrem).
    assert (Hrem_o : 0 < OrderBookOrder.remaining_quantity order) by lra.
    destruct (match_step_total ia order ic m db p base quote Hp Hs Hrem_o Hrem Hpos)
      as [db1 S].
    rewrite S.
    set (q := Qmin (OrderBookOrder.remaining_quantity order)
                   (OrderBookOrder.remaining_quantity m)) in *.
    apply match_step_Ok in S as (p' & b' & q' & Hp' & _ & _ & O1 & T1 & _).
    fold q in O1, T1. rewrite Hp in Hp'. injection Hp' as <-.
    apply NoDup_cons in Hnd as [Hic Hnd]. simpl in Hia, Hic.
    apply not_elem_of_cons in Hia as [Hne Hia].
    assert (Lia : (ia < length (orders db))%nat) by (by eapply lookup_lt_Some).
    assert (Lic : (ic < length (orders db))%nat) by (by eapply lookup_lt_Some).
    destruct (fill_static q order) as (_ & _ & Hinst & _ & _ & _ & _ & _ & Hr).
    destruct (IH (fill q order) db1) as (db' & L & T & A & B & C); try done.
    { by rewrite Hinst. }
    { rewrite O1. rewrite list_lookup_insert_ne by done.
      by apply list_lookup_insert_eq. }
    { intros i c Hin. destruct (Hc i c ltac:(by right)) as [Hl Hw].
      split; [|done]. rewrite O1.
      assert (i <> ic) by (intros ->; apply Hic, list_elem_of_fmap; by exists (ic, c)).
      assert (i <> ia) by (intros ->; apply Hia, list_elem_of_fmap; by exists (ia, c)).
      by rewrite !list_lookup_insert_ne. }
    rewrite Hr in *.
    exists db'. split_and!.
    + done.
    + rewrite T, T1, plan_trades_fill, <- app_assoc. simpl.
      unfold plan_trades at 2. simpl. by rewrite Hp.
    + intros i c q0 [[= -> -> ->]|Hin]%elem_of_cons; [|by apply A].
      rewrite B; [|done|].
      * rewrite O1. apply list_lookup_insert_eq. by rewrite length_insert.
      * intros Hin. apply Hic.
        apply list_elem_of_fmap in Hin as (x & Ex & Hin).
        apply list_elem_of_fmap in Hin as ([[j c] q0] & -> & Hin).
        simpl in Ex. subst. apply fill_plan_sub in Hin.
        apply list_elem_of_fmap. by exists (j, c).
    + intros j Hj Hnin. simpl in Hnin. apply not_elem_of_cons in Hnin as [Hjc Hnin].
      rewrite B by done. rewrite O1. by rewrite !list_lookup_insert_ne.
    + done.
Qed.

Lemma fill_plan_lookup R cands : forall k i c q,
  fill_plan R cands !! k = Some (i, c, q) -> cands !! k = Some (i, c).
Proof.
  revert R. induction cands as [|[j d] rest IH]; intros R k i c q; simpl; [done|].
  case_decide; [done|]. destruct k as [|k]; simpl.
  - by intros [= -> -> _].
  - apply IH.
Qed.

Lemma aggressor_after_remaining cands : forall order,
  let plan := fill_plan (OrderBookOrder.remaining_quantity order) cands in
  length plan = length cands
  \/ OrderBookOrder.remaining_quantity (aggressor_after order plan) <= 0.
Proof.
  induction cands as [|[j d] rest IH]; intros order; simpl; [by left|].
  case_decide; [by right|]. simpl.
  set (q := Qmin _ _).
  destruct (fill_static q order) as (_ & _ & _ & _ & _ & _ & _ & _ & Hr).
  specialize (IH (fill q order)). simpl in IH. rewrite Hr in IH.
  destruct IH as [IH|IH]; [left; by rewrite IH|by right].
Qed.

(** Each fill is the minimum of what then remains of the aggressor and of
    what remains of the candidate. *)
Lemma fill_plan_min cands : forall order k i c q,
  let plan := fill_plan (OrderBookOrder.remaining_quantity order) cands in
  plan !! k = Some (i, c, q) ->
  q = Qmin (OrderBookOrder.remaining_quantity (aggressor_after order (take k plan)))
           (OrderBookOrder.remaining_quantity c).
Proof.
  induction cands as [|[j d] rest IH]; intros order k i c q; simpl; [done|].
  case_decide; [done|]. destruct k as [|k]; simpl.
  - by intros [= _ -> <-].
  - set (q0 := Qmin _ _).
    destruct (fill_static q0 order) as (_ & _ & _ & _ & _ & _ & _ & _ & Hr).
    intros Hl. specialize (IH (fill q0 order) k i c q). simpl in IH.
    rewrite Hr in IH. by apply IH.
Qed.

(** A candidate is reached only after those before it are filled in
    full. *)
Lemma fill_plan_earlier_full cands : forall R k1 k2 x,
  (k1 < k2)%nat ->
  fill_plan R cands !! k2 = Some x ->
  exists i c q, fill_plan R cands !! k1 = Some (i, c, q)
                /\ q == OrderBookOrder.remaining_quantity c.
Proof.
  induction cands as [|[j d] rest IH]; intros R k1 k2 x Hk; simpl; [done|].
  case_decide as Hle; [done|].
  destruct k2 as [|k2]; [lia|]. simpl. intros H2.
  destruct k1 as [|k1]; simpl.
  - eexists _, _, _. split; [done|].
    destruct rest as [|[j' d'] rest']; [done|]. simpl in H2.
    case_decide as Hle'; [done|].
    clear H2 IH.
    destruct (Q.min_spec R (OrderBookOrder.remaining_quantity d)) as [[? E]|[? E]];
      revert Hle' E; generalize (Qmin R (OrderBookOrder.remaining_quantity d));
      intros mn Hle' E; lra.
  - eapply IH; [|exact H2]. lia.
Qed.

Lemma fill_filled q c :
  q == OrderBookOrder.remaining_quantity c ->
  OrderBookOrder.remaining_quantity (fill q c) == 0
  /\ OrderBookOrder.status (fill q c) = FILLED.
Proof.
  intros E. unfold fill, update_status. simpl.
  rewrite decide_True by lra. simpl. split; [lra|done].
Qed.

(** C1, amended.  For an aggressor [order] with a positive remaining
    quantity and a well-formed instrument, in a book whose order ids are
    distinct:

    - the pass considers exactly the rows of the opposite side, on the same
      instrument, PENDING or PARTIALLY_FILLED, that pass the price filter;
      the filter is there whenever the aggressor carries a non-zero price,
      whatever its kind (resting price [<=] the aggressor's for a BUY, [>=]
      for a SELL), and is absent only when it carries none;
    - it holds them ordered by price (ascending for a BUY aggressor,
      descending for a SELL) and, at equal price, by creation time
      ascending;
    - when each of them carries a positive price and a positive remaining
      quantity, the pass completes and carries out [fill_plan]: one trade
      for each candidate visited, in order, of the minimum of what then
      remains of the aggressor and what remains of the candidate, until
      nothing remains of the aggressor or the candidates run out; the
      candidates not visited are untouched;
    - so, of two candidates at the same price, the later-created one is
      touched only if the earlier-created one is filled in full. *)
Theorem price_time_priority
    (db : Db) (order_id : Z) (ia : nat) (order : Order) (base quote : string) :
  find_order db order_id = Some (ia, order) ->
  0 < OrderBookOrder.remaining_quantity order ->
  split_instrument (OrderBookOrder.instrument order) = Ok (base, quote) ->
  NoDup (OrderBookOrder.id <$> orders db) ->
  (forall i c, (i, c) ∈ matching_orders db order -> resting_well_formed c) ->
  let cands := matching_orders db order in
  let plan := fill_plan (OrderBookOrder.remaining_quantity order) cands in
  (forall i c,
     (i, c) ∈ cands <->
     orders db !! i = Some c
     /\ OrderBookOrder.instrument c = OrderBookOrder.instrument order
     /\ OrderBookOrder.order_type c = opposite (OrderBookOrder.order_type order)
     /\ open_status (OrderBookOrder.status c)
     /\ price_filter order c)
  /\ (forall k1 k2 x y,
        (k1 < k2)%nat -> cands !! k1 = Some x -> cands !! k2 = Some y ->
        priority (OrderBookOrder.order_type order) x.2 y.2)
  /\ exists db',
       match_order order_id db = (db', None)
       /\ trades db' = trades db ++ plan_trades order plan
       /\ (forall k i c q,
             plan !! k = Some (i, c, q) ->
             cands !! k = Some (i, c)
             /\ q = Qmin (OrderBookOrder.remaining_quantity
                            (aggressor_after order (take k plan)))
                         (OrderBookOrder.remaining_quantity c)
             /\ orders db' !! i = Some (fill q c))
       /\ (length plan = length cands
           \/ OrderBookOrder.remaining_quantity (aggressor_after order plan) <= 0)
       /\ (forall i c, (i, c) ∈ cands -> i ∉ plan.*1.*1 -> orders db' !! i = Some c)
       /\ orders db' !! ia = Some (aggressor_after order plan)
       /\ (forall iA A iB B,
             (iA, A) ∈ cands -> (iB, B) ∈ cands ->
             null_eq (OrderBookOrder.price A) (OrderBookOrder.price B) ->
             (OrderBookOrder.created_at A < OrderBookOrder.created_at B)%Z ->
             orders db' !! iB <> Some B ->
             exists A', orders db' !! iA = Some A'
                        /\ OrderBookOrder.remaining_quantity A' == 0
                        /\ OrderBookOrder.status A' = FILLED).
Proof.
  intros F Hrem Hs Hids Hwf cands plan.
  pose proof (find_order_lookup _ _ _ _ F) as [Ha _].
  split_and!.
  - intros i c. unfold cands. rewrite elem_of_matching_orders.
    unfold is_candidate. split; [tauto|].
    intros (Hl & Hi & Ht & Ho & Hp). split_and!; try done.
    intros Hid.
    assert (i = ia).
    { eapply (NoDup_lookup _ _ _ (OrderBookOrder.id c) Hids);
        rewrite list_lookup_fmap; [by rewrite Hl|by rewrite Ha, Hid]. }
    subst. rewrite Ha in Hl. simplify_eq. symmetry in Ht. by apply opposite_ne in Ht.
  - intros k1 k2 x y Hk H1 H2.
    by apply (StronglySorted_lookup _ _ (matching_orders_sorted db order) k1 k2 x y).
  - destruct (match_loop_plan ia base quote cands order db)
      as (db' & L & T & A & B & C); try done.
    { intros i c Hin. split; [|by eapply Hwf].
      by apply elem_of_matching_orders in Hin as [? _]. }
    { apply matching_orders_NoDup. }
    { by eapply aggressor_not_candidate. }
    fold plan in T, A, B, C.
    assert (Hfun : forall i c1 c2, (i, c1) ∈ cands -> (i, c2) ∈ cands -> c1 = c2).
    { intros i c1 c2 [H1 _]%elem_of_matching_orders [H2 _]%elem_of_matching_orders.
      congruence. }
    assert (Hnia : forall i c, (i, c) ∈ cands -> i <> ia).
    { intros i c Hin ->. eapply aggressor_not_candidate; [exact F|].
      apply list_elem_of_fmap. by exists (ia, c). }
    exists db'. split_and!.
    + unfold match_order. rewrite F. rewrite decide_False by lra. exact L.
    + exact T.
    + intros k i c q Hk. split_and!.
      * by eapply fill_plan_lookup.
      * by apply (fill_plan_min cands order k i c q).
      * apply A. by apply (list_elem_of_lookup_2 _ k).
    + apply aggressor_after_remaining.
    + intros i c Hin Hnin. rewrite B; [|by eapply Hnia|done].
      by apply elem_of_matching_orders in Hin as [? _].
    + exact C.
    + intros iA A0 iB B0 HA HB Heq Hlt Htouched.
      destruct (proj1 (list_elem_of_lookup _ _) HA) as [kA HkA].
      destruct (proj1 (list_elem_of_lookup _ _) HB) as [kB HkB].
      (* B was visited *)
      destruct (decide (iB ∈ plan.*1.*1)) as [Hin|Hnin].
      2:{ destruct Htouched. rewrite B; [|by eapply Hnia|done].
          by apply elem_of_matching_orders in HB as [? _]. }
      apply list_elem_of_fmap in Hin as (x & Ex & Hin).
      apply list_elem_of_fmap in Hin as ([[j c] q] & -> & Hin).
      simpl in Ex. subst j.
      assert (c = B0) as -> by (eapply Hfun; [by eapply fill_plan_sub|done]).
      destruct (proj1 (list_elem_of_lookup _ _) Hin) as [k Hk].
      pose proof (fill_plan_lookup _ _ _ _ _ _ Hk) as Hk'.
      assert (k = kB).
      { eapply NoDup_lookup; [|exact Hk'|exact HkB].
        eapply NoDup_fmap_1, matching_orders_NoDup. }
      subst k.
      (* A comes before B *)
      assert (kA < kB)%nat as Hord.
      { destruct (lt_eq_lt_dec kA kB) as [[?|?]|Hgt]; [done|exfalso..].
        - subst. rewrite HkA in HkB. simplify_eq. lia.
        - pose proof (StronglySorted_lookup _ _ (matching_orders_sorted db order)
                        kB kA _ _ Hgt HkB HkA) as P.
          unfold row_priority in P. simpl in P.
          destruct (null_lt_irrefl _ _ Heq) as [N1 N2].
          destruct (OrderBookOrder.order_type order); simpl in P;
            destruct P as [P|[_ P]]; try done; lia. }
      destruct (fill_plan_earlier_full cands _ kA kB _ Hord Hk)
        as (i & c & q' & HpA & Hq').
      pose proof (fill_plan_lookup _ _ _ _ _ _ HpA) as HcA.
      fold cands in HcA. rewrite HkA in HcA. simplify_eq.
      exists (fill q' c). split; [|by apply fill_filled].
      apply A. by apply (list_elem_of_lookup_2 _ kA).
Qed.

(** C1, as stated, fails on a MARKET aggressor that carries a price.
    Alice submits a BUY of kind MARKET with price 40000 against two resting
    SELL orders at 50000: the order is stored with kind MARKET, the price
    filter applies all the same, no resting order is considered and nothing
    is filled. *)
Lemma market_aggressor_with_price_is_filtered :
  exists db' oid o,
    create_order (mkOrderCreate "BTC/USD" "BUY" "MARKET" (Some 40000) 1) 1 2
      Examples.two_sells = Ok (db', oid)
    /\ find_order db' oid = Some (2%nat, o)
    /\ OrderBookOrder.order_subtype o = MARKET
    /\ orders db' = [Examples.sell_A; Examples.sell_B; o]
    /\ OrderBookOrder.instrument Examples.sell_A = OrderBookOrder.instrument o
    /\ OrderBookOrder.order_type Examples.sell_A = opposite (OrderBookOrder.order_type o)
    /\ OrderBookOrder.status Examples.sell_A = PENDING
    /\ matching_orders db' o = []
    /\ trades db' = []
    /\ OrderBookOrder.remaining_quantity o = 1.
Proof.
  destruct (create_order _ 1 2 Examples.two_sells) as [[db' oid]|e] eqn:E;
    [|by vm_compute in E].
  vm_compute in E. simplify_eq. eexists _, _, _. split; [done|].
  split; [by vm_compute|]. split_and!; done.
Qed.

Lemma price_time_priority_witness :
  let buy_C := OrderBookOrder.mk 3 1 "BTC/USD" BUY LIMIT (Some 50000) (3 # 2) (3 # 2)
                 PENDING 2 in
  let db := with_orders (add buy_C) Examples.two_sells in
  exists db' A' B',
    match_order 3 db = (db', None)
    /\ length (trades db') = 2%nat
    /\ orders db' !! 0%nat = Some A'
    /\ OrderBookOrder.remaining_quantity A' == 0
    /\ OrderBookOrder.status A' = FILLED
    /\ orders db' !! 1%nat = Some B'
    /\ OrderBookOrder.remaining_quantity B' == 1 # 2
    /\ OrderBookOrder.status B' = PARTIALLY_FILLED.
Proof.
  intros buy_C db.
  assert (M : matching_orders db buy_C = [(0%nat, Examples.sell_A); (1%nat, Examples.sell_B)])
    by (vm_compute; reflexivity).
  destruct (price_time_priority db 3 2 buy_C "BTC" "USD")
    as (_ & _ & db' & E & _ & _ & _ & _ & _ & Tie).
  - vm_compute. reflexivity.
  - vm_compute. reflexivity.
  - vm_compute. reflexivity.
  - apply (bool_decide_unpack _). vm_compute. exact I.
  - intros i c. rewrite M.
    intros [[= -> ->]|[[= -> ->]|?%elem_of_nil]%elem_of_cons]%elem_of_cons; [..|done];
      (split; [exists 50000; split; vm_compute; reflexivity|vm_compute; reflexivity]).
  - destruct (Tie 0%nat Examples.sell_A 1%nat Examples.sell_B) as (A' & HA & HrA & HsA).
    + rewrite M. by left.
    + rewrite M. right. by left.
    + vm_compute. reflexivity.
    + vm_compute. reflexivity.
    + vm_compute in E. injection E as <-. vm_compute. discriminate.
    + vm_compute in E. injection E as <-.
      eexists _, A', _. split; [vm_compute; reflexivity|]. split; [reflexivity|].
      split; [exact HA|]. split; [exact HrA|]. split; [exact HsA|].
      split; [reflexivity|]. split; [vm_compute; reflexivity|reflexivity].
Defined.

(** ** Scenarios *)

(** A limit BUY at 51000 meets a resting SELL at 50000: the trade is
    recorded at 50000. *)
Example trade_at_resting_price :
  exists db' oid t,
    create_order (mkOrderCreate "BTC/USD" "BUY" "LIMIT" (Some 51000) 1) 1 2
      Examples.two_sells = Ok (db', oid)
    /\ trades db' = [t]
    /\ Trade.price t = 50000
    /\ Trade.buyer_id t = 1%Z /\ Trade.seller_id t = 2%Z.
Proof.
  destruct (create_order _ 1 2 Examples.two_sells) as [[db' oid]|e] eqn:E;
    [|by vm_compute in E].
  vm_compute in E. simplify_eq. by eexists _, _, _.
Qed.

(** A resting order without a price stops the pass of a priceless
    aggressor: Bob's market SELL rests unfilled on an empty book; Alice's
    market BUY then finds it first, [trade_quantity * trade_price] raises
    [TypeError], and nothing is filled. *)
Example unpriced_resting_order_stops_pass :
  exists db1 oid1 db2 oid2,
    create_order (mkOrderCreate "BTC/USD" "SELL" "MARKET" None 1) 2 0
      Examples.empty_book = Ok (db1, oid1)
    /\ create_order (mkOrderCreate "BTC/USD" "BUY" "MARKET" None 1) 1 1 db1
       = Ok (db2, oid2)
    /\ (match_order oid2 db2).2 = Some TypeError
    /\ trades db2 = []
    /\ OrderBookOrder.status <$> orders db2 = [PENDING; PENDING].
Proof.
  eexists _, _, _, _.
  split; [vm_compute; reflexivity|].
  split; [vm_compute; reflexivity|].
  split; [vm_compute; reflexivity|].
  split; vm_compute; reflexivity.
Qed.

(** An expired advertisement with a pending trade: the first sweep refunds
    the escrow and returns the seller's bitcoin, the second changes
    nothing. *)
Example sweep_refunds_once :
  let db :=
    with_advertisements (fun _ => [P2PAdvertisement.set_is_active true Examples.p2p_ad])
      (Examples.p2p_db P2P_PENDING []) in
  let db1 := _check_and_expire_ads 5000 db in
  Escrow.status <$> escrows db1 = ["REFUNDED"]
  /\ P2PTrade.status <$> p2p_trades db1 = [P2P_CANCELLED]
  /\ (exists w, wallet_of db1 2 "BTC" = Some w
                /\ Wallet.available_balance w == 2 /\ Wallet.locked_balance w == 0)
  /\ _check_and_expire_ads 5000 db1 = db1.
Proof.
  intros db db1. split_and!.
  - by vm_compute.
  - by vm_compute.
  - eexists. split; [by vm_compute|]. by vm_compute.
  - by vm_compute.
Qed.
(** * More properties *)

(** ** Keys of new rows *)

Lemma next_id_fresh {A} (key : A -> Z) (t : list A) x :
  x ∈ t -> (key x < next_id key t)%Z.
Proof.
  unfold next_id. induction t as [|y t IH]; intros Hx; [by apply elem_of_nil in Hx|].
  rewrite fmap_cons. cbn [foldr].
  apply elem_of_cons in Hx as [->|Hx]; [lia|].
  specialize (IH Hx). lia.
Qed.

(** A query by key for the key of a row just added selects that row. *)
Lemma list_find_new {A} (key : A -> Z) (P : A -> Prop) `{!forall x, Decision (P x)}
    (t : list A) (x : A) :
  (forall y, P y -> key y = key x) -> P x -> key x = next_id key t ->
  list_find P (add x t) = Some (length t, x).
Proof.
  intros HP Px Hk. unfold add. apply list_find_Some. split_and!.
  - by rewrite lookup_app_r, Nat.sub_diag by lia.
  - done.
  - intros j y Hj Hlt Py. rewrite lookup_app_l in Hj by done.
    apply list_elem_of_lookup_2 in Hj. apply (next_id_fresh key) in Hj.
    specialize (HP y Py). lia.
Qed.

(** ** The order table under requests *)

Lemma fill_stays_open q o :
  open_status (OrderBookOrder.status o) ->
  ~ OrderBookOrder.remaining_quantity (fill q o) == 0 ->
  open_status (OrderBookOrder.status (fill q o)).
Proof.
  unfold fill, update_status, open_status. intros Ho Hr.
  repeat case_decide; simpl in *; tauto.
Qed.

Lemma match_loop_done ia order cands db :
  OrderBookOrder.remaining_quantity order <= 0 ->
  match_loop ia order cands db = (db, None).
Proof.
  intros H. destruct cands as [|[ic m] rest]; simpl; [done|].
  by rewrite decide_True.
Qed.

(** The writes of the matching loop to the order table. *)
Lemma match_loop_book ia cands : forall order db,
  NoDup cands.*1 -> ia ∉ cands.*1 ->
  (forall i c, (i, c) ∈ cands ->
     orders db !! i = Some c /\ open_status (OrderBookOrder.status c)) ->
  orders db !! ia = Some order ->
  open_status (OrderBookOrder.status order) ->
  rtc book_step (orders db) (orders (match_loop ia order cands db).1).
Proof.
  induction cands as [|[ic m] rest IH]; intros order db Hnd Hia Hc Ha Ho; simpl;
    [done|].
  destruct (decide _) as [|Hpos]; [done|].
  destruct (match_step ia order ic m db) as [[db1 order1]|ex] eqn:S; [|done].
  apply match_step_Ok in S as (p & base & quote & Hp & Hs & -> & O1 & _).
  set (q := Qmin _ _) in *.
  apply NoDup_cons in Hnd as [Hic Hnd]. simpl in Hia, Hic.
  apply not_elem_of_cons in Hia as [Hne Hia].
  destruct (Hc ic m) as [Hm Hmo]; [by left|].
  assert (Hlt : (ia < length (orders db))%nat) by (by eapply lookup_lt_Some).
  eapply rtc_l.
  { apply (book_fill _ ia order ic m); try done. lra. }
  fold q. rewrite <- O1.
  destruct (decide (OrderBookOrder.remaining_quantity (fill q order) <= 0)) as [Hz|Hz].
  { rewrite match_loop_done by done. done. }
  apply IH; try done.
  - intros i c Hin. destruct (Hc i c) as [Hl Hco]; [by right|]. split; [|done].
    rewrite O1.
    assert (i <> ic).
    { intros ->. apply Hic. apply list_elem_of_fmap. by exists (ic, c). }
    assert (i <> ia).
    { intros ->. apply Hia. apply list_elem_of_fmap. by exists (ia, c). }
    by rewrite !list_lookup_insert_ne by done.
  - rewrite O1. rewrite list_lookup_insert_ne by done.
    by rewrite list_lookup_insert_eq by done.
  - apply fill_stays_open; [done|]. intros E. apply Hz. rewrite E. lra.
Qed.

Lemma match_order_book order_id db :
  (forall ia order, find_order db order_id = Some (ia, order) ->
     open_status (OrderBookOrder.status order)) ->
  rtc book_step (orders db) (orders (match_order order_id db).1).
Proof.
  intros Ho. unfold match_order.
  destruct (find_order db order_id) as [[ia order]|] eqn:F; [|done].
  destruct (decide _); [done|].
  apply match_loop_book.
  - apply matching_orders_NoDup.
  - by eapply aggressor_not_candidate.
  - intros i c [Hl Hc]%elem_of_matching_orders. split; [done|]. apply Hc.
  - by apply find_order_lookup in F as [? _].
  - by eapply Ho.
Qed.

Lemma create_order_quantity order_data current_user now db r :
  create_order order_data current_user now db = Ok r ->
  0 < oc_quantity order_data.
Proof.
  unfold create_order. intros H.
  repeat (destruct (decide _) as [?|?] in H; [done|]). lra.
Qed.

(** The aggressor of the matching pass of [create_order] is the new order. *)
Lemma find_order_new db db1 new_order :
  orders db1 = orders db ++ [new_order] ->
  OrderBookOrder.id new_order = next_id OrderBookOrder.id (orders db) ->
  find_order db1 (OrderBookOrder.id new_order)
  = Some (length (orders db), new_order).
Proof.
  intros E Hid. unfold find_order. rewrite E.
  apply (list_find_new OrderBookOrder.id); [|done|done].
  intros y Hy. done.
Qed.

Lemma create_order_id order_data current_user now db db' oid :
  create_order order_data current_user now db = Ok (db', oid) ->
  oid = next_id OrderBookOrder.id (orders db).
Proof.
  unfold create_order. intros H.
  repeat (destruct (decide _) as [?|?] in H; [done|]).
  destruct (split_instrument _) as [[base quote]|]; [|done].
  apply bind_Ok in H as (db1 & Hlock & H).
  apply bind_Ok in H as (ot & Hot & H).
  apply bind_Ok in H as (ost & Host & H).
  injection H as <- <-. simpl.
  assert (orders db1 = orders db) as ->; [|done].
  destruct (decide _) in Hlock;
    destruct (find_wallet db current_user _) as [[i w]|]; try done;
    destruct (decide _) in Hlock; try done; by injection Hlock as <-.
Qed.

Lemma create_order_book order_data current_user now db db' oid :
  create_order order_data current_user now db = Ok (db', oid) ->
  rtc book_step (orders db) (orders db').
Proof.
  intros H. pose proof (create_order_quantity _ _ _ _ _ H) as Hq.
  pose proof (create_order_id _ _ _ _ _ _ H) as Hid.
  apply create_order_Ok in H
    as (db1 & -> & _ & _ & _ & new & O1 & Hi & _ & _ & _ & Hqty & Hrem & Hst & _).
  eapply rtc_l.
  { apply (book_submit _ new); [done|congruence|by rewrite Hqty]. }
  rewrite <- O1. apply match_order_book. intros ia order F.
  rewrite <- Hi in F. rewrite (find_order_new db db1 new) in F by congruence.
  injection F as <- <-. rewrite Hst. by left.
Qed.

Lemma cancel_order_book order_id current_user db db' :
  cancel_order order_id current_user db = Ok db' ->
  book_step (orders db) (orders db').
Proof.
  unfold cancel_order. intros H.
  destruct (list_find _ (orders db)) as [[io order]|] eqn:F; [|done].
  destruct (decide _) as [Ho|]; [|done].
  destruct (split_instrument _) as [[base quote]|]; [|done]. simpl in H.
  apply bind_Ok in H as (db1 & H1 & [= <-]). simpl.
  apply list_find_lookup in F as [Hl _].
  assert (orders db1 = orders db) as ->.
  { destruct (OrderBookOrder.order_type order);
      [destruct (OrderBookOrder.price order); [|done]|];
      injection H1 as <-;
      match goal with
      | |- context [find_wallet db ?u ?c] => destruct (find_wallet db u c) as [[]|]
      end; done. }
  by eapply book_cancel.
Qed.

(** ** Tables a handler does not write to *)

Local Ltac straight_line H :=
  repeat case_match; simplify_eq/=; done.

Lemma initiate_trade_frame trade_data current_user db db' t :
  initiate_trade trade_data current_user db = Ok (db', t) ->
  orders db' = orders db /\ trades db' = trades db
  /\ transactions db' = transactions db /\ disputes db' = disputes db
  /\ notifications db' = notifications db.
Proof. unfold initiate_trade. intros H. straight_line H. Qed.

Lemma mark_payment_sent_frame trade_id current_user db db' :
  mark_payment_sent trade_id current_user db = Ok db' ->
  wallets db' = wallets db /\ transactions db' = transactions db
  /\ orders db' = orders db /\ trades db' = trades db
  /\ advertisements db' = advertisements db /\ escrows db' = escrows db
  /\ disputes db' = disputes db /\ notifications db' = notifications db.
Proof. unfold mark_payment_sent. intros H. straight_line H. Qed.

Lemma confirm_payment_tables trade_id current_user now db db' :
  confirm_payment trade_id current_user now db = Ok db' ->
  orders db' = orders db /\ trades db' = trades db
  /\ advertisements db' = advertisements db /\ disputes db' = disputes db
  /\ notifications db' = notifications db.
Proof. unfold confirm_payment, find_escrow. intros H. straight_line H. Qed.

Lemma cancel_trade_tables trade_id current_user db db' :
  cancel_trade trade_id current_user db = Ok db' ->
  orders db' = orders db /\ trades db' = trades db
  /\ transactions db' = transactions db /\ disputes db' = disputes db
  /\ notifications db' = notifications db.
Proof. unfold cancel_trade, find_escrow, unlock_seller. intros H. straight_line H. Qed.

Lemma delete_advertisement_frame ad_id current_user db db' :
  delete_advertisement ad_id current_user db = Ok db' ->
  wallets db' = wallets db /\ transactions db' = transactions db
  /\ orders db' = orders db /\ trades db' = trades db
  /\ p2p_trades db' = p2p_trades db /\ escrows db' = escrows db
  /\ disputes db' = disputes db /\ notifications db' = notifications db.
Proof. unfold delete_advertisement. intros H. straight_line H. Qed.

Lemma create_dispute_frame dispute_data current_user db db' d :
  create_dispute dispute_data current_user db = Done (db', d) ->
  wallets db' = wallets db /\ transactions db' = transactions db
  /\ orders db' = orders db /\ trades db' = trades db
  /\ advertisements db' = advertisements db /\ escrows db' = escrows db
  /\ notifications db' = notifications db.
Proof. unfold create_dispute. intros H. straight_line H. Qed.

Lemma cancel_dispute_frame dispute_id current_user is_admin db db' :
  cancel_dispute dispute_id current_user is_admin db = Done db' ->
  wallets db' = wallets db /\ transactions db' = transactions db
  /\ orders db' = orders db /\ trades db' = trades db
  /\ advertisements db' = advertisements db /\ escrows db' = escrows db
  /\ p2p_trades db' = p2p_trades db /\ notifications db' = notifications db.
Proof. unfold cancel_dispute. intros H. straight_line H. Qed.

Lemma resolve_dispute_notifications dispute_id rd admin now db db' :
  resolve_dispute dispute_id rd admin now db = Ok db' ->
  notifications db' = notifications db.
Proof. unfold resolve_dispute, find_escrow. intros H. straight_line H. Qed.

Lemma expire_trade_frame ia db x :
  orders (expire_trade ia db x) = orders db
  /\ trades (expire_trade ia db x) = trades db.
Proof.
  destruct x as [it trade]. unfold expire_trade, find_escrow, unlock_seller.
  repeat case_match; simplify_eq/=; done.
Qed.

Lemma expire_ad_frame now db x :
  orders (expire_ad now db x) = orders db /\ trades (expire_ad now db x) = trades db.
Proof.
  destruct x as [ia ad]. unfold expire_ad. case_decide; [|done].
  rewrite (foldl_preserves _ orders), (foldl_preserves _ trades); [done|..];
    intros; apply expire_trade_frame.
Qed.

Lemma _check_and_expire_ads_frame now db :
  orders (_check_and_expire_ads now db) = orders db
  /\ trades (_check_and_expire_ads now db) = trades db.
Proof.
  unfold _check_and_expire_ads.
  rewrite (foldl_preserves _ orders), (foldl_preserves _ trades); [done|..];
    intros; apply expire_ad_frame.
Qed.

(** Every request writes to the order table as [book_step] says. *)
Lemma handle_book r db : rtc book_step (orders db) (orders (handle r db)).
Proof.
  destruct r; simpl.
  - destruct (create_order _ _ _ db) as [[db' oid]|] eqn:E; simpl; [|done].
    by eapply create_order_book.
  - destruct (cancel_order _ _ db) as [db'|] eqn:E; simpl; [|done].
    apply rtc_once. by eapply cancel_order_book.
  - destruct (initiate_trade _ _ db) as [[db' t]|] eqn:E; simpl; [|done].
    apply initiate_trade_frame in E as (-> & _). done.
  - destruct (mark_payment_sent _ _ db) as [db'|] eqn:E; simpl; [|done].
    apply mark_payment_sent_frame in E as (_ & _ & -> & _). done.
  - destruct (confirm_payment _ _ _ db) as [db'|] eqn:E; simpl; [|done].
    apply confirm_payment_tables in E as (-> & _). done.
  - destruct (cancel_trade _ _ db) as [db'|] eqn:E; simpl; [|done].
    apply cancel_trade_tables in E as (-> & _). done.
  - destruct (delete_advertisement _ _ db) as [db'|] eqn:E; simpl; [|done].
    apply delete_advertisement_frame in E as (_ & _ & -> & _). done.
  - destruct (create_dispute _ _ db) as [[db' d]|] eqn:E; simpl; [|done].
    apply create_dispute_frame in E as (_ & _ & -> & _). done.
  - destruct (cancel_dispute _ _ _ db) as [db'|] eqn:E; simpl; [|done].
    apply cancel_dispute_frame in E as (_ & _ & -> & _). done.
  - destruct (resolve_dispute _ _ _ _ db) as [db'|] eqn:E; simpl; [|done].
    apply resolve_dispute_frame in E as (_ & _ & -> & _). done.
  - destruct (_check_and_expire_ads_frame now db) as [-> _]. done.
Qed.

Lemma serve_book rs : forall db, rtc book_step (orders db) (orders (serve rs db)).
Proof.
  induction rs as [|r rs IH]; intros db; simpl; [done|].
  etrans; [apply handle_book|apply IH].
Qed.

(** *** Orders stay well formed *)

Lemma fill_ok q o :
  order_ok o -> 0 < q -> q <= OrderBookOrder.remaining_quantity o ->
  order_ok (fill q o).
Proof.
  unfold order_ok, fill, update_status. intros (H0 & Hq & Hf & Hp & Hpf) Hpos Hle.
  destruct o as [i u ins ot ost p qty rem st ca]. simpl in *.
  repeat case_decide; simpl in *; split_and!; try done; try lra;
    try (intros; lra); try (split; [done|intros; lra]);
    try (split; [intros; lra|done]).
Qed.

Lemma order_ok_open_positive o :
  order_ok o -> open_status (OrderBookOrder.status o) ->
  0 < OrderBookOrder.remaining_quantity o.
Proof.
  unfold order_ok, open_status. intros (H0 & Hq & Hf & Hp & Hpf) Ho.
  assert (~ OrderBookOrder.remaining_quantity o == 0).
  { intros E. apply Hf in E. destruct Ho; congruence. }
  lra.
Qed.

Lemma book_step_ok l l' :
  book_step l l' -> Forall order_ok l -> Forall order_ok l'.
Proof.
  intros [o Hst Hrem Hq|ia a ic c Ha Hc Hne Hoa Hoc Hpos q|io o Hl Ho] H.
  - apply Forall_app. split; [done|]. apply Forall_singleton.
    unfold order_ok. rewrite Hst, Hrem. split_and!; try done; try lra.
    split; [done|]. intros E. lra.
  - pose proof (proj1 (Forall_lookup _ _) H _ _ Ha) as Oa.
    pose proof (proj1 (Forall_lookup _ _) H _ _ Hc) as Oc.
    pose proof (order_ok_open_positive _ Oc Hoc) as Hcpos.
    assert (0 < q /\ q <= OrderBookOrder.remaining_quantity a
            /\ q <= OrderBookOrder.remaining_quantity c) as (? & ? & ?).
    { unfold q. destruct (Q.min_spec (OrderBookOrder.remaining_quantity a)
        (OrderBookOrder.remaining_quantity c)) as [[? ->]|[? ->]]; lra. }
    apply Forall_insert; [apply Forall_insert; [done|]|]; by apply fill_ok.
  - pose proof (proj1 (Forall_lookup _ _) H _ _ Hl) as Oo.
    pose proof (order_ok_open_positive _ Oo Ho) as Hopos.
    apply Forall_alter; [done|]. intros x Hx. rewrite Hl in Hx.
    injection Hx as <-. clear Hl.
    destruct Oo as (H0 & Hq & Hf & Hp & Hpf).
    unfold order_ok. destruct o; simpl in *.
    split; [done|]. split; [done|]. split; [split; [done|intros; lra]|].
    split; intros; discriminate.
Qed.

(** The matching loop keeps the rows well formed, whatever the status of
    the aggressor. *)
Lemma match_loop_ok ia cands : forall order db,
  NoDup cands.*1 -> ia ∉ cands.*1 ->
  (forall i c, (i, c) ∈ cands ->
     orders db !! i = Some c /\ open_status (OrderBookOrder.status c)) ->
  orders db !! ia = Some order ->
  Forall order_ok (orders db) ->
  Forall order_ok (orders (match_loop ia order cands db).1).
Proof.
  induction cands as [|[ic m] rest IH]; intros order db Hnd Hia Hc Ha Hok; simpl;
    [done|].
  destruct (decide _) as [|Hpos]; [done|].
  destruct (match_step ia order ic m db) as [[db1 order1]|ex] eqn:S; [|done].
  apply match_step_Ok in S as (p & base & quote & Hp & Hs & -> & O1 & _).
  set (q := Qmin _ _) in *.
  apply NoDup_cons in Hnd as [Hic Hnd]. simpl in Hia, Hic.
  apply not_elem_of_cons in Hia as [Hne Hia].
  destruct (Hc ic m) as [Hm Hmo]; [by left|].
  pose proof (proj1 (Forall_lookup _ _) Hok _ _ Ha) as Oa.
  pose proof (proj1 (Forall_lookup _ _) Hok _ _ Hm) as Om.
  pose proof (order_ok_open_positive _ Om Hmo) as Hmpos.
  assert (0 < q /\ q <= OrderBookOrder.remaining_quantity order
          /\ q <= OrderBookOrder.remaining_quantity m) as (? & ? & ?).
  { unfold q. destruct (Q.min_spec (OrderBookOrder.remaining_quantity order)
      (OrderBookOrder.remaining_quantity m)) as [[? ->]|[? ->]]; lra. }
  assert (Hlt : (ia < length (orders db))%nat) by (by eapply lookup_lt_Some).
  apply IH; try done.
  - intros i c Hin. destruct (Hc i c) as [Hl Hco]; [by right|]. split; [|done].
    rewrite O1.
    assert (i <> ic).
    { intros ->. apply Hic. apply list_elem_of_fmap. by exists (ic, c). }
    assert (i <> ia).
    { intros ->. apply Hia. apply list_elem_of_fmap. by exists (ia, c). }
    by rewrite !list_lookup_insert_ne by done.
  - rewrite O1. rewrite list_lookup_insert_ne by done.
    by rewrite list_lookup_insert_eq by done.
  - rewrite O1. apply Forall_insert; [apply Forall_insert; [done|]|]; by apply fill_ok.
Qed.

(** X1.  Matching and cancelling keep the order table well formed.  If in
    every order row the remaining quantity is between zero and the
    quantity, the status is FILLED exactly when nothing remains, a PENDING
    row is untouched and a PARTIALLY_FILLED row has less remaining than its
    quantity, then the same holds of every row after the matching pass
    [match_order] of any order of the table, whether the pass runs to its
    end or an exception stops it, and after any [cancel_order].  No match
    over-fills an order.  The statement is about the rows that the table
    holds: it says nothing of how [create_order] stores a new row. *)
Theorem fills_keep_orders_well_formed (db : Db) :
  Forall order_ok (orders db) ->
  (forall order_id, Forall order_ok (orders (match_order order_id db).1))
  /\ (forall order_id current_user db',
        cancel_order order_id current_user db = Ok db' ->
        Forall order_ok (orders db')).
Proof.
  intros H. split.
  - intros order_id. unfold match_order.
    destruct (find_order db order_id) as [[ia order]|] eqn:F; [|done].
    destruct (decide _); [done|].
    apply match_loop_ok; [| | | |done].
    + apply matching_orders_NoDup.
    + by eapply aggressor_not_candidate.
    + intros i c [Hl Hc]%elem_of_matching_orders. split; [done|]. apply Hc.
    + by apply find_order_lookup in F as [? _].
  - intros order_id current_user db' C.
    apply cancel_order_book in C. by eapply book_step_ok.
Qed.

(** A limit BUY of 3/2 BTC at 50000 is in the table with the two resting
    SELL orders of 1 BTC each; its matching pass fills the first and half
    of the second; then Carol cancels what is left of hers. *)
Lemma fills_keep_orders_well_formed_witness :
  let db :=
    with_orders
      (add (OrderBookOrder.mk 3 1 "BTC/USD" BUY LIMIT (Some 50000) (3 # 2) (3 # 2)
              PENDING 5)) Examples.two_sells in
  Forall order_ok (orders db)
  /\ OrderBookOrder.status <$> orders (match_order 3 db).1
     = [FILLED; PARTIALLY_FILLED; FILLED]
  /\ Forall order_ok (orders (match_order 3 db).1)
  /\ exists db', cancel_order 2 3 (match_order 3 db).1 = Ok db'
       /\ OrderBookOrder.status <$> orders db' = [FILLED; CANCELLED; FILLED]
       /\ Forall order_ok (orders db').
Proof.
  intros db.
  assert (H : Forall order_ok (orders db)).
  { apply (bool_decide_unpack _). vm_compute. reflexivity. }
  split; [exact H|]. split; [vm_compute; reflexivity|].
  pose proof (proj1 (fills_keep_orders_well_formed db H) 3%Z) as H1.
  split; [exact H1|].
  destruct (cancel_order 2 3 (match_order 3 db).1) as [db'|e] eqn:C;
    [|by vm_compute in C].
  exists db'. split; [reflexivity|].
  split; [vm_compute in C; injection C as <-; vm_compute; reflexivity|].
  exact (proj2 (fills_keep_orders_well_formed _ H1) 2%Z 3%Z db' C).
Defined.

(** *** Closed orders *)

Lemma book_step_closed l l' j o :
  book_step l l' -> l !! j = Some o -> ~ open_status (OrderBookOrder.status o) ->
  l' !! j = Some o.
Proof.
  intros [o1 Hst Hrem Hq|ia a ic c Ha Hc Hne Hoa Hoc Hpos q|io o1 Hl Ho] Hj Hcl.
  - by apply lookup_app_l_Some.
  - assert (j <> ia) by (intros ->; simplify_eq; done).
    assert (j <> ic) by (intros ->; simplify_eq; done).
    by rewrite !list_lookup_insert_ne by done.
  - assert (j <> io) by (intros ->; simplify_eq; done).
    by rewrite list_lookup_alter_ne by done.
Qed.

(** X2.  An order that is FILLED, CANCELLED or EXPIRED is final: no
    sequence of requests changes its row, be it by matching it, by
    cancelling it again or by overwriting it. *)
Theorem closed_orders_are_final (rs : list request) (db : Db) (j : nat) (o : Order) :
  orders db !! j = Some o ->
  ~ open_status (OrderBookOrder.status o) ->
  orders (serve rs db) !! j = Some o.
Proof.
  intros Hj Hcl. pose proof (serve_book rs db) as R.
  induction R as [|l1 l2 l3 S _ IH]; [done|].
  apply IH. by eapply book_step_closed.
Qed.

(** Bob's SELL has been cancelled; a BUY that crosses its price and a second
    cancellation leave it as it is, while Carol's SELL is filled. *)
Lemma closed_orders_are_final_witness :
  let cancelled := OrderBookOrder.set_status CANCELLED Examples.sell_A in
  let db := with_orders (fun _ => [cancelled; Examples.sell_B]) Examples.two_sells in
  let rs := [Create_order (mkOrderCreate "BTC/USD" "BUY" "LIMIT" (Some 50000) 1) 1 5;
             Cancel_order 1 2] in
  orders db !! 0%nat = Some cancelled
  /\ OrderBookOrder.status <$> orders (serve rs db) = [CANCELLED; FILLED; FILLED]
  /\ orders (serve rs db) !! 0%nat = Some cancelled.
Proof.
  intros cancelled db rs. split; [reflexivity|]. split; [vm_compute; reflexivity|].
  apply (closed_orders_are_final rs db 0 cancelled); [reflexivity|].
  unfold open_status. simpl. intros [|]; discriminate.
Defined.

(** *** The terms of an order *)

Lemma fill_terms q o : terms (fill q o) = terms o.
Proof.
  unfold terms.
  destruct (fill_static q o) as (-> & -> & -> & -> & -> & -> & -> & -> & _). done.
Qed.

Lemma book_step_terms l l' j o :
  book_step l l' -> l !! j = Some o ->
  exists o', l' !! j = Some o' /\ terms o' = terms o.
Proof.
  intros [o1 Hst Hrem Hq|ia a ic c Ha Hc Hne Hoa Hoc Hpos q|io o1 Hl Ho] Hj.
  - exists o. split; [by apply lookup_app_l_Some|done].
  - assert (Hlt : (j < length l)%nat) by (by eapply lookup_lt_Some).
    destruct (decide (j = ic)) as [->|Hic].
    { exists (fill q c). rewrite list_lookup_insert_eq by (by rewrite length_insert).
      simplify_eq. split; [done|apply fill_terms]. }
    rewrite list_lookup_insert_ne by done.
    destruct (decide (j = ia)) as [->|Hia].
    { exists (fill q a). rewrite list_lookup_insert_eq by done.
      simplify_eq. split; [done|apply fill_terms]. }
    rewrite list_lookup_insert_ne by done. by exists o.
  - rewrite list_lookup_alter. case_decide.
    + subst. rewrite Hj. simpl. eexists. split; [done|]. by destruct o.
    + by exists o.
Qed.

(** X3.  The terms of an order never change: whatever requests are served,
    the row stays where it is and keeps its id, owner, instrument, side,
    kind, limit price, quantity and creation time.  Matching and
    cancellation write to [remaining_quantity] and [status] only, and no
    order row is ever removed. *)
Theorem order_terms_never_change (rs : list request) (db : Db) (j : nat) (o : Order) :
  orders db !! j = Some o ->
  exists o', orders (serve rs db) !! j = Some o' /\ terms o' = terms o.
Proof.
  intros Hj. pose proof (serve_book rs db) as R. revert o Hj.
  induction R as [l|l1 l2 l3 S _ IH]; intros o Hj; [by exists o|].
  destruct (book_step_terms _ _ _ _ S Hj) as (o1 & H1 & T1).
  destruct (IH _ H1) as (o2 & H2 & T2). exists o2. split; [done|congruence].
Qed.

Lemma order_terms_never_change_witness :
  let rs := [Create_order (mkOrderCreate "BTC/USD" "BUY" "LIMIT" (Some 50000) (3 # 2)) 1 5;
             Cancel_order 2 3] in
  orders Examples.two_sells !! 1%nat = Some Examples.sell_B
  /\ exists o', orders (serve rs Examples.two_sells) !! 1%nat = Some o'
       /\ OrderBookOrder.status o' = CANCELLED
       /\ OrderBookOrder.remaining_quantity o' == 1 # 2
       /\ terms o' = terms Examples.sell_B.
Proof.
  intros rs. split; [reflexivity|].
  destruct (order_terms_never_change rs Examples.two_sells 1 Examples.sell_B eq_refl)
    as (o' & Hl & Ht).
  exists o'. split; [exact Hl|].
  vm_compute in Hl. injection Hl as <-. split; [reflexivity|].
  split; [vm_compute; reflexivity|exact Ht].
Defined.

(** ** Submitting and cancelling *)

(** A matching pass that records no trade changes nothing. *)
Lemma match_loop_no_trade ia cands order db :
  trades (match_loop ia order cands db).1 = trades db ->
  (match_loop ia order cands db).1 = db.
Proof.
  destruct cands as [|[ic m] rest]; simpl; [done|].
  destruct (decide _); [done|].
  destruct (match_step ia order ic m db) as [[db1 order1]|ex] eqn:S; [|done].
  intros T. exfalso.
  apply match_step_Ok in S as (p & base & quote & _ & _ & _ & _ & T1 & _).
  destruct (match_loop ia order1 rest db1) as [db' e] eqn:L.
  apply match_loop_log in L as (nt & _ & T2 & _). simpl in T.
  rewrite T2, T1, <- app_assoc in T.
  apply (f_equal length) in T. rewrite !length_app in T. simpl in T. lia.
Qed.

Lemma match_order_no_trade order_id db :
  trades (match_order order_id db).1 = trades db ->
  (match_order order_id db).1 = db.
Proof.
  unfold match_order.
  destruct (find_order db order_id) as [[ia order]|]; [|done].
  destruct (decide _); [done|]. apply match_loop_no_trade.
Qed.

(** What an admitted [create_order] has checked and done before its
    matching pass. *)
Lemma create_order_inv order_data current_user now db db' oid :
  create_order order_data current_user now db = Ok (db', oid) ->
  exists base quote ot ost i w,
    split_instrument (oc_instrument order_data) = Ok (base, quote)
    /\ OrderType_of_string (oc_order_type order_data) = Ok ot
    /\ OrderBookOrderType_of_string (oc_order_subtype order_data) = Ok ost
    /\ ~ price_not_positive (oc_price order_data)
    /\ 0 < oc_quantity order_data
    /\ find_wallet db current_user (lock_currency ot base quote) = Some (i, w)
    /\ ~ Wallet.available_balance w < lock_amount ot order_data
    /\ oid = next_id OrderBookOrder.id (orders db)
    /\ db' = (match_order oid
               (with_orders
                  (add (OrderBookOrder.mk oid current_user (oc_instrument order_data)
                          ot ost (truthy (oc_price order_data))
                          (oc_quantity order_data) (oc_quantity order_data)
                          PENDING now))
                  (with_wallets
                     (alter (fun w =>
                               Wallet.set_locked
                                 (fun l => l + lock_amount ot order_data)
                                 (Wallet.set_available
                                    (fun a => a - lock_amount ot order_data) w)) i)
                     db))).1.
Proof.
  unfold create_order. intros H.
  destruct (decide _) as [?|_] in H; [done|].
  destruct (decide _) as [?|Hp] in H; [done|].
  destruct (decide _) as [?|Hq] in H; [done|].
  destruct (split_instrument _) as [[base quote]|]; [|done].
  apply bind_Ok in H as (db1 & Hlock & H).
  apply bind_Ok in H as (ot & Hot & H).
  apply bind_Ok in H as (ost & Host & H).
  injection H as <- <-.
  exists base, quote, ot, ost.
  unfold OrderType_of_string in Hot.
  destruct (decide (oc_order_type order_data = "BUY")) as [Et|Et].
  - injection Hot as <-. simpl.
    destruct (find_wallet db current_user quote) as [[i w]|]; [|done].
    destruct (decide _) in Hlock; [done|]. injection Hlock as <-.
    exists i, w. split_and!; try done; [|lra].
    unfold OrderType_of_string. by rewrite decide_True.
  - destruct (decide (oc_order_type order_data = "SELL")); [|done].
    injection Hot as <-. simpl.
    destruct (find_wallet db current_user base) as [[i w]|]; [|done].
    destruct (decide _) in Hlock; [done|]. injection Hlock as <-.
    exists i, w. split_and!; try done; [|lra].
    unfold OrderType_of_string. rewrite decide_False by done. by rewrite decide_True.
Qed.



(** ** What the wallets of a currency hold *)

Lemma supply_cons c w l :
  supply c (w :: l)
  = if decide (Wallet.currency w = c) then total w + supply c l else supply c l.
Proof. unfold supply. rewrite filter_cons. by case_decide. Qed.

Lemma supply_alter c f i l delta :
  (forall w, Wallet.currency (f w) = Wallet.currency w) ->
  (forall w, total (f w) == total w + delta) ->
  supply c (alter f i l) == supply c l + credit c l (Some i) delta.
Proof.
  intros Hk Hf. unfold credit. simpl. revert i.
  induction l as [|x l IH]; intros [|i]; simpl.
  - unfold supply. simpl. lra.
  - unfold supply. simpl. lra.
  - rewrite !supply_cons, Hk. case_decide; [|lra]. rewrite Hf. lra.
  - change (list_alter f i l) with (alter f i l).
    rewrite !supply_cons. specialize (IH i).
    destruct (l !! i) as [w|]; case_decide; try case_decide; lra.
Qed.

Lemma supply_upd_at c f o l delta :
  keeps_key f ->
  (forall w, total (f w) == total w + delta) ->
  supply c (upd_at o f l) == supply c l + credit c l o delta.
Proof.
  intros Hk Hf. destruct o as [i|]; simpl.
  - apply supply_alter; [|done]. intros w. by destruct (Hk w) as (_ & _ & ->).
  - unfold credit. simpl. lra.
Qed.

Lemma credit_upd_at c f o' o l delta :
  keeps_key f -> credit c (upd_at o' f l) o delta = credit c l o delta.
Proof.
  intros Hk. unfold credit. destruct o as [i|]; [|done]. simpl.
  destruct o' as [j|]; [|done]. simpl. rewrite list_lookup_alter.
  case_decide; [|done]. subst.
  destruct (l !! i) as [w|]; simpl; [|done].
  by destruct (Hk w) as (_ & _ & ->).
Qed.

Lemma credit_found db u c i w c' delta :
  find_wallet db u c = Some (i, w) ->
  credit c' (wallets db) (wallet_pos db u c) delta
  = if decide (c = c') then delta else 0.
Proof.
  intros F. unfold credit, wallet_pos. rewrite F. simpl.
  apply find_wallet_lookup in F as (-> & _ & ->). done.
Qed.

Lemma total_set_locked g w delta :
  (forall l, g l == l + delta) -> total (Wallet.set_locked g w) == total w + delta.
Proof. intros Hg. unfold total. destruct w; simpl. rewrite Hg. lra. Qed.

Lemma total_set_available g w delta :
  (forall a, g a == a + delta) -> total (Wallet.set_available g w) == total w + delta.
Proof. intros Hg. unfold total. destruct w; simpl. rewrite Hg. lra. Qed.

(** X5.  A settlement charges the fee twice and credits it to nobody.
    When the four wallets of buyer and seller exist and base and quote
    currency differ, a settlement that completes lowers what all wallets
    hold of the quote currency by [fee] (the seller receives the notional
    less the fee), lowers what they hold of the base currency by
    [quantity * fee / notional] (the buyer receives the quantity less that
    share), and leaves every other currency as it was. *)
Theorem settlement_burns_fee_in_both_currencies
    (db db' : Db) (buyer seller : Z) (base quote : string) (quantity amount fee : Q) :
  execute_trade_settlement buyer seller base quote quantity amount fee db = Ok db' ->
  is_Some (find_wallet db buyer quote) -> is_Some (find_wallet db buyer base) ->
  is_Some (find_wallet db seller base) -> is_Some (find_wallet db seller quote) ->
  base <> quote ->
  supply quote (wallets db') == supply quote (wallets db) - fee
  /\ supply base (wallets db') == supply base (wallets db) - quantity * fee / amount
  /\ forall c, c <> base -> c <> quote ->
       supply c (wallets db') == supply c (wallets db).
Proof.
  intros E [[i1 w1] F1] [[i2 w2] F2] [[i3 w3] F3] [[i4 w4] F4] Hne.
  apply execute_trade_settlement_Ok in E as (W & _).
  assert (S : forall c,
    supply c (wallets db')
    == supply c (wallets db)
       + (if decide (quote = c) then - amount else 0)
       + (if decide (base = c) then quantity - quantity * fee / amount else 0)
       + (if decide (base = c) then - quantity else 0)
       + (if decide (quote = c) then amount - fee else 0)).
  { intros c. rewrite W.
    rewrite (supply_upd_at c _ _ _ (amount - fee));
      [|apply keeps_key_set_available|intros w; apply total_set_available; intros; lra].
    rewrite (supply_upd_at c _ _ _ (- quantity));
      [|apply keeps_key_set_locked|intros w; apply total_set_locked; intros; lra].
    rewrite (supply_upd_at c _ _ _ (quantity - quantity * fee / amount));
      [|apply keeps_key_set_available|intros w; apply total_set_available; intros; lra].
    rewrite (supply_upd_at c _ _ _ (- amount));
      [|apply keeps_key_set_locked|intros w; apply total_set_locked; intros; lra].
    rewrite !credit_upd_at
      by first [apply keeps_key_set_available|apply keeps_key_set_locked].
    rewrite (credit_found _ _ _ _ _ _ _ F1), (credit_found _ _ _ _ _ _ _ F2),
      (credit_found _ _ _ _ _ _ _ F3), (credit_found _ _ _ _ _ _ _ F4).
    lra. }
  split_and!.
  - rewrite S. repeat case_decide; try congruence; lra.
  - rewrite S. repeat case_decide; try congruence; lra.
  - intros c H1 H2. rewrite S. repeat case_decide; try congruence; lra.
Qed.

(** Alice buys Bob's bitcoin at 50000 with a fee of 50: the dollars held
    fall from 100000 to 99950, the bitcoins from 4 to 3.999. *)
Lemma settlement_burns_fee_in_both_currencies_witness :
  exists db',
    execute_trade_settlement 1 2 "BTC" "USD" 1 50000 50 Examples.two_sells = Ok db'
    /\ supply "USD" (wallets Examples.two_sells) == 100000
    /\ supply "USD" (wallets db') == 100000 - 50
    /\ supply "BTC" (wallets Examples.two_sells) == 4
    /\ supply "BTC" (wallets db') == 4 - (1 # 1000).
Proof.
  destruct (execute_trade_settlement 1 2 "BTC" "USD" 1 50000 50 Examples.two_sells)
    as [db'|e] eqn:E; [|by vm_compute in E].
  destruct (settlement_burns_fee_in_both_currencies Examples.two_sells db' 1 2
              "BTC" "USD" 1 50000 50 E) as (Hq & Hb & _).
  - vm_compute. eauto.
  - vm_compute. eauto.
  - vm_compute. eauto.
  - vm_compute. eauto.
  - discriminate.
  - exists db'. split; [reflexivity|].
    assert (U : supply "USD" (wallets Examples.two_sells) == 100000)
      by (vm_compute; reflexivity).
    assert (B : supply "BTC" (wallets Examples.two_sells) == 4)
      by (vm_compute; reflexivity).
    split; [exact U|]. split; [rewrite Hq, U; reflexivity|].
    split; [exact B|]. rewrite Hb, B. vm_compute. reflexivity.
Defined.

(** ** P2P trades: initiation *)

Lemma initiate_trade_inv trade_data current_user db db' t :
  initiate_trade trade_data current_user db = Ok (db', t) ->
  exists ia ad iw w,
    let amount := tc_amount trade_data / P2PAdvertisement.price ad in
    let escrow := Escrow.mk (next_id Escrow.id (escrows db)) amount
                    (P2PAdvertisement.currency ad) "LOCKED" None in
    list_find (fun a => P2PAdvertisement.id a = tc_advertisement_id trade_data
                        /\ P2PAdvertisement.is_active a = true)
      (advertisements db) = Some (ia, ad)
    /\ P2PAdvertisement.user_id ad <> current_user
    /\ P2PAdvertisement.min_limit ad <= tc_amount trade_data
    /\ tc_amount trade_data <= P2PAdvertisement.max_limit ad
    /\ ~ P2PAdvertisement.price ad == 0
    /\ amount <= P2PAdvertisement.available_amount ad
    /\ find_wallet db (p2p_seller ad current_user) (P2PAdvertisement.currency ad)
       = Some (iw, w)
    /\ amount <= Wallet.available_balance w
    /\ t = P2PTrade.mk (next_id P2PTrade.id (p2p_trades db)) (P2PAdvertisement.id ad)
             (p2p_buyer ad current_user) (p2p_seller ad current_user) amount
             (P2PAdvertisement.price ad) (tc_amount trade_data)
             (P2PAdvertisement.currency ad) (P2PAdvertisement.fiat_currency ad)
             P2P_PENDING (Some (Escrow.id escrow)) None
    /\ db' = with_advertisements (alter (reserve amount) ia)
               (with_p2p_trades (add t)
                  (with_wallets (alter (lock_funds amount) iw)
                     (with_escrows (add escrow) db))).
Proof.
  unfold initiate_trade. intros H.
  destruct (list_find _ (advertisements db)) as [[ia ad]|] eqn:F; [|done].
  destruct (decide _) as [|Hu] in H; [done|].
  destruct (decide _) as [|Hlim] in H; [done|].
  destruct (decide _) as [|Hp] in H; [done|].
  destruct (decide _) as [|Hav] in H; [done|].
  exists ia, ad.
  assert (Hrole : (let '(buyer_id, seller_id) :=
                     match P2PAdvertisement.ad_type ad with
                     | SELL => (current_user, P2PAdvertisement.user_id ad)
                     | BUY => (P2PAdvertisement.user_id ad, current_user)
                     end in (buyer_id, seller_id))
                  = (p2p_buyer ad current_user, p2p_seller ad current_user)).
  { unfold p2p_buyer, p2p_seller. by destruct (P2PAdvertisement.ad_type ad). }
  destruct (P2PAdvertisement.ad_type ad) eqn:Et;
    unfold p2p_buyer, p2p_seller; rewrite Et; clear Hrole;
    (match type of H with
     | context [find_wallet ?d ?u ?c] =>
         change (find_wallet d u c) with (find_wallet db u c) in H;
         destruct (find_wallet db u c) as [[iw w]|] eqn:Fw; [|done]
     end);
    (destruct (decide _) as [|Hw] in H; [done|]);
    injection H as <- <-; exists iw, w; simpl; split_and!; try done; lra.
Qed.



(** ** P2P trades: initiating and cancelling *)

(** With unique keys, the query by key selects the row that has it. *)
Lemma list_find_key {A} (key : A -> Z) (l : list A) i x :
  NoDup (key <$> l) -> l !! i = Some x ->
  list_find (fun y => key y = key x) l = Some (i, x).
Proof.
  intros Hnd Hl. apply list_find_Some. split_and!; [done|done|].
  intros j y Hj Hlt Hk.
  assert ((key <$> l) !! j = Some (key x)) by (by rewrite list_lookup_fmap, Hj, <- Hk).
  assert ((key <$> l) !! i = Some (key x)) by (by rewrite list_lookup_fmap, Hl).
  pose proof (NoDup_lookup _ _ _ _ Hnd H H0). lia.
Qed.

Lemma reserve_id amount a :
  P2PAdvertisement.id (reserve amount a) = P2PAdvertisement.id a.
Proof. unfold reserve. simpl. by case_decide. Qed.



(** ** What the matching pass does not write to *)

Lemma match_loop_frame ia cands : forall order db,
  let db' := (match_loop ia order cands db).1 in
  advertisements db' = advertisements db /\ p2p_trades db' = p2p_trades db
  /\ escrows db' = escrows db /\ disputes db' = disputes db
  /\ notifications db' = notifications db.
Proof.
  induction cands as [|[ic m] rest IH]; intros order db; simpl; [done|].
  destruct (decide _); [done|].
  destruct (match_step ia order ic m db) as [[db1 order1]|ex] eqn:S; [|done].
  apply match_step_Ok in S as (p & base & quote & _ & _ & _ & _ & _ & S).
  apply execute_trade_settlement_Ok in S
    as (_ & _ & _ & _ & A & P & E & D & N & _). simpl in *.
  destruct (IH order1 db1) as (-> & -> & -> & -> & ->). done.
Qed.

Lemma match_order_frame order_id db :
  let db' := (match_order order_id db).1 in
  advertisements db' = advertisements db /\ p2p_trades db' = p2p_trades db
  /\ escrows db' = escrows db /\ disputes db' = disputes db
  /\ notifications db' = notifications db.
Proof.
  unfold match_order.
  destruct (find_order db order_id) as [[ia order]|]; [|done].
  destruct (decide _); [done|]. apply match_loop_frame.
Qed.

Lemma create_order_frame order_data current_user now db db' oid :
  create_order order_data current_user now db = Ok (db', oid) ->
  advertisements db' = advertisements db /\ p2p_trades db' = p2p_trades db
  /\ escrows db' = escrows db /\ disputes db' = disputes db
  /\ notifications db' = notifications db.
Proof.
  intros H. apply create_order_inv in H as (? & ? & ? & ? & ? & ? & H).
  destruct H as (_ & _ & _ & _ & _ & _ & _ & _ & ->).
  match goal with
  | |- context [match_order ?o ?d] => destruct (match_order_frame o d) as (-> & -> & -> & -> & ->)
  end. done.
Qed.

Lemma cancel_order_tables order_id current_user db db' :
  cancel_order order_id current_user db = Ok db' ->
  advertisements db' = advertisements db /\ p2p_trades db' = p2p_trades db
  /\ escrows db' = escrows db /\ disputes db' = disputes db
  /\ notifications db' = notifications db.
Proof.
  unfold cancel_order. intros H.
  destruct (list_find _ (orders db)) as [[io order]|]; [|done].
  destruct (decide _); [|done].
  destruct (split_instrument _) as [[base quote]|]; [|done]. simpl in H.
  apply bind_Ok in H as (db1 & H1 & [= <-]). simpl.
  destruct (OrderBookOrder.order_type order);
    [destruct (OrderBookOrder.price order); [|done]|];
    injection H1 as <-;
    match goal with
    | |- context [find_wallet db ?u ?c] => destruct (find_wallet db u c) as [[]|]
    end; done.
Qed.

(** ** The history *)

Lemma confirm_payment_log trade_id current_user now db db' :
  confirm_payment trade_id current_user now db = Ok db' ->
  transactions db `prefix_of` transactions db'.
Proof.
  unfold confirm_payment, find_escrow. intros H.
  repeat case_match; simplify_eq/=; unfold add; rewrite <- ?app_assoc;
    by apply prefix_app_r.
Qed.

Lemma handle_history r db :
  transactions db `prefix_of` transactions (handle r db)
  /\ trades db `prefix_of` trades (handle r db).
Proof.
  destruct r; simpl.
  - destruct (create_order _ _ _ db) as [[db' oid]|] eqn:E; simpl; [|done].
    apply create_order_Ok in E as (db1 & -> & X & T & _).
    destruct (match_order_log oid db1) as (nt & ntx & -> & -> & _).
    rewrite X, T. split; by apply prefix_app_r.
  - destruct (cancel_order _ _ db) as [db'|] eqn:E; simpl; [|done].
    by apply cancel_order_frame in E as (-> & ->).
  - destruct (initiate_trade _ _ db) as [[db' t]|] eqn:E; simpl; [|done].
    by apply initiate_trade_frame in E as (_ & -> & -> & _).
  - destruct (mark_payment_sent _ _ db) as [db'|] eqn:E; simpl; [|done].
    by apply mark_payment_sent_frame in E as (_ & -> & _ & -> & _).
  - destruct (confirm_payment _ _ _ db) as [db'|] eqn:E; simpl; [|done].
    pose proof (confirm_payment_log _ _ _ _ _ E).
    by apply confirm_payment_tables in E as (_ & -> & _).
  - destruct (cancel_trade _ _ db) as [db'|] eqn:E; simpl; [|done].
    by apply cancel_trade_tables in E as (_ & -> & -> & _).
  - destruct (delete_advertisement _ _ db) as [db'|] eqn:E; simpl; [|done].
    by apply delete_advertisement_frame in E as (_ & -> & _ & -> & _).
  - destruct (create_dispute _ _ db) as [[db' d]|] eqn:E; simpl; [|done].
    by apply create_dispute_frame in E as (_ & -> & _ & -> & _).
  - destruct (cancel_dispute _ _ _ db) as [db'|] eqn:E; simpl; [|done].
    by apply cancel_dispute_frame in E as (_ & -> & _ & -> & _).
  - destruct (resolve_dispute _ _ _ _ db) as [db'|] eqn:E; simpl; [|done].
    by apply resolve_dispute_frame in E as (_ & -> & _ & -> & _).
  - rewrite _check_and_expire_ads_transactions.
    by destruct (_check_and_expire_ads_frame now db) as [_ ->].
Qed.

(** X8.  The history is append-only: whatever requests are served, the
    transactions and the trades recorded before are still there, unchanged
    and in the same order, at the head of the tables. *)
Theorem history_is_append_only (rs : list request) (db : Db) :
  transactions db `prefix_of` transactions (serve rs db)
  /\ trades db `prefix_of` trades (serve rs db).
Proof.
  revert db. induction rs as [|r rs IH]; intros db; simpl; [done|].
  destruct (handle_history r db) as [X T].
  destruct (IH (handle r db)) as [X' T'].
  split; by etrans.
Qed.

(** ** Holds *)

Lemma same_total_refl w : same_total w w.
Proof. by split. Qed.

Lemma keeps_totals_refl db : keeps_totals db db.
Proof.
  apply Forall2_same_length_lookup. split; [done|].
  intros i x y H1 H2. simplify_eq. apply same_total_refl.
Qed.

Lemma keeps_totals_same db db' : wallets db' = wallets db -> keeps_totals db db'.
Proof. unfold keeps_totals. intros ->. apply keeps_totals_refl. Qed.

Lemma keeps_totals_trans a b c : keeps_totals a b -> keeps_totals b c -> keeps_totals a c.
Proof.
  unfold keeps_totals. intros H1 H2. eapply Forall2_trans; [|exact H1|exact H2].
  intros x y z [(? & ? & ?) E1] [(? & ? & ?) E2]. split; [|by rewrite E2].
  unfold same_key. split_and!; congruence.
Qed.

Lemma keeps_totals_alter db db' f i :
  wallets db' = alter f i (wallets db) -> (forall w, same_total w (f w)) ->
  keeps_totals db db'.
Proof.
  intros E Hf. unfold keeps_totals. rewrite E.
  apply Forall2_same_length_lookup. split; [by rewrite length_alter|].
  intros j x y H1. rewrite list_lookup_alter. case_decide.
  - subst. rewrite H1. intros [= <-]. apply Hf.
  - rewrite H1. intros [= <-]. apply same_total_refl.
Qed.

Lemma same_total_unlock amount w : same_total w (unlock_funds amount w).
Proof.
  unfold same_total, same_key, total, unlock_funds. destruct w; simpl.
  split; [done|ring].
Qed.

Lemma same_total_lock amount w : same_total w (lock_funds amount w).
Proof.
  unfold same_total, same_key, total, lock_funds. destruct w; simpl.
  split; [done|ring].
Qed.

Lemma unlock_seller_totals seller_id currency amount db :
  keeps_totals db (unlock_seller seller_id currency amount db).
Proof.
  unfold unlock_seller. destruct (find_wallet _ _ _) as [[i w]|];
    [|apply keeps_totals_refl].
  eapply keeps_totals_alter; [reflexivity|]. apply same_total_unlock.
Qed.

Lemma cancel_order_totals order_id current_user db db' :
  cancel_order order_id current_user db = Ok db' -> keeps_totals db db'.
Proof.
  unfold cancel_order. intros H.
  destruct (list_find _ (orders db)) as [[io order]|]; [|done].
  destruct (decide _); [|done].
  destruct (split_instrument _) as [[base quote]|]; [|done]. simpl in H.
  apply bind_Ok in H as (db1 & H1 & [= <-]).
  apply keeps_totals_trans with db1; [|by apply keeps_totals_same].
  destruct (OrderBookOrder.order_type order);
    [destruct (OrderBookOrder.price order); [|done]|];
    injection H1 as <-;
    match goal with
    | |- context [find_wallet db ?u ?c] => destruct (find_wallet db u c) as [[]|]
    end; first [apply keeps_totals_refl
               |eapply keeps_totals_alter; [reflexivity|apply same_total_unlock]].
Qed.

Lemma initiate_trade_totals trade_data current_user db db' t :
  initiate_trade trade_data current_user db = Ok (db', t) -> keeps_totals db db'.
Proof.
  intros H. apply initiate_trade_inv in H as (ia & ad & iw & w & H).
  destruct H as (_ & _ & _ & _ & _ & _ & _ & _ & _ & ->).
  eapply keeps_totals_alter; [reflexivity|]. apply same_total_lock.
Qed.

Lemma cancel_trade_totals trade_id current_user db db' :
  cancel_trade trade_id current_user db = Ok db' -> keeps_totals db db'.
Proof.
  unfold cancel_trade. intros H.
  destruct (list_find _ (p2p_trades db)) as [[it trade]|]; [|done].
  destruct (decide _); [|done]. injection H as <-.
  match goal with
  | |- keeps_totals db (with_p2p_trades _ ?d) =>
      apply keeps_totals_trans with d; [|by apply keeps_totals_same]
  end.
  match goal with
  | |- keeps_totals db (match ?x with _ => _ end) =>
      destruct x as [[]|]
  end.
  - match goal with
    | |- keeps_totals db (with_advertisements _ ?d) =>
        apply keeps_totals_trans with d; [|by apply keeps_totals_same]
    end.
    eapply keeps_totals_trans; [|apply unlock_seller_totals].
    destruct (find_escrow _ _) as [[]|]; by apply keeps_totals_same.
  - eapply keeps_totals_trans; [|apply unlock_seller_totals].
    destruct (find_escrow _ _) as [[]|]; by apply keeps_totals_same.
Qed.

Lemma expire_trade_totals ia db x : keeps_totals db (expire_trade ia db x).
Proof.
  destruct x as [it trade]. unfold expire_trade.
  match goal with
  | |- keeps_totals db (with_notifications _ (with_p2p_trades _
         (with_advertisements _ ?d))) =>
      apply keeps_totals_trans with d; [|by apply keeps_totals_same]
  end.
  destruct (find_escrow _ _) as [[ie e]|]; [|apply keeps_totals_refl].
  case_decide; [|apply keeps_totals_refl].
  eapply keeps_totals_trans; [|apply unlock_seller_totals].
  by apply keeps_totals_same.
Qed.

Lemma expire_ad_totals now db x : keeps_totals db (expire_ad now db x).
Proof.
  destruct x as [ia ad]. unfold expire_ad. case_decide; [|apply keeps_totals_refl].
  eapply keeps_totals_trans;
    [|apply (foldl_invariant keeps_totals);
      [apply keeps_totals_refl|apply keeps_totals_trans
      |intros a x; apply expire_trade_totals]].
  by apply keeps_totals_same.
Qed.

Lemma _check_and_expire_ads_totals now db :
  keeps_totals db (_check_and_expire_ads now db).
Proof.
  unfold _check_and_expire_ads. apply (foldl_invariant keeps_totals).
  - apply keeps_totals_refl.
  - apply keeps_totals_trans.
  - intros a x. apply expire_ad_totals.
Qed.

Lemma handle_totals r db : ~ settles r -> keeps_totals db (handle r db).
Proof.
  intros Hr. destruct r; simpl in *; try tauto.
  - destruct (cancel_order _ _ db) as [db'|] eqn:E; simpl;
      [by eapply cancel_order_totals|apply keeps_totals_refl].
  - destruct (initiate_trade _ _ db) as [[db' t]|] eqn:E; simpl;
      [by eapply initiate_trade_totals|apply keeps_totals_refl].
  - destruct (mark_payment_sent _ _ db) as [db'|] eqn:E; simpl;
      [|apply keeps_totals_refl].
    apply mark_payment_sent_frame in E as (E & _). by apply keeps_totals_same.
  - destruct (cancel_trade _ _ db) as [db'|] eqn:E; simpl;
      [by eapply cancel_trade_totals|apply keeps_totals_refl].
  - destruct (delete_advertisement _ _ db) as [db'|] eqn:E; simpl;
      [|apply keeps_totals_refl].
    apply delete_advertisement_frame in E as (E & _). by apply keeps_totals_same.
  - destruct (create_dispute _ _ db) as [[db' d]|] eqn:E; simpl;
      [|apply keeps_totals_refl].
    apply create_dispute_frame in E as (E & _). by apply keeps_totals_same.
  - destruct (cancel_dispute _ _ _ db) as [db'|] eqn:E; simpl;
      [|apply keeps_totals_refl].
    apply cancel_dispute_frame in E as (E & _). by apply keeps_totals_same.
  - destruct (resolve_dispute _ _ _ _ db) as [db'|] eqn:E; simpl;
      [|apply keeps_totals_refl].
    apply resolve_dispute_frame in E as (E & _). by apply keeps_totals_same.
  - apply _check_and_expire_ads_totals.
Qed.



(** ** Closed trades *)

Lemma keeps_closed_refl l : keeps_closed l l.
Proof. intros j t Hj. by exists t. Qed.

Lemma keeps_closed_trans l1 l2 l3 :
  keeps_closed l1 l2 -> keeps_closed l2 l3 -> keeps_closed l1 l3.
Proof.
  intros H1 H2 j t Hj.
  destruct (H1 j t Hj) as (t1 & Hj1 & I1 & C1).
  destruct (H2 j t1 Hj1) as (t2 & Hj2 & I2 & C2).
  exists t2. split; [done|]. split; [congruence|].
  intros Hc. specialize (C1 Hc). subst t1. by apply C2.
Qed.

(** An assignment that keeps the id, to a row that is not closed or that it
    leaves as it is. *)
Lemma keeps_closed_alter l f i :
  (forall t, P2PTrade.id (f t) = P2PTrade.id t) ->
  (forall t, l !! i = Some t -> trade_closed (P2PTrade.status t) -> f t = t) ->
  keeps_closed l (alter f i l).
Proof.
  intros Hid Hf j t Hj. rewrite list_lookup_alter. case_decide; [|by exists t].
  subst. rewrite Hj. simpl. exists (f t). split; [done|]. split; [apply Hid|].
  by apply Hf.
Qed.

Lemma keeps_closed_add l t : keeps_closed l (add t l).
Proof.
  intros j x Hj. exists x. split; [|done]. unfold add. by apply lookup_app_l_Some.
Qed.

Lemma mark_payment_sent_closed trade_id current_user db db' :
  mark_payment_sent trade_id current_user db = Ok db' ->
  keeps_closed (p2p_trades db) (p2p_trades db').
Proof.
  unfold mark_payment_sent. intros H.
  destruct (list_find _ (p2p_trades db)) as [[it trade]|] eqn:F; [|done].
  apply list_find_lookup in F as [Hl _].
  destruct (decide _) as [|Hs]; [done|]. injection H as <-. simpl.
  apply dec_stable in Hs.
  apply keeps_closed_alter; [by intros []|].
  intros t Ht [?|[?|?]]; simplify_eq; congruence.
Qed.

Lemma confirm_payment_trades trade_id current_user now db db' :
  confirm_payment trade_id current_user now db = Ok db' ->
  exists it trade,
    p2p_trades db !! it = Some trade
    /\ P2PTrade.status trade = P2P_PAYMENT_SENT
    /\ p2p_trades db'
       = alter (fun t => P2PTrade.set_completed_at (Some now)
                           (P2PTrade.set_status P2P_COMPLETED t)) it (p2p_trades db).
Proof.
  unfold confirm_payment, find_escrow. intros H.
  destruct (list_find _ (p2p_trades db)) as [[it trade]|] eqn:F; [|done].
  apply list_find_lookup in F as [Hl _].
  destruct (decide _) as [|Hs]; [done|].
  exists it, trade. split; [done|]. split; [by apply dec_stable in Hs|].
  repeat case_match; simplify_eq/=; done.
Qed.

Lemma cancel_trade_trades trade_id current_user db db' :
  cancel_trade trade_id current_user db = Ok db' ->
  exists it trade,
    p2p_trades db !! it = Some trade
    /\ (P2PTrade.status trade = P2P_PENDING \/ P2PTrade.status trade = P2P_PAYMENT_SENT)
    /\ p2p_trades db' = alter (P2PTrade.set_status P2P_CANCELLED) it (p2p_trades db).
Proof.
  unfold cancel_trade, find_escrow, unlock_seller. intros H.
  destruct (list_find _ (p2p_trades db)) as [[it trade]|] eqn:F; [|done].
  apply list_find_lookup in F as [Hl _].
  destruct (decide _) as [Hs|]; [|done].
  exists it, trade. split; [done|]. split; [done|].
  repeat case_match; simplify_eq/=; done.
Qed.

Lemma create_dispute_trades dispute_data current_user db db' d :
  create_dispute dispute_data current_user db = Done (db', d) ->
  exists it trade,
    list_find (fun t => P2PTrade.id t = dc_trade_id dispute_data) (p2p_trades db)
    = Some (it, trade)
    /\ P2PTrade.status trade <> P2P_COMPLETED
    /\ P2PTrade.status trade <> P2P_CANCELLED
    /\ (P2PTrade.buyer_id trade = current_user
        \/ P2PTrade.seller_id trade = current_user)
    /\ list_find (fun d => Dispute.trade_id d = dc_trade_id dispute_data) (disputes db)
       = None
    /\ d = Dispute.mk (next_id Dispute.id (disputes db)) (dc_trade_id dispute_data)
             current_user D_OPEN None None None
    /\ p2p_trades db' = alter (P2PTrade.set_status P2P_DISPUTED) it (p2p_trades db)
    /\ disputes db' = disputes db ++ [d].
Proof.
  unfold create_dispute. intros H.
  destruct (list_find _ (p2p_trades db)) as [[it trade]|] eqn:F; [|done].
  destruct (decide _) as [|Hu]; [done|].
  destruct (decide _) as [|Hs]; [done|].
  destruct (list_find _ (disputes db)) as [|] eqn:Fd; [done|].
  destruct (dc_evidence dispute_data); [done|]. injection H as <- <-.
  exists it, trade. split_and!; try done; try tauto.
  destruct (decide (P2PTrade.buyer_id trade = current_user)); [by left|].
  destruct (decide (P2PTrade.seller_id trade = current_user)); [by right|tauto].
Qed.

Lemma set_status_same s t : P2PTrade.status t = s -> P2PTrade.set_status s t = t.
Proof. intros <-. by destruct t. Qed.

Lemma expire_trade_trades ia db it trade :
  p2p_trades (expire_trade ia db (it, trade))
  = alter (P2PTrade.set_status P2P_CANCELLED) it (p2p_trades db).
Proof.
  unfold expire_trade, find_escrow, unlock_seller.
  repeat case_match; simplify_eq/=; done.
Qed.

(** The loop over the pending trades of an advertisement writes to their
    rows only, and keeps the ids. *)
Lemma expire_trades_others ia todo : forall db j,
  j ∉ todo.*1 ->
  p2p_trades (foldl (expire_trade ia) db todo) !! j = p2p_trades db !! j.
Proof.
  induction todo as [|[it trade] rest IH]; intros db j Hj; cbn [foldl]; [done|].
  rewrite fmap_cons in Hj. apply not_elem_of_cons in Hj as [Hne Hj]. simpl in Hne.
  rewrite IH by done. rewrite expire_trade_trades.
  by rewrite list_lookup_alter_ne.
Qed.

Lemma expire_trades_ids ia todo : forall db j t,
  p2p_trades db !! j = Some t ->
  exists t', p2p_trades (foldl (expire_trade ia) db todo) !! j = Some t'
    /\ P2PTrade.id t' = P2PTrade.id t.
Proof.
  induction todo as [|[it trade] rest IH]; intros db j t Hj; cbn [foldl];
    [by exists t|].
  destruct (IH (expire_trade ia db (it, trade)) j
              (if decide (it = j) then P2PTrade.set_status P2P_CANCELLED t else t))
    as (t' & H' & I').
  - rewrite expire_trade_trades, list_lookup_alter.
    case_decide; [subst; by rewrite Hj|done].
  - exists t'. split; [done|]. rewrite I'. case_decide; [by destruct t|done].
Qed.

Lemma expire_ad_closed now db x :
  keeps_closed (p2p_trades db) (p2p_trades (expire_ad now db x)).
Proof.
  destruct x as [ia ad]. unfold expire_ad. case_decide; [|apply keeps_closed_refl].
  intros j t Hj.
  match goal with
  | |- context [foldl _ ?d ?l] =>
      destruct (expire_trades_ids ia l d j t Hj) as (t' & H' & I')
  end.
  exists t'. split; [done|]. split; [done|]. intros Hc.
  rewrite expire_trades_others in H'; [simpl in H'; congruence|].
  intros Hin. apply list_elem_of_fmap in Hin as ([j' t''] & -> & Hin). simpl in *.
  apply list_elem_of_filter in Hin as [[_ Hp] Hin]. simpl in Hp.
  apply elem_of_lookup_imap in Hin as (k & y & [= -> ->] & Hl).
  rewrite Hj in Hl. injection Hl as <-.
  destruct Hc as [?|[?|?]], Hp; congruence.
Qed.

Lemma _check_and_expire_ads_closed now db :
  keeps_closed (p2p_trades db) (p2p_trades (_check_and_expire_ads now db)).
Proof.
  unfold _check_and_expire_ads.
  apply (foldl_invariant (fun a b => keeps_closed (p2p_trades a) (p2p_trades b))).
  - intros a. apply keeps_closed_refl.
  - intros a b c. apply keeps_closed_trans.
  - intros a x. apply expire_ad_closed.
Qed.

Lemma handle_closed r db :
  ~ resolves r -> keeps_closed (p2p_trades db) (p2p_trades (handle r db)).
Proof.
  intros Hr. destruct r; simpl in *; try tauto.
  - destruct (create_order _ _ _ db) as [[db' oid]|] eqn:E; simpl;
      [|apply keeps_closed_refl].
    apply create_order_frame in E as (_ & -> & _). apply keeps_closed_refl.
  - destruct (cancel_order _ _ db) as [db'|] eqn:E; simpl;
      [|apply keeps_closed_refl].
    apply cancel_order_tables in E as (_ & -> & _). apply keeps_closed_refl.
  - destruct (initiate_trade _ _ db) as [[db' t]|] eqn:E; simpl;
      [|apply keeps_closed_refl].
    apply initiate_trade_inv in E as (ia & ad & iw & w & E).
    destruct E as (_ & _ & _ & _ & _ & _ & _ & _ & _ & ->). simpl.
    apply keeps_closed_add.
  - destruct (mark_payment_sent _ _ db) as [db'|] eqn:E; simpl;
      [|apply keeps_closed_refl].
    by eapply mark_payment_sent_closed.
  - destruct (confirm_payment _ _ _ db) as [db'|] eqn:E; simpl;
      [|apply keeps_closed_refl].
    apply confirm_payment_trades in E as (it & trade & Hl & Hs & ->).
    apply keeps_closed_alter; [by intros []|].
    intros t Ht [?|[?|?]]; simplify_eq; congruence.
  - destruct (cancel_trade _ _ db) as [db'|] eqn:E; simpl;
      [|apply keeps_closed_refl].
    apply cancel_trade_trades in E as (it & trade & Hl & Hs & ->).
    apply keeps_closed_alter; [by intros []|].
    intros t Ht [?|[?|?]]; simplify_eq; destruct Hs; congruence.
  - destruct (delete_advertisement _ _ db) as [db'|] eqn:E; simpl;
      [|apply keeps_closed_refl].
    apply delete_advertisement_frame in E as (_ & _ & _ & _ & -> & _).
    apply keeps_closed_refl.
  - destruct (create_dispute _ _ db) as [[db' d]|] eqn:E; simpl;
      [|apply keeps_closed_refl].
    apply create_dispute_trades in E
      as (it & trade & F & H1 & H2 & _ & _ & _ & -> & _).
    apply list_find_lookup in F as [Hl _].
    apply keeps_closed_alter; [by intros []|].
    intros t Ht [?|[?|?]]; simplify_eq; try congruence.
    by apply set_status_same.
  - destruct (cancel_dispute _ _ _ db) as [db'|] eqn:E; simpl;
      [|apply keeps_closed_refl].
    apply cancel_dispute_frame in E as (_ & _ & _ & _ & _ & _ & -> & _).
    apply keeps_closed_refl.
  - apply _check_and_expire_ads_closed.
Qed.

(** X10.  A trade that is COMPLETED, CANCELLED or DISPUTED is out of the
    hands of its parties: whatever requests are served, as long as none is
    an administrator's [resolve_dispute], the row stays exactly as it is.
    In particular a disputed trade can be neither cancelled nor confirmed,
    and the sweep does not cancel it. *)
Theorem closed_trades_are_final
    (rs : list request) (db : Db) (j : nat) (t : P2PTrade.t) :
  Forall (fun r => ~ resolves r) rs ->
  p2p_trades db !! j = Some t ->
  trade_closed (P2PTrade.status t) ->
  p2p_trades (serve rs db) !! j = Some t.
Proof.
  revert db. induction rs as [|r rs IH]; intros db H Hj Hc; simpl; [done|].
  apply Forall_cons in H as [Hr H].
  apply IH; [done| |done].
  destruct (handle_closed r db Hr j t Hj) as (t' & Hj' & _ & C).
  by rewrite (C Hc) in Hj'.
Qed.

(** Alice disputes the trade she initiated; after that neither her
    cancellation, nor Bob's confirmation, nor the sweep, nor a second
    dispute changes the trade. *)
Lemma closed_trades_are_final_witness :
  let db := serve [Initiate_trade Market.half 1;
                   Create_dispute (mkDisputeCreate 1 None) 1] Market.db in
  let rs := [Cancel_trade 1 1; Mark_payment_sent 1 1; Confirm_payment 1 2 50;
             Check_and_expire_ads 10000; Create_dispute (mkDisputeCreate 1 None) 2;
             Cancel_dispute 1 1 false] in
  exists t,
    p2p_trades db !! 0%nat = Some t
    /\ P2PTrade.status t = P2P_DISPUTED
    /\ p2p_trades (serve rs db) !! 0%nat = Some t.
Proof.
  intros db rs.
  destruct (p2p_trades db !! 0%nat) as [t|] eqn:E; [|by vm_compute in E].
  exists t. split; [reflexivity|].
  assert (S : P2PTrade.status t = P2P_DISPUTED).
  { vm_compute in E. injection E as <-. reflexivity. }
  split; [exact S|].
  apply (closed_trades_are_final rs db 0 t).
  - repeat constructor; simpl; tauto.
  - exact E.
  - right. right. exact S.
Defined.

(** ** Disputes *)

Lemma cancel_dispute_inv dispute_id current_user is_admin db db' :
  cancel_dispute dispute_id current_user is_admin db = Done db' ->
  exists k dispute,
    list_find (fun d => Dispute.id d = dispute_id) (disputes db) = Some (k, dispute)
    /\ Dispute.status dispute = D_OPEN
    /\ (forall it trade,
          list_find (fun t => P2PTrade.id t = Dispute.trade_id dispute) (p2p_trades db)
          = Some (it, trade) -> P2PTrade.status trade <> P2P_DISPUTED)
    /\ disputes db' = delete k (disputes db).
Proof.
  unfold cancel_dispute. intros H.
  destruct (list_find _ (disputes db)) as [[k dispute]|] eqn:F; [|done].
  destruct (decide _) as [|Hu]; [done|].
  destruct (decide _) as [|Hs]; [done|]. apply dec_stable in Hs.
  exists k, dispute. split; [done|]. split; [done|].
  destruct (list_find _ (p2p_trades db)) as [[it trade]|] eqn:Ft.
  - destruct (decide _) as [|Hd]; [done|]. injection H as <-.
    split; [|done]. by intros ? ? [= <- <-].
  - injection H as <-. split; [|done]. by intros ? ?.
Qed.

(** The trade of a dispute just filed, as the handlers look it up. *)
Lemma create_dispute_disputed dispute_data current_user db db' d :
  create_dispute dispute_data current_user db = Done (db', d) ->
  exists it t,
    list_find (fun t => P2PTrade.id t = dc_trade_id dispute_data) (p2p_trades db')
    = Some (it, t)
    /\ P2PTrade.status t = P2P_DISPUTED
    /\ (P2PTrade.buyer_id t = current_user \/ P2PTrade.seller_id t = current_user).
Proof.
  intros H.
  apply create_dispute_trades in H as (it & trade & F & _ & _ & Hu & _ & _ & -> & _).
  exists it, (P2PTrade.set_status P2P_DISPUTED trade).
  rewrite list_find_alter by (by intros []). rewrite F. simpl.
  rewrite decide_True by done. by destruct trade.
Qed.

(** X11.  A dispute that has just been filed cannot be withdrawn.  After a
    successful [create_dispute], [cancel_dispute] of the new dispute fails
    for everybody: for the filer and for an administrator it raises
    [AttributeError] at [trade.payment_confirmed], an attribute the trade
    model does not have, since the trade is DISPUTED; for any other user it
    is refused.  Nothing is deleted and the trade stays DISPUTED. *)
Theorem filed_dispute_cannot_be_withdrawn
    (dispute_data : DisputeCreate) (current_user : Z) (db db' : Db) (d : Dispute.t)
    (user : Z) (is_admin : bool) :
  create_dispute dispute_data current_user db = Done (db', d) ->
  cancel_dispute (Dispute.id d) user is_admin db'
  = if decide (current_user <> user /\ is_admin = false) then
      Failed (Http HTTP_403_FORBIDDEN "You can only cancel your own disputes")
    else Failed (AttributeError "payment_confirmed").
Proof.
  intros H.
  destruct (create_dispute_disputed _ _ _ _ _ H) as (it & t & Ft & Hs & _).
  apply create_dispute_trades in H as (_ & _ & _ & _ & _ & _ & _ & Hd & _ & D).
  unfold cancel_dispute. rewrite D.
  rewrite (list_find_new Dispute.id _ (disputes db) d); [|done|done|by rewrite Hd].
  subst d. simpl.
  destruct (decide _); [done|]. rewrite Ft. by rewrite decide_True.
Qed.

Lemma filed_dispute_cannot_be_withdrawn_witness :
  let db := serve [Initiate_trade Market.half 1] Market.db in
  exists db' d,
    create_dispute (mkDisputeCreate 1 None) 1 db = Done (db', d)
    /\ P2PTrade.status <$> p2p_trades db' = [P2P_DISPUTED]
    /\ cancel_dispute (Dispute.id d) 1 false db'
       = Failed (AttributeError "payment_confirmed")
    /\ cancel_dispute (Dispute.id d) 2 false db'
       = Failed (Http 403 "You can only cancel your own disputes").
Proof.
  intros db.
  destruct (create_dispute (mkDisputeCreate 1 None) 1 db) as [[db' d]|e] eqn:E;
    [|by vm_compute in E].
  exists db', d. split; [reflexivity|].
  pose proof (filed_dispute_cannot_be_withdrawn _ _ _ _ _ 1 false E) as H1.
  pose proof (filed_dispute_cannot_be_withdrawn _ _ _ _ _ 2 false E) as H2.
  split; [vm_compute in E; by injection E as <- <-|].
  split; [exact H1|exact H2].
Defined.

(** X12.  A trade has one dispute.  After a successful [create_dispute] on
    a trade, every further [create_dispute] on that trade is refused,
    whatever evidence it carries: with 400 "Dispute already exists for this
    trade" when it comes from the buyer or from the seller of the trade,
    with 403 when it comes from anybody else. *)
Theorem second_dispute_is_refused
    (dispute_data : DisputeCreate) (current_user : Z) (db db' : Db) (d : Dispute.t) :
  create_dispute dispute_data current_user db = Done (db', d) ->
  exists it trade,
    list_find (fun t => P2PTrade.id t = dc_trade_id dispute_data) (p2p_trades db)
    = Some (it, trade)
    /\ (P2PTrade.buyer_id trade = current_user
        \/ P2PTrade.seller_id trade = current_user)
    /\ forall (dispute_data' : DisputeCreate) (user : Z),
         dc_trade_id dispute_data' = dc_trade_id dispute_data ->
         create_dispute dispute_data' user db'
         = if decide (P2PTrade.buyer_id trade = user \/ P2PTrade.seller_id trade = user)
           then Failed (Http HTTP_400_BAD_REQUEST
                          "Dispute already exists for this trade")
           else Failed (Http HTTP_403_FORBIDDEN
                          "You can only file disputes on your own trades").
Proof.
  intros H.
  apply create_dispute_trades in H as (it & trade & F & _ & _ & Hu & Fd & Hd & T & D).
  exists it, trade. split; [done|]. split; [done|].
  intros dispute_data' user Eid.
  assert (Ft : list_find (fun t => P2PTrade.id t = dc_trade_id dispute_data)
                 (p2p_trades db')
               = Some (it, P2PTrade.set_status P2P_DISPUTED trade)).
  { rewrite T, list_find_alter by (by intros []). rewrite F. simpl.
    by rewrite decide_True. }
  assert (Fd' : list_find (fun x => Dispute.trade_id x = dc_trade_id dispute_data)
                  (disputes db') = Some (length (disputes db), d)).
  { rewrite D. apply list_find_Some. split_and!.
    - by rewrite lookup_app_r, Nat.sub_diag.
    - by rewrite Hd.
    - intros j y Hj Hlt Hy. rewrite lookup_app_l in Hj by done.
      apply list_find_None in Fd.
      by apply (proj1 (Forall_lookup _ _) Fd j y Hj). }
  unfold create_dispute. rewrite Eid, Ft.
  destruct trade as [tid ad b sl am pr tf cu fc st es ca]. simpl in *.
  destruct (decide (b = user \/ sl = user)) as [Hp|Hp].
  - destruct (decide (b <> user /\ sl <> user)) as [[? ?]|_];
      [destruct Hp; done|].
    destruct (decide (P2P_DISPUTED = P2P_COMPLETED \/ P2P_DISPUTED = P2P_CANCELLED))
      as [[|]|_]; [done|done|].
    by rewrite Fd'.
  - destruct (decide (b <> user /\ sl <> user)) as [|Hn]; [done|].
    exfalso. apply Hn. split; intros ?; apply Hp; auto.
Qed.

(** Alice disputes her trade with Bob; a second dispute on it is refused to
    her and to Bob with 400, to Carol with 403. *)
Lemma second_dispute_is_refused_witness :
  let db := serve [Initiate_trade Market.half 1] Market.db in
  exists db' d,
    create_dispute (mkDisputeCreate 1 None) 1 db = Done (db', d)
    /\ create_dispute (mkDisputeCreate 1 None) 1 db'
       = Failed (Http 400 "Dispute already exists for this trade")
    /\ create_dispute (mkDisputeCreate 1 (Some ["receipt"])) 2 db'
       = Failed (Http 400 "Dispute already exists for this trade")
    /\ create_dispute (mkDisputeCreate 1 None) 3 db'
       = Failed (Http 403 "You can only file disputes on your own trades").
Proof.
  intros db.
  destruct (create_dispute (mkDisputeCreate 1 None) 1 db) as [[db' d]|e] eqn:E;
    [|by vm_compute in E].
  exists db', d. split; [reflexivity|].
  destruct (second_dispute_is_refused (mkDisputeCreate 1 None) 1 db db' d E)
    as (it & trade & F & _ & H).
  vm_compute in F. injection F as <- <-.
  split; [exact (H (mkDisputeCreate 1 None) 1%Z eq_refl)|].
  split; [exact (H (mkDisputeCreate 1 (Some ["receipt"])) 2%Z eq_refl)|].
  exact (H (mkDisputeCreate 1 None) 3%Z eq_refl).
Defined.

(** *** A dispute stands until it is resolved *)

(** The query by id selects the same closed row after a step that keeps
    closed rows. *)
Lemma list_find_closed l l' trade_id it t :
  keeps_closed l l' ->
  list_find (fun x => P2PTrade.id x = trade_id) l = Some (it, t) ->
  trade_closed (P2PTrade.status t) ->
  list_find (fun x => P2PTrade.id x = trade_id) l' = Some (it, t).
Proof.
  intros K F Hc. apply list_find_Some in F as (Hl & Hid & Hmin).
  apply list_find_Some. split_and!.
  - destruct (K it t Hl) as (t' & H' & _ & C). by rewrite (C Hc) in H'.
  - done.
  - intros j y Hj Hlt Hy.
    assert (is_Some (l !! j)) as [x Hx].
    { apply lookup_lt_is_Some. apply lookup_lt_Some in Hl. lia. }
    destruct (K j x Hx) as (x' & Hx' & I & _).
    rewrite Hj in Hx'. injection Hx' as <-.
    apply (Hmin j x Hx Hlt). congruence.
Qed.

Lemma handle_disputed r db trade_id :
  ~ resolves r -> disputed_trade trade_id db -> disputed_trade trade_id (handle r db).
Proof.
  intros Hr (it & t & F & Hs). exists it, t. split; [|done].
  eapply list_find_closed; [by apply handle_closed|done|].
  right. by right.
Qed.

Lemma elem_of_delete_other {A} (l : list A) k x y :
  y ∈ l -> l !! k = Some x -> x <> y -> y ∈ delete k l.
Proof.
  intros Hy Hk Hne. apply list_elem_of_lookup in Hy as [j Hj].
  assert (j <> k) by (intros ->; congruence).
  destruct (decide (j < k)%nat).
  - apply (list_elem_of_lookup_2 _ j). by rewrite list_lookup_delete_lt.
  - apply (list_elem_of_lookup_2 _ (pred j)).
    rewrite list_lookup_delete_ge by lia.
    by replace (S (pred j)) with j by lia.
Qed.

Lemma handle_disputes_same r db :
  match r with
  | Create_dispute _ _ | Cancel_dispute _ _ _ | Resolve_dispute _ _ _ _ => True
  | _ => disputes (handle r db) = disputes db
  end.
Proof.
  destruct r; simpl; [..|done|done|done|].
  - destruct (create_order _ _ _ db) as [[db' oid]|] eqn:E; simpl; [|done].
    by apply create_order_frame in E as (_ & _ & _ & -> & _).
  - destruct (cancel_order _ _ db) as [db'|] eqn:E; simpl; [|done].
    by apply cancel_order_tables in E as (_ & _ & _ & -> & _).
  - destruct (initiate_trade _ _ db) as [[db' t]|] eqn:E; simpl; [|done].
    by apply initiate_trade_frame in E as (_ & _ & _ & -> & _).
  - destruct (mark_payment_sent _ _ db) as [db'|] eqn:E; simpl; [|done].
    by apply mark_payment_sent_frame in E as (_ & _ & _ & _ & _ & _ & -> & _).
  - destruct (confirm_payment _ _ _ db) as [db'|] eqn:E; simpl; [|done].
    by apply confirm_payment_tables in E as (_ & _ & _ & -> & _).
  - destruct (cancel_trade _ _ db) as [db'|] eqn:E; simpl; [|done].
    by apply cancel_trade_tables in E as (_ & _ & _ & -> & _).
  - destruct (delete_advertisement _ _ db) as [db'|] eqn:E; simpl; [|done].
    by apply delete_advertisement_frame in E as (_ & _ & _ & _ & _ & _ & -> & _).
  - by destruct (_check_and_expire_ads_escrows now db) as [_ ->].
Qed.

Lemma handle_dispute_stays r db d :
  ~ resolves r -> disputed_trade (Dispute.trade_id d) db ->
  d ∈ disputes db -> d ∈ disputes (handle r db).
Proof.
  intros Hr (it & t & F & Hs) Hd.
  pose proof (handle_disputes_same r db) as S.
  destruct r; simpl in *; try tauto; try (by rewrite S).
  - destruct (create_dispute _ _ db) as [[db' d']|] eqn:E; simpl; [|done].
    apply create_dispute_trades in E as (_ & _ & _ & _ & _ & _ & _ & _ & _ & ->).
    apply elem_of_app. by left.
  - destruct (cancel_dispute _ _ _ db) as [db'|] eqn:E; simpl; [|done].
    apply cancel_dispute_inv in E as (k & dispute & Fk & _ & Ht & ->).
    apply list_find_lookup in Fk as [Hk _].
    eapply elem_of_delete_other; [done|done|].
    intros ->. by apply (Ht it t).
Qed.

(** X13.  Neither the trading handlers nor [cancel_dispute] end a dispute.
    After a successful [create_dispute], and whatever calls of
    [create_order], [cancel_order], [initiate_trade], [mark_payment_sent],
    [confirm_payment], [cancel_trade], [delete_advertisement],
    [create_dispute], [cancel_dispute] and of the sweep follow (the
    requests of [request] but [resolve_dispute]): the dispute row is still
    in the table as it was filed, OPEN, and the trade of that id is still
    DISPUTED.  With these calls the parties can neither withdraw the
    dispute nor cancel or complete the trade, and the sweep does not cancel
    it.  [add_evidence] and [update_dispute], which set the status of a
    dispute, are no requests of [request]. *)
Theorem dispute_stands_until_resolved
    (dispute_data : DisputeCreate) (current_user : Z) (db db1 : Db) (d : Dispute.t)
    (rs : list request) :
  create_dispute dispute_data current_user db = Done (db1, d) ->
  Forall (fun r => ~ resolves r) rs ->
  Dispute.status d = D_OPEN
  /\ Dispute.trade_id d = dc_trade_id dispute_data
  /\ d ∈ disputes (serve rs db1)
  /\ disputed_trade (dc_trade_id dispute_data) (serve rs db1).
Proof.
  intros H Hrs.
  destruct (create_dispute_disputed _ _ _ _ _ H) as (it & t & Ft & Hs & _).
  apply create_dispute_trades in H as (_ & _ & _ & _ & _ & _ & _ & Hd & _ & D).
  assert (Ht : Dispute.trade_id d = dc_trade_id dispute_data) by (by rewrite Hd).
  split; [by rewrite Hd|]. split; [done|].
  assert (I : d ∈ disputes db1 /\ disputed_trade (dc_trade_id dispute_data) db1).
  { split; [rewrite D; apply elem_of_app; right; by left|by exists it, t]. }
  clear -Hrs Ht I. revert db1 I.
  induction rs as [|r rs IH]; intros db1 [I1 I2]; simpl; [done|].
  apply Forall_cons in Hrs as [Hr Hrs]. apply IH; [done|]. split.
  - apply handle_dispute_stays; [done|by rewrite Ht|done].
  - by apply handle_disputed.
Qed.

(** Alice disputes her trade; she and Bob then try everything. *)
Lemma dispute_stands_until_resolved_witness :
  let db := serve [Initiate_trade Market.half 1] Market.db in
  let rs := [Cancel_dispute 1 1 false; Cancel_trade 1 1; Mark_payment_sent 1 1;
             Confirm_payment 1 2 50; Check_and_expire_ads 10000;
             Cancel_dispute 1 2 true] in
  exists db1 d,
    create_dispute (mkDisputeCreate 1 None) 1 db = Done (db1, d)
    /\ disputes (serve rs db1) = [d]
    /\ Dispute.status d = D_OPEN
    /\ disputed_trade 1 (serve rs db1).
Proof.
  intros db rs.
  destruct (create_dispute (mkDisputeCreate 1 None) 1 db) as [[db1 d]|e] eqn:E;
    [|by vm_compute in E].
  exists db1, d. split; [reflexivity|].
  destruct (dispute_stands_until_resolved _ _ _ _ _ rs E) as (Hs & _ & _ & Ht).
  - repeat constructor; simpl; tauto.
  - split; [|by split].
    vm_compute in E. injection E as <- <-. vm_compute. reflexivity.
Defined.

(** *** One dispute for a trade *)

Lemma handle_one_dispute r db :
  NoDup (Dispute.trade_id <$> disputes db) ->
  NoDup (Dispute.trade_id <$> disputes (handle r db)).
Proof.
  intros Hnd. pose proof (handle_disputes_same r db) as S.
  destruct r; simpl in *; try (by rewrite S).
  - destruct (create_dispute _ _ db) as [[db' d']|] eqn:E; simpl; [|done].
    apply create_dispute_trades in E as (_ & _ & _ & _ & _ & _ & Fd & Hd & _ & ->).
    rewrite fmap_app. apply NoDup_app. split_and!; [done| |apply NoDup_singleton].
    intros x Hx Hx'. apply list_elem_of_fmap in Hx as (y & -> & Hy).
    simpl in Hx'. apply list_elem_of_singleton in Hx'.
    apply list_find_None in Fd.
    apply (proj1 (Forall_forall _ _) Fd y Hy). rewrite Hx', Hd. done.
  - destruct (cancel_dispute _ _ _ db) as [db'|] eqn:E; simpl; [|done].
    apply cancel_dispute_inv in E as (k & dispute & _ & _ & _ & ->).
    rewrite list_fmap_delete. eapply sublist_NoDup; [done|apply sublist_delete].
  - destruct (resolve_dispute _ _ _ _ db) as [db'|] eqn:E; simpl; [|done].
    apply resolve_dispute_disputes in E as (k & d & _ & ->).
    rewrite (list_fmap_alter _ _ id).
    + by rewrite list_alter_id.
    + apply Forall_forall. by intros [].
Qed.

(** X14.  No trade ever has two disputes.  If no two rows of the dispute
    table refer to the same trade, the same holds after any sequence of
    requests: the handlers keep the uniqueness that the column
    [Dispute.trade_id] declares. *)
Theorem one_dispute_per_trade (rs : list request) (db : Db) :
  NoDup (Dispute.trade_id <$> disputes db) ->
  NoDup (Dispute.trade_id <$> disputes (serve rs db)).
Proof.
  revert db. induction rs as [|r rs IH]; intros db H; simpl; [done|].
  apply IH. by apply handle_one_dispute.
Qed.

Lemma one_dispute_per_trade_witness :
  let rs := [Initiate_trade Market.half 1; Create_dispute (mkDisputeCreate 1 None) 1;
             Create_dispute (mkDisputeCreate 1 None) 2;
             Resolve_dispute 1 Examples.refund 9 60] in
  Dispute.trade_id <$> disputes (serve rs Market.db) = [1%Z]
  /\ NoDup (Dispute.trade_id <$> disputes (serve rs Market.db)).
Proof.
  intros rs. split; [vm_compute; reflexivity|].
  apply (one_dispute_per_trade rs Market.db). simpl. apply NoDup_nil_2.
Defined.

(** ** Confirming a payment *)

Lemma confirm_payment_wallets trade_id current_user now db db' :
  confirm_payment trade_id current_user now db = Ok db' ->
  exists it trade,
    list_find (fun t => P2PTrade.id t = trade_id
                        /\ P2PTrade.seller_id t = current_user) (p2p_trades db)
    = Some (it, trade)
    /\ P2PTrade.status trade = P2P_PAYMENT_SENT
    /\ wallets db' = confirm_wallets trade (wallets db).
Proof.
  unfold confirm_payment. intros H.
  destruct (list_find _ (p2p_trades db)) as [[it trade]|] eqn:F; [|done].
  destruct (decide _) as [|Hs]; [done|]. apply dec_stable in Hs.
  exists it, trade. split; [done|]. split; [done|].
  set (dbe := match find_escrow db (P2PTrade.escrow_id trade) with
              | Some (ie, _) => _ | None => db end) in H.
  assert (We : wallets dbe = wallets db) by (unfold dbe; by destruct (find_escrow _ _) as [[]|]).
  clearbody dbe.
  unfold confirm_wallets, confirm_fiat, confirm_crypto.
  change (find_wallet_in (wallets db) ?u ?c) with (find_wallet db u c).
  assert (Fe : forall u c, find_wallet dbe u c = find_wallet db u c).
  { intros u c. unfold find_wallet. by rewrite We. }
  rewrite !Fe in H. cbv zeta in H.
  destruct (find_wallet db (P2PTrade.seller_id trade) (P2PTrade.currency trade))
    as [[i1 w1]|] eqn:F1;
  destruct (find_wallet db (P2PTrade.buyer_id trade) (P2PTrade.currency trade))
    as [[i2 w2]|] eqn:F2;
  unfold find_wallet in H; unfold find_wallet_in; simpl in H |- *;
  rewrite ?We in H;
  repeat match type of H with
  | context [list_find ?P ?l] => destruct (list_find P l) as [[? ?]|]
  end; simpl in H |- *; injection H as <-; simpl; rewrite ?We; reflexivity.
Qed.

Lemma supply_add c w l :
  supply c (add w l)
  == supply c l + (if decide (Wallet.currency w = c) then total w else 0).
Proof.
  unfold add. induction l as [|x l IH]; simpl.
  - rewrite supply_cons. unfold supply. simpl. case_decide; lra.
  - rewrite !supply_cons. repeat case_decide; lra.
Qed.

Lemma find_wallet_in_lookup l u c i w :
  find_wallet_in l u c = Some (i, w) ->
  l !! i = Some w /\ Wallet.user_id w = u /\ Wallet.currency w = c.
Proof. intros H. apply list_find_lookup in H. tauto. Qed.

Lemma credit_found_in l u c i w c' delta :
  find_wallet_in l u c = Some (i, w) ->
  credit c' l (Some i) delta = if decide (c = c') then delta else 0.
Proof.
  intros F. unfold credit. simpl.
  apply find_wallet_in_lookup in F as (-> & _ & ->). done.
Qed.

Lemma credit_alter c f j o l delta :
  keeps_key f -> credit c (alter f j l) o delta = credit c l o delta.
Proof. apply (credit_upd_at c f (Some j)). Qed.

(** What the wallets of a currency hold after the crypto leg. *)
Lemma supply_confirm_crypto c t l0 :
  supply c (confirm_crypto t l0)
  == supply c l0
     + (if decide (P2PTrade.currency t = c) then
          match find_wallet_in l0 (P2PTrade.seller_id t) (P2PTrade.currency t) with
          | Some _ => 0
          | None => P2PTrade.amount t
          end
        else 0).
Proof.
  unfold confirm_crypto.
  destruct (find_wallet_in l0 (P2PTrade.seller_id t) (P2PTrade.currency t))
    as [[i1 w1]|] eqn:F1;
  destruct (find_wallet_in l0 (P2PTrade.buyer_id t) (P2PTrade.currency t))
    as [[i2 w2]|] eqn:F2; cbn [fmap option_fmap option_map fst upd_at].
  - rewrite (supply_alter c _ _ _ (P2PTrade.amount t));
      [|done|intros; apply total_set_available; intros; lra].
    rewrite (supply_alter c _ _ _ (- P2PTrade.amount t));
      [|done|intros; apply total_set_locked; intros; lra].
    rewrite credit_alter by apply keeps_key_set_locked.
    rewrite (credit_found_in _ _ _ _ _ _ _ F1), (credit_found_in _ _ _ _ _ _ _ F2).
    case_decide; lra.
  - rewrite supply_add. simpl.
    rewrite (supply_alter c _ _ _ (- P2PTrade.amount t));
      [|done|intros; apply total_set_locked; intros; lra].
    rewrite (credit_found_in _ _ _ _ _ _ _ F1).
    unfold total. simpl. case_decide; lra.
  - rewrite (supply_alter c _ _ _ (P2PTrade.amount t));
      [|done|intros; apply total_set_available; intros; lra].
    rewrite (credit_found_in _ _ _ _ _ _ _ F2). case_decide; lra.
  - rewrite supply_add. simpl. unfold total. simpl. case_decide; lra.
Qed.

(** What they hold after the fiat leg. *)
Lemma supply_confirm_fiat c t l2 :
  supply c (confirm_fiat t l2)
  == supply c l2
     + (if decide (P2PTrade.fiat_currency t = c) then
          match find_wallet_in l2 (P2PTrade.buyer_id t) (P2PTrade.fiat_currency t) with
          | Some _ => 0
          | None => P2PTrade.total_fiat t
          end
        else 0).
Proof.
  unfold confirm_fiat.
  destruct (find_wallet_in l2 (P2PTrade.buyer_id t) (P2PTrade.fiat_currency t))
    as [[i1 w1]|] eqn:F1;
  destruct (find_wallet_in l2 (P2PTrade.seller_id t) (P2PTrade.fiat_currency t))
    as [[i2 w2]|] eqn:F2; cbn [fmap option_fmap option_map fst upd_at].
  - rewrite (supply_alter c _ _ _ (P2PTrade.total_fiat t));
      [|done|intros; apply total_set_available; intros; lra].
    rewrite (supply_alter c _ _ _ (- P2PTrade.total_fiat t));
      [|done|intros; apply total_set_available; intros; lra].
    rewrite credit_alter by apply keeps_key_set_available.
    rewrite (credit_found_in _ _ _ _ _ _ _ F1), (credit_found_in _ _ _ _ _ _ _ F2).
    case_decide; lra.
  - rewrite supply_add. simpl.
    rewrite (supply_alter c _ _ _ (- P2PTrade.total_fiat t));
      [|done|intros; apply total_set_available; intros; lra].
    rewrite (credit_found_in _ _ _ _ _ _ _ F1).
    unfold total. simpl. case_decide; lra.
  - rewrite (supply_alter c _ _ _ (P2PTrade.total_fiat t));
      [|done|intros; apply total_set_available; intros; lra].
    rewrite (credit_found_in _ _ _ _ _ _ _ F2). case_decide; lra.
  - rewrite supply_add. simpl. unfold total. simpl. case_decide; lra.
Qed.

Lemma find_wallet_in_alter l f i u c :
  keeps_key f ->
  find_wallet_in (alter f i l) u c = upd_row (Some i) f <$> find_wallet_in l u c.
Proof. apply (find_wallet_in_upd_at l (Some i)). Qed.

Lemma find_wallet_in_add_None l w u c :
  find_wallet_in (add w l) u c = None
  <-> find_wallet_in l u c = None /\ ~ (Wallet.user_id w = u /\ Wallet.currency w = c).
Proof.
  unfold find_wallet_in, add. rewrite !list_find_None, Forall_app, Forall_singleton.
  done.
Qed.

(** The crypto leg keeps the wallets and their keys; if it adds one, it is
    a wallet in the crypto currency. *)
Lemma find_confirm_crypto t l0 u c :
  find_wallet_in (confirm_crypto t l0) u c = None ->
  find_wallet_in l0 u c = None.
Proof.
  unfold confirm_crypto. cbv zeta. set (l1 := upd_at _ _ l0). intros H.
  assert (K : find_wallet_in l1 u c = None).
  { destruct (find_wallet_in l0 (P2PTrade.buyer_id t) (P2PTrade.currency t))
      as [[i2 w2]|].
    - rewrite find_wallet_in_alter in H by apply keeps_key_set_available.
      by destruct (find_wallet_in l1 u c).
    - by apply find_wallet_in_add_None in H as [H _]. }
  unfold l1 in K. rewrite find_wallet_in_upd_at in K by apply keeps_key_set_locked.
  by destruct (find_wallet_in l0 u c).
Qed.

Lemma find_confirm_crypto_None t l0 u c :
  find_wallet_in l0 u c = None -> c <> P2PTrade.currency t ->
  find_wallet_in (confirm_crypto t l0) u c = None.
Proof.
  unfold confirm_crypto. cbv zeta. set (l1 := upd_at _ _ l0). intros F Hc.
  assert (K : find_wallet_in l1 u c = None).
  { unfold l1. by rewrite find_wallet_in_upd_at, F by apply keeps_key_set_locked. }
  destruct (find_wallet_in l0 (P2PTrade.buyer_id t) (P2PTrade.currency t))
    as [[i2 w2]|].
  - by rewrite find_wallet_in_alter, K by apply keeps_key_set_available.
  - apply find_wallet_in_add_None. split; [done|]. simpl. intros [_ E]. congruence.
Qed.

(** X15.  A confirmed payment moves funds, it does not make any.  When the
    seller has a wallet in the crypto currency and the buyer one in the
    fiat currency, [confirm_payment] leaves what all wallets hold of every
    currency as it was: what the seller's locked balance loses the buyer
    gets, what the buyer pays the seller gets, and a receiving wallet that
    is missing is created with exactly the amount received. *)
Theorem confirm_payment_conserves_supply
    (trade_id current_user now : Z) (db db' : Db) (it : nat) (trade : P2PTrade.t) :
  confirm_payment trade_id current_user now db = Ok db' ->
  list_find (fun t => P2PTrade.id t = trade_id /\ P2PTrade.seller_id t = current_user)
    (p2p_trades db) = Some (it, trade) ->
  is_Some (find_wallet db (P2PTrade.seller_id trade) (P2PTrade.currency trade)) ->
  is_Some (find_wallet db (P2PTrade.buyer_id trade) (P2PTrade.fiat_currency trade)) ->
  forall c, supply c (wallets db') == supply c (wallets db).
Proof.
  intros H F [x1 F1] [x2 F2] c.
  apply confirm_payment_wallets in H as (it' & trade' & F' & _ & ->).
  rewrite F in F'. injection F' as <- <-.
  unfold confirm_wallets. rewrite supply_confirm_fiat, supply_confirm_crypto.
  change (find_wallet_in (wallets db) ?u ?c) with (find_wallet db u c).
  rewrite F1.
  destruct (find_wallet_in (confirm_crypto trade (wallets db))
              (P2PTrade.buyer_id trade) (P2PTrade.fiat_currency trade)) eqn:E.
  - repeat case_decide; lra.
  - apply find_confirm_crypto in E.
    change (find_wallet_in (wallets db) ?u ?c) with (find_wallet db u c) in E.
    congruence.
Qed.

(** X16.  A buyer without a wallet in the fiat currency pays nothing, and
    the seller is paid all the same.  When the trade is in two different
    currencies and the buyer has no fiat wallet, [confirm_payment] raises
    what all wallets hold of the fiat currency by the trade's total: the
    debit is passed over, the credit is not. *)
Theorem confirm_payment_credits_unpaid_fiat
    (trade_id current_user now : Z) (db db' : Db) (it : nat) (trade : P2PTrade.t) :
  confirm_payment trade_id current_user now db = Ok db' ->
  list_find (fun t => P2PTrade.id t = trade_id /\ P2PTrade.seller_id t = current_user)
    (p2p_trades db) = Some (it, trade) ->
  find_wallet db (P2PTrade.buyer_id trade) (P2PTrade.fiat_currency trade) = None ->
  P2PTrade.fiat_currency trade <> P2PTrade.currency trade ->
  supply (P2PTrade.fiat_currency trade) (wallets db')
  == supply (P2PTrade.fiat_currency trade) (wallets db) + P2PTrade.total_fiat trade.
Proof.
  intros H F F2 Hne.
  apply confirm_payment_wallets in H as (it' & trade' & F' & _ & ->).
  rewrite F in F'. injection F' as <- <-.
  unfold confirm_wallets. rewrite supply_confirm_fiat, supply_confirm_crypto.
  rewrite find_confirm_crypto_None by done.
  repeat case_decide; try congruence; lra.
Qed.

(** Bob confirms Alice's payment of 25000 USD for half a bitcoin: the
    dollars and the bitcoins held stay 100000 and 4. *)
Lemma confirm_payment_conserves_supply_witness :
  let db := serve [Initiate_trade Market.half 1; Mark_payment_sent 1 1] Market.db in
  exists db' w,
    confirm_payment 1 2 50 db = Ok db'
    /\ wallet_of db' 1 "BTC" = Some w /\ Wallet.available_balance w == 1 # 2
    /\ supply "USD" (wallets db') == 100000
    /\ supply "BTC" (wallets db') == 4.
Proof.
  intros db.
  destruct (confirm_payment 1 2 50 db) as [db'|e] eqn:E; [|by vm_compute in E].
  destruct (list_find (fun t => P2PTrade.id t = 1%Z /\ P2PTrade.seller_id t = 2%Z)
              (p2p_trades db)) as [[it trade]|] eqn:F; [|by vm_compute in F].
  pose proof (confirm_payment_conserves_supply 1 2 50 db db' it trade E F) as S.
  assert (T : trade = P2PTrade.mk 1 1 1 2 (25000 / 50000) 50000 25000 "BTC" "USD"
                        P2P_PAYMENT_SENT (Some 1%Z) None).
  { vm_compute in F. injection F as _ <-. reflexivity. }
  assert (S' : forall c, supply c (wallets db') == supply c (wallets db)).
  { apply S; rewrite T; vm_compute; eauto. }
  assert (U : supply "USD" (wallets db) == 100000) by (vm_compute; reflexivity).
  assert (B : supply "BTC" (wallets db) == 4) by (vm_compute; reflexivity).
  destruct (wallet_of db' 1 "BTC") as [w|] eqn:W;
    [|vm_compute in E; injection E as <-; by vm_compute in W].
  exists db', w. split; [reflexivity|]. split; [exact W|].
  split; [|split; [by rewrite S', U|by rewrite S', B]].
  vm_compute in E. injection E as <-. vm_compute in W. injection W as <-.
  vm_compute. reflexivity.
Defined.

(** Carol has no dollar wallet.  She buys half a bitcoin from Bob for 25000
    USD: after the confirmation the wallets hold 25000 USD more. *)
Lemma confirm_payment_credits_unpaid_fiat_witness :
  let ledger := [Wallet.mk 4 2 "BTC" 2 0; Wallet.mk 6 3 "BTC" 0 0] in
  let db0 := mkDb ledger [] [] [] [Market.ad] [] [] [] [] in
  let db := serve [Initiate_trade Market.half 3; Mark_payment_sent 1 3] db0 in
  exists db' w,
    confirm_payment 1 2 50 db = Ok db'
    /\ supply "USD" (wallets db) == 0
    /\ supply "USD" (wallets db') == 25000
    /\ wallet_of db' 2 "USD" = Some w /\ Wallet.available_balance w == 25000
    /\ wallet_of db' 3 "USD" = None.
Proof.
  intros ledger db0 db.
  destruct (confirm_payment 1 2 50 db) as [db'|e] eqn:E; [|by vm_compute in E].
  destruct (list_find (fun t => P2PTrade.id t = 1%Z /\ P2PTrade.seller_id t = 2%Z)
              (p2p_trades db)) as [[it trade]|] eqn:F; [|by vm_compute in F].
  pose proof (confirm_payment_credits_unpaid_fiat 1 2 50 db db' it trade E F) as S.
  assert (T : trade = P2PTrade.mk 1 1 3 2 (25000 / 50000) 50000 25000 "BTC" "USD"
                        P2P_PAYMENT_SENT (Some 1%Z) None).
  { vm_compute in F. injection F as _ <-. reflexivity. }
  rewrite T in S. simpl in S.
  assert (S' : supply "USD" (wallets db') == supply "USD" (wallets db) + 25000).
  { apply S; [vm_compute; reflexivity|discriminate]. }
  assert (U : supply "USD" (wallets db) == 0) by (vm_compute; reflexivity).
  destruct (wallet_of db' 2 "USD") as [w|] eqn:W;
    [|vm_compute in E; injection E as <-; by vm_compute in W].
  exists db', w. split; [reflexivity|]. split; [exact U|].
  split; [rewrite S', U; reflexivity|]. split; [exact W|].
  vm_compute in E. injection E as <-. vm_compute in W. injection W as <-.
  split; vm_compute; reflexivity.
Defined.

(** ** The trades the sweep cancels *)

Lemma expire_trades_lookup ia todo : forall db j,
  p2p_trades (foldl (expire_trade ia) db todo) !! j
  = (if decide (j ∈ todo.*1) then P2PTrade.set_status P2P_CANCELLED else id)
      <$> p2p_trades db !! j.
Proof.
  induction todo as [|[it trade] rest IH]; intros db j; cbn [foldl].
  - rewrite decide_False by (simpl; apply not_elem_of_nil).
    by destruct (p2p_trades db !! j).
  - rewrite IH, expire_trade_trades, list_lookup_alter, fmap_cons. simpl fst.
    destruct (decide (it = j)) as [->|Hne].
    + rewrite (decide_True (P := j ∈ j :: rest.*1)) by (by left).
      destruct (p2p_trades db !! j) as [t|]; simpl; [|by repeat case_decide].
      case_decide; [by destruct t|done].
    + destruct (decide (j ∈ rest.*1)) as [Hin|Hin].
      * by rewrite decide_True by (by right).
      * rewrite decide_False; [done|]. intros [->|?]%elem_of_cons; done.
Qed.

Lemma expire_ad_sweeps now db ia ad :
  p2p_trades (expire_ad now db (ia, ad))
  = if decide (expired now ad) then cancel_where (pending_trade_of ad) (p2p_trades db)
    else p2p_trades db.
Proof.
  unfold expire_ad. case_decide; [|done].
  apply list_eq. intros j. rewrite expire_trades_lookup. simpl.
  unfold cancel_where. rewrite list_lookup_fmap.
  destruct (p2p_trades db !! j) as [t|] eqn:Hj; simpl; [|by repeat case_decide].
  destruct (decide (pending_trade_of ad t)) as [Hp|Hp].
  - rewrite decide_True; [done|].
    apply list_elem_of_fmap. exists (j, t). split; [done|].
    apply list_elem_of_filter. split; [done|].
    apply elem_of_lookup_imap. by exists j, t.
  - rewrite decide_False; [done|]. intros Hin.
    apply list_elem_of_fmap in Hin as ([j' t'] & -> & Hin). simpl in *.
    apply list_elem_of_filter in Hin as [Hp' Hin]. simpl in Hp'.
    apply elem_of_lookup_imap in Hin as (k & y & [= -> ->] & Hl).
    rewrite Hj in Hl. by injection Hl as <-.
Qed.

(** The sweep, as far as the trade table goes: one pass for each
    advertisement of the list. *)
Lemma expire_ads_sweep now todo : forall db,
  p2p_trades (foldl (expire_ad now) db todo)
  = foldl (fun l (x : nat * P2PAdvertisement.t) =>
             if decide (expired now x.2) then cancel_where (pending_trade_of x.2) l
             else l) (p2p_trades db) todo.
Proof.
  induction todo as [|[ia ad] rest IH]; intros db; cbn [foldl]; [done|].
  by rewrite IH, expire_ad_sweeps.
Qed.

Lemma cancel_where_passes now ads : forall l,
  foldl (fun l (x : nat * P2PAdvertisement.t) =>
           if decide (expired now x.2) then cancel_where (pending_trade_of x.2) l
           else l) l ads
  = cancel_where
      (fun t => (P2PTrade.status t = P2P_PENDING \/ P2PTrade.status t = P2P_PAYMENT_SENT)
                /\ Exists (fun x : nat * P2PAdvertisement.t =>
                             expired now x.2
                             /\ P2PTrade.advertisement_id t = P2PAdvertisement.id x.2)
                     ads) l.
Proof.
  induction ads as [|[ia ad] rest IH]; intros l; cbn [foldl].
  - unfold cancel_where. rewrite <- (list_fmap_id l) at 1.
    apply list_fmap_ext. intros j t _. simpl.
    rewrite decide_False; [done|]. intros [_ H]. by apply Exists_nil in H.
  - rewrite IH. unfold cancel_where. simpl.
    destruct (decide (expired now ad)) as [He|He].
    + rewrite <- list_fmap_compose. apply list_fmap_ext. intros j t _. simpl.
      destruct (decide (pending_trade_of ad t)) as [[Hid Hp]|Hn].
      * rewrite decide_False by (simpl; intros [[?|?] _]; discriminate).
        rewrite decide_True; [done|]. split; [done|]. by left.
      * destruct (decide (_ /\ Exists _ rest)) as [[Hp Hex]|Hno].
        -- rewrite decide_True; [done|]. split; [done|]. by right.
        -- rewrite decide_False; [done|]. intros [Hp Hex].
           apply Exists_cons in Hex as [[_ Hid]|Hex]; [|tauto].
           apply Hn. by split.
    + apply list_fmap_ext. intros j t _. simpl.
      destruct (decide (_ /\ Exists _ rest)) as [[Hp Hex]|Hno].
      * rewrite decide_True; [done|]. split; [done|]. by right.
      * rewrite decide_False; [done|]. intros [Hp Hex].
        apply Exists_cons in Hex as [[? _]|Hex]; tauto.
Qed.

(** X17.  Where the deadline of every active advertisement is a date, so
    that the sweep computes it without raising, the sweep cancels exactly
    the trades that are PENDING or PAYMENT_SENT and belong to an
    advertisement that was active and has expired; every other trade is as
    it was.  A trade whose payment the buyer has marked as sent is
    cancelled like one that is merely pending; a COMPLETED, CANCELLED,
    DISPUTED or PAYMENT_RECEIVED trade is never touched.  (Where a deadline
    does not fit, with a [payment_time_limit] that takes it beyond the year
    9999, the method rolls back and cancels nothing; the statement does not
    cover that run.) *)
Theorem sweep_cancels_exactly (now : Z) (db : Db) :
  deadlines_fit db ->
  p2p_trades (_check_and_expire_ads now db)
  = cancel_where (swept now db) (p2p_trades db).
Proof.
  intros _.
  unfold _check_and_expire_ads. rewrite expire_ads_sweep, cancel_where_passes.
  unfold cancel_where. apply list_fmap_ext. intros j t _. simpl.
  assert (E : Exists (fun x : nat * P2PAdvertisement.t =>
                        expired now x.2
                        /\ P2PTrade.advertisement_id t = P2PAdvertisement.id x.2)
                (filter (fun x => P2PAdvertisement.is_active x.2 = true)
                   (imap (fun i a => (i, a)) (advertisements db)))
              <-> Exists (fun ad => P2PAdvertisement.is_active ad = true
                                    /\ expired now ad
                                    /\ P2PTrade.advertisement_id t
                                       = P2PAdvertisement.id ad)
                    (advertisements db)).
  { rewrite !Exists_exists. split.
    - intros ([i a] & Hin & He & Hid). simpl in *.
      apply list_elem_of_filter in Hin as [Ha Hin]. simpl in Ha.
      apply elem_of_lookup_imap in Hin as (k & y & [= <- <-] & Hl).
      exists a. split; [by eapply list_elem_of_lookup_2|done].
    - intros (a & Hin & Ha & He & Hid).
      apply list_elem_of_lookup in Hin as [i Hl].
      exists (i, a). split; [|done].
      apply list_elem_of_filter. split; [done|].
      apply elem_of_lookup_imap. by exists i, a. }
  unfold swept. destruct (decide (_ /\ Exists _ (filter _ _))) as [[Hp Hex]|Hno].
  - rewrite decide_True; [done|]. split; [done|]. by apply E.
  - rewrite decide_False; [done|]. intros [Hp Hex]. apply Hno. split; [done|].
    by apply E.
Qed.

(** Bob's advertisement of 1970 with its limit of 30 minutes has expired by
    the second 5000, and the pending trade on it is cancelled. *)
Lemma sweep_cancels_exactly_witness :
  let db :=
    with_advertisements (fun _ => [P2PAdvertisement.set_is_active true Examples.p2p_ad])
      (Examples.p2p_db P2P_PENDING []) in
  deadlines_fit db
  /\ p2p_trades (_check_and_expire_ads 5000 db)
     = cancel_where (swept 5000 db) (p2p_trades db)
  /\ P2PTrade.status <$> cancel_where (swept 5000 db) (p2p_trades db)
     = [P2P_CANCELLED].
Proof.
  intros db.
  assert (H : deadlines_fit db).
  { apply (bool_decide_unpack _). vm_compute. reflexivity. }
  split; [exact H|]. split; [exact (sweep_cancels_exactly 5000 db H)|].
  vm_compute. reflexivity.
Defined.

(** ** Fills and trades *)

Lemma match_loop_recorded ia cands : forall order db,
  ia ∉ cands.*1 -> orders db !! ia = Some order ->
  exists new_trades order',
    trades (match_loop ia order cands db).1 = trades db ++ new_trades
    /\ orders (match_loop ia order cands db).1 !! ia = Some order'
    /\ OrderBookOrder.remaining_quantity order'
       == OrderBookOrder.remaining_quantity order - traded new_trades
    /\ terms order' = terms order
    /\ Forall (fun t => Trade.order_id t = OrderBookOrder.id order) new_trades.
Proof.
  induction cands as [|[ic m] rest IH]; intros order db Hia Ha; simpl.
  - exists [], order. rewrite app_nil_r. unfold traded. simpl.
    split_and!; try done. lra.
  - destruct (decide _).
    { exists [], order. rewrite app_nil_r. unfold traded. simpl.
      split_and!; try done. lra. }
    destruct (match_step ia order ic m db) as [[db1 order1]|ex] eqn:S.
    2:{ exists [], order. rewrite app_nil_r. unfold traded. simpl.
        split_and!; try done. lra. }
    apply match_step_Ok in S as (p & base & quote & _ & _ & -> & O1 & T1 & _).
    set (q := Qmin _ _) in *.
    rewrite fmap_cons in Hia. apply not_elem_of_cons in Hia as [Hne Hia].
    simpl in Hne.
    assert (Hlt : (ia < length (orders db))%nat) by (by eapply lookup_lt_Some).
    destruct (IH (fill q order) db1 Hia) as (nt & order' & T & O & R & Tm & Fa).
    { rewrite O1. rewrite list_lookup_insert_ne by done.
      by rewrite list_lookup_insert_eq. }
    exists (trade_of order m p q :: nt), order'.
    destruct (fill_static q order) as (Hid & _ & _ & _ & _ & _ & _ & _ & Hrem).
    split_and!.
    + by rewrite T, T1, <- app_assoc.
    + done.
    + rewrite R, Hrem. unfold traded. rewrite fmap_cons. cbn [foldr].
      unfold trade_of. cbn [Trade.quantity].
      generalize (foldr Qplus 0 (Trade.quantity <$> nt)). intros s. lra.
    + by rewrite Tm, fill_terms.
    + constructor; [done|]. by rewrite Hid in Fa.
Qed.

(** X18.  Every unit filled is recorded in a trade.  After a matching pass
    for the order at row [ia], that row still holds the order, with the
    same terms, and what remains of it is what remained before less the
    quantities of the trades the pass has added; each of these trades
    carries the order's id. *)
Theorem fills_are_recorded (order_id : Z) (db : Db) (ia : nat) (order : Order) :
  find_order db order_id = Some (ia, order) ->
  exists new_trades order',
    trades (match_order order_id db).1 = trades db ++ new_trades
    /\ orders (match_order order_id db).1 !! ia = Some order'
    /\ OrderBookOrder.remaining_quantity order'
       == OrderBookOrder.remaining_quantity order - traded new_trades
    /\ terms order' = terms order
    /\ Forall (fun t => Trade.order_id t = order_id) new_trades.
Proof.
  intros F. unfold match_order. rewrite F.
  pose proof (find_order_lookup _ _ _ _ F) as [Ha Hid].
  destruct (decide _).
  { exists [], order. rewrite app_nil_r. unfold traded. simpl.
    split_and!; try done. lra. }
  rewrite <- Hid. apply match_loop_recorded; [|done].
  by eapply aggressor_not_candidate.
Qed.

(** The BUY of 3/2 BTC trades 1 BTC with Bob and 1/2 BTC with Carol. *)
Lemma fills_are_recorded_witness :
  let buy := OrderBookOrder.mk 3 1 "BTC/USD" BUY LIMIT (Some 50000) (3 # 2) (3 # 2)
               PENDING 5 in
  let db := with_orders (add buy) Examples.two_sells in
  exists new_trades order',
    trades (match_order 3 db).1 = new_trades
    /\ Trade.quantity <$> new_trades = [1; 1 # 2]
    /\ orders (match_order 3 db).1 !! 2%nat = Some order'
    /\ OrderBookOrder.remaining_quantity order' == (3 # 2) - traded new_trades
    /\ OrderBookOrder.status order' = FILLED.
Proof.
  intros buy db.
  destruct (fills_are_recorded 3 db 2 buy) as (nt & order' & T & O & R & _).
  { vm_compute. reflexivity. }
  exists nt, order'. split; [exact T|].
  assert (N : Trade.quantity <$> nt = [1; 1 # 2]).
  { change (trades db) with (@nil Trade.t) in T. simpl in T. rewrite <- T.
    vm_compute. reflexivity. }
  split; [exact N|]. split; [exact O|]. split; [exact R|].
  vm_compute in O. injection O as <-. reflexivity.
Defined.

(** ** Deleting an advertisement *)

Lemma delete_advertisement_inv ad_id current_user db db' :
  delete_advertisement ad_id current_user db = Ok db' ->
  exists ia ad,
    advertisements db !! ia = Some ad
    /\ P2PAdvertisement.id ad = ad_id
    /\ P2PAdvertisement.user_id ad = current_user
    /\ db' = with_advertisements (alter (P2PAdvertisement.set_is_active false) ia) db.
Proof.
  unfold delete_advertisement. intros H.
  destruct (list_find _ (advertisements db)) as [[ia ad]|] eqn:F; [|done].
  injection H as <-. apply list_find_lookup in F as (Hl & Hid & Hu).
  by exists ia, ad.
Qed.

(** X19.  A deleted advertisement takes no new trade.  When the
    advertisements have distinct ids, after a successful
    [delete_advertisement] every [initiate_trade] on that advertisement is
    refused with 404 "Advertisement not found or inactive", whoever asks
    and for whatever amount. *)
Theorem deleted_advertisement_takes_no_trade
    (ad_id current_user : Z) (db db' : Db) (trade_data : P2PTradeCreate) (user : Z) :
  delete_advertisement ad_id current_user db = Ok db' ->
  NoDup (P2PAdvertisement.id <$> advertisements db) ->
  tc_advertisement_id trade_data = ad_id ->
  initiate_trade trade_data user db'
  = Raise (HTTPException HTTP_404_NOT_FOUND "Advertisement not found or inactive").
Proof.
  intros H Hnd Hid.
  apply delete_advertisement_inv in H as (ia & ad & Hl & Ha & _ & ->).
  unfold initiate_trade. simpl.
  rewrite (proj2 (list_find_None _ _)); [done|].
  apply Forall_lookup. intros j a Hj [Hja Hact].
  rewrite list_lookup_alter in Hj. case_decide.
  - subst j. rewrite Hl in Hj. injection Hj as <-. done.
  - assert ((P2PAdvertisement.id <$> advertisements db) !! j = Some ad_id)
      by (by rewrite list_lookup_fmap, Hj; simpl; congruence).
    assert ((P2PAdvertisement.id <$> advertisements db) !! ia = Some ad_id)
      by (by rewrite list_lookup_fmap, Hl; simpl; congruence).
    pose proof (NoDup_lookup _ _ _ _ Hnd H0 H1). done.
Qed.

Lemma deleted_advertisement_takes_no_trade_witness :
  exists db',
    delete_advertisement 1 2 Market.db = Ok db'
    /\ (exists r, initiate_trade Market.half 1 Market.db = Ok r)
    /\ initiate_trade Market.half 1 db'
       = Raise (HTTPException 404 "Advertisement not found or inactive").
Proof.
  destruct (delete_advertisement 1 2 Market.db) as [db'|e] eqn:E;
    [|by vm_compute in E].
  exists db'. split; [reflexivity|]. split; [vm_compute; eauto|].
  apply (deleted_advertisement_takes_no_trade 1 2 Market.db db' Market.half 1 E);
    [|reflexivity].
  simpl. apply NoDup_singleton.
Defined.

(** X20.  Cancelling a trade brings a deleted advertisement back.  When
    the advertisements have distinct ids and the owner has deleted an
    advertisement that still offers a non-negative amount, a successful
    [cancel_trade] of one of its trades, of a positive amount, leaves the
    advertisement active again, with the amount of the trade added to what
    it offers. *)
Theorem cancel_trade_reactivates_deleted_advertisement
    (ad_id current_user : Z) (db db1 db2 : Db) (trade_id user : Z)
    (it : nat) (trade : P2PTrade.t) (ia : nat) (ad : P2PAdvertisement.t) :
  delete_advertisement ad_id current_user db = Ok db1 ->
  NoDup (P2PAdvertisement.id <$> advertisements db) ->
  advertisements db !! ia = Some ad -> P2PAdvertisement.id ad = ad_id ->
  0 <= P2PAdvertisement.available_amount ad ->
  list_find (fun t => P2PTrade.id t = trade_id
                      /\ (P2PTrade.buyer_id t = user \/ P2PTrade.seller_id t = user))
    (p2p_trades db1) = Some (it, trade) ->
  P2PTrade.advertisement_id trade = ad_id -> 0 < P2PTrade.amount trade ->
  cancel_trade trade_id user db1 = Ok db2 ->
  exists ad1 ad2,
    advertisements db1 !! ia = Some ad1 /\ P2PAdvertisement.is_active ad1 = false
    /\ advertisements db2 !! ia = Some ad2 /\ P2PAdvertisement.is_active ad2 = true
    /\ P2PAdvertisement.available_amount ad2
       = P2PAdvertisement.available_amount ad + P2PTrade.amount trade.
Proof.
  intros H Hnd Hl Hid Hav F Hadv Hpos C.
  apply delete_advertisement_inv in H as (ia' & ad' & Hl' & Ha' & _ & ->).
  assert (ia' = ia) as ->.
  { assert ((P2PAdvertisement.id <$> advertisements db) !! ia' = Some ad_id)
      by (by rewrite list_lookup_fmap, Hl'; simpl; congruence).
    assert ((P2PAdvertisement.id <$> advertisements db) !! ia = Some ad_id)
      by (by rewrite list_lookup_fmap, Hl; simpl; congruence).
    by pose proof (NoDup_lookup _ _ _ _ Hnd H H0). }
  clear Hl' Ha'.
  exists (P2PAdvertisement.set_is_active false ad),
    (restore (P2PTrade.amount trade) (P2PAdvertisement.set_is_active false ad)).
  split; [by simpl; rewrite list_lookup_alter_eq, Hl|]. split; [done|].
  unfold cancel_trade in C. rewrite F in C.
  destruct (decide _) in C; [|done]. injection C as <-.
  set (dbe := match find_escrow _ _ with Some _ => _ | None => _ end).
  assert (He : advertisements dbe
               = alter (P2PAdvertisement.set_is_active false) ia (advertisements db)).
  { unfold dbe. by destruct (find_escrow _ _) as [[]|]. }
  set (dbu := unlock_seller _ _ _ dbe).
  assert (Hu : advertisements dbu = advertisements dbe)
    by (unfold dbu; apply unlock_seller_frame).
  assert (Fa : list_find (fun a => P2PAdvertisement.id a
                                   = P2PTrade.advertisement_id trade)
                 (advertisements dbu)
               = Some (ia, P2PAdvertisement.set_is_active false ad)).
  { rewrite Hu, He. rewrite list_find_alter by (by intros []).
    rewrite Hadv, <- Hid. rewrite (list_find_key P2PAdvertisement.id _ ia ad) by done.
    simpl. by rewrite decide_True. }
  rewrite Fa. simpl. rewrite Hu, He. rewrite !list_lookup_alter_eq, Hl. simpl.
  split; [done|]. unfold restore. simpl.
  split; [|by case_decide]. rewrite decide_True; [done|]. lra.
Qed.

Lemma cancel_trade_reactivates_deleted_advertisement_witness :
  let db := serve [Initiate_trade Market.half 1] Market.db in
  exists db1 db2 ad1 ad2,
    delete_advertisement 1 2 db = Ok db1
    /\ cancel_trade 1 1 db1 = Ok db2
    /\ advertisements db1 !! 0%nat = Some ad1
    /\ P2PAdvertisement.is_active ad1 = false
    /\ advertisements db2 !! 0%nat = Some ad2
    /\ P2PAdvertisement.is_active ad2 = true
    /\ P2PAdvertisement.available_amount ad2 == 2.
Proof.
  intros db.
  destruct (delete_advertisement 1 2 db) as [db1|e] eqn:D; [|by vm_compute in D].
  destruct (cancel_trade 1 1 db1) as [db2|e] eqn:C.
  2:{ vm_compute in D. injection D as <-. by vm_compute in C. }
  destruct (advertisements db !! 0%nat) as [ad|] eqn:Hl; [|by vm_compute in Hl].
  destruct (list_find (fun t => P2PTrade.id t = 1%Z
                                /\ (P2PTrade.buyer_id t = 1%Z \/ P2PTrade.seller_id t = 1%Z))
              (p2p_trades db1)) as [[it trade]|] eqn:F.
  2:{ vm_compute in D. injection D as <-. by vm_compute in F. }
  assert (Had : ad = P2PAdvertisement.mk 1 2 SELL "BTC" "USD" 50000 10 50000
                       (2 - 25000 / 50000) 30 true 0).
  { vm_compute in Hl. injection Hl as <-. reflexivity. }
  assert (Htr : P2PTrade.advertisement_id trade = 1%Z
                /\ P2PTrade.amount trade = 25000 / 50000).
  { vm_compute in D. injection D as <-. vm_compute in F. injection F as _ <-.
    split; reflexivity. }
  destruct Htr as [Hadv Hamt].
  destruct (cancel_trade_reactivates_deleted_advertisement 1 2 db db1 db2 1 1
              it trade 0 ad D) as (ad1 & ad2 & H1 & A1 & H2 & A2 & Av);
    try done.
  - simpl. apply NoDup_singleton.
  - by rewrite Had.
  - rewrite Had. vm_compute. discriminate.
  - rewrite Hamt. vm_compute. reflexivity.
  - exists db1, db2, ad1, ad2. split_and!; try done.
    rewrite Av, Had, Hamt. vm_compute. reflexivity.
Defined.

(** ** A trade that runs its course *)

Lemma mark_payment_sent_inv trade_id current_user db it trade :
  list_find (fun t => P2PTrade.id t = trade_id /\ P2PTrade.buyer_id t = current_user)
    (p2p_trades db) = Some (it, trade) ->
  P2PTrade.status trade = P2P_PENDING ->
  mark_payment_sent trade_id current_user db
  = Ok (with_p2p_trades (alter (P2PTrade.set_status P2P_PAYMENT_SENT) it) db).
Proof.
  intros F Hs. unfold mark_payment_sent. rewrite F.
  by rewrite decide_False by (by intros ?).
Qed.

(** A confirmation of a trade whose payment is marked as sent goes
    through: no balance is checked. *)
Lemma confirm_payment_total trade_id current_user now db it trade :
  list_find (fun t => P2PTrade.id t = trade_id /\ P2PTrade.seller_id t = current_user)
    (p2p_trades db) = Some (it, trade) ->
  P2PTrade.status trade = P2P_PAYMENT_SENT ->
  exists db',
    confirm_payment trade_id current_user now db = Ok db'
    /\ wallets db' = confirm_wallets trade (wallets db)
    /\ p2p_trades db'
       = alter (fun t => P2PTrade.set_completed_at (Some now)
                           (P2PTrade.set_status P2P_COMPLETED t)) it (p2p_trades db)
    /\ escrows db'
       = match find_escrow db (P2PTrade.escrow_id trade) with
         | Some (ie, _) =>
             alter (fun e => Escrow.set_released_at (Some now)
                               (Escrow.set_status "RELEASED" e)) ie (escrows db)
         | None => escrows db
         end.
Proof.
  intros F Hs.
  destruct (confirm_payment trade_id current_user now db) as [db'|e] eqn:E.
  - exists db'. split; [done|].
    pose proof (confirm_payment_wallets _ _ _ _ _ E) as (it' & trade' & F' & _ & W).
    rewrite F in F'. injection F' as <- <-. split; [done|].
    pose proof (confirm_payment_trades _ _ _ _ _ E) as (it' & trade' & Hl' & _ & T).
    unfold confirm_payment in E. rewrite F in E.
    rewrite decide_False in E by (by intros ?).
    cbv zeta in E.
    repeat match type of E with
    | context [match find_wallet ?d ?u ?c with _ => _ end] =>
        destruct (find_wallet d u c) as [[? ?]|]
    end;
    injection E as <-; destruct (find_escrow db _) as [[ie e]|]; simpl;
      (split; [|done]); done.
  - exfalso. unfold confirm_payment in E. rewrite F in E.
    rewrite decide_False in E by (by intros ?).
    cbv zeta in E.
    repeat match type of E with
    | context [match find_wallet ?d ?u ?c with _ => _ end] =>
        destruct (find_wallet d u c) as [[? ?]|]
    end; done.
Qed.

Lemma find_wallet_in_alter_other l f i u c :
  keeps_key f ->
  (forall w, l !! i = Some w -> ~ (Wallet.user_id w = u /\ Wallet.currency w = c)) ->
  find_wallet_in (alter f i l) u c = find_wallet_in l u c.
Proof.
  intros Hf Hi. rewrite find_wallet_in_alter by done.
  destruct (find_wallet_in l u c) as [[j x]|] eqn:F; [|done].
  unfold upd_row. simpl. case_decide; [|done]. subst. exfalso.
  apply find_wallet_in_lookup in F as (Hl & ? & ?). by eapply Hi.
Qed.

Lemma find_wallet_in_add_other l w u c :
  ~ (Wallet.user_id w = u /\ Wallet.currency w = c) ->
  find_wallet_in (add w l) u c = find_wallet_in l u c.
Proof.
  intros Hw. unfold find_wallet_in, add.
  destruct (list_find _ l) as [[j x]|] eqn:F.
  - by apply list_find_app_l.
  - rewrite list_find_app_r by done. simpl. by rewrite decide_False.
Qed.

Lemma find_wallet_in_add_new l w u c :
  find_wallet_in l u c = None -> Wallet.user_id w = u -> Wallet.currency w = c ->
  find_wallet_in (add w l) u c = Some (length l, w).
Proof.
  intros F Hu Hc. unfold find_wallet_in, add in *.
  rewrite list_find_app_r by done. simpl. rewrite decide_True by done.
  simpl. repeat f_equal; lia.
Qed.

(** The fiat leg leaves the wallets of other currencies alone. *)
Lemma find_confirm_fiat_other t l2 u c :
  c <> P2PTrade.fiat_currency t ->
  find_wallet_in (confirm_fiat t l2) u c = find_wallet_in l2 u c.
Proof.
  intros Hc. unfold confirm_fiat. cbv zeta.
  set (l3 := upd_at _ _ l2).
  assert (H3 : find_wallet_in l3 u c = find_wallet_in l2 u c).
  { unfold l3.
    destruct (find_wallet_in l2 (P2PTrade.buyer_id t) (P2PTrade.fiat_currency t))
      as [[i w]|] eqn:F; [|done]. simpl.
    apply find_wallet_in_alter_other; [apply keeps_key_set_available|].
    apply find_wallet_in_lookup in F as (Hl & _ & Hcur).
    intros w' Hw' [_ E]. congruence. }
  destruct (find_wallet_in l2 (P2PTrade.seller_id t) (P2PTrade.fiat_currency t))
    as [[i w]|] eqn:F.
  - rewrite find_wallet_in_alter_other; [done|apply keeps_key_set_available|].
    apply find_wallet_in_lookup in F as (Hl & _ & Hcur).
    intros w' Hw' [_ E]. unfold l3 in Hw'.
    destruct (fst <$> find_wallet_in l2 _ _) as [j|]; simpl in Hw'.
    + rewrite list_lookup_alter in Hw'. case_decide.
      * match goal with Hji : j = i |- _ => rewrite Hji in Hw' end.
        rewrite Hl in Hw'. injection Hw' as <-. simpl in E. congruence.
      * congruence.
    + congruence.
  - rewrite find_wallet_in_add_other; [done|]. simpl. intros [_ E]. congruence.
Qed.

(** The crypto leg, for the seller and for the buyer. *)
Lemma confirm_crypto_seller t l0 i w :
  find_wallet_in l0 (P2PTrade.seller_id t) (P2PTrade.currency t) = Some (i, w) ->
  P2PTrade.buyer_id t <> P2PTrade.seller_id t ->
  find_wallet_in (confirm_crypto t l0) (P2PTrade.seller_id t) (P2PTrade.currency t)
  = Some (i, Wallet.set_locked (fun l => l - P2PTrade.amount t) w).
Proof.
  intros F Hne. unfold confirm_crypto. cbv zeta. rewrite F. simpl.
  assert (F1 : find_wallet_in
                 (alter (Wallet.set_locked (fun l => l - P2PTrade.amount t)) i l0)
                 (P2PTrade.seller_id t) (P2PTrade.currency t)
               = Some (i, Wallet.set_locked (fun l => l - P2PTrade.amount t) w)).
  { rewrite find_wallet_in_alter, F by apply keeps_key_set_locked.
    unfold upd_row. simpl. by rewrite decide_True. }
  destruct (find_wallet_in l0 (P2PTrade.buyer_id t) (P2PTrade.currency t))
    as [[i2 w2]|] eqn:F2.
  - rewrite find_wallet_in_alter_other; [done|apply keeps_key_set_available|].
    intros w' Hw' [Hu _].
    apply find_wallet_in_lookup in F2 as (H2 & Hu2 & _).
    rewrite list_lookup_alter in Hw'. case_decide.
    + subst. apply find_wallet_in_lookup in F as (H1 & Hu1 & _).
      rewrite H1 in H2. injection H2 as <-. congruence.
    + rewrite H2 in Hw'. injection Hw' as <-. congruence.
  - rewrite find_wallet_in_add_other; [done|]. simpl. intros [? _]. done.
Qed.

Lemma confirm_crypto_buyer t l0 :
  P2PTrade.buyer_id t <> P2PTrade.seller_id t ->
  exists j wb,
    find_wallet_in (confirm_crypto t l0) (P2PTrade.buyer_id t) (P2PTrade.currency t)
    = Some (j, wb)
    /\ Wallet.available_balance wb
       == match find_wallet_in l0 (P2PTrade.buyer_id t) (P2PTrade.currency t) with
          | Some (_, w0) => Wallet.available_balance w0
          | None => 0
          end + P2PTrade.amount t.
Proof.
  intros Hne. unfold confirm_crypto. cbv zeta. set (l1 := upd_at _ _ l0).
  assert (F1 : find_wallet_in l1 (P2PTrade.buyer_id t) (P2PTrade.currency t)
               = find_wallet_in l0 (P2PTrade.buyer_id t) (P2PTrade.currency t)).
  { unfold l1.
    destruct (find_wallet_in l0 (P2PTrade.seller_id t) (P2PTrade.currency t))
      as [[i w]|] eqn:F; [|done]. simpl.
    apply find_wallet_in_alter_other; [apply keeps_key_set_locked|].
    apply find_wallet_in_lookup in F as (Hl & Hu & _).
    intros w' Hw' [Hu' _]. congruence. }
  destruct (find_wallet_in l0 (P2PTrade.buyer_id t) (P2PTrade.currency t))
    as [[i2 w2]|] eqn:F2.
  - rewrite find_wallet_in_alter, F1 by apply keeps_key_set_available.
    eexists _, _. split; [done|]. unfold upd_row. simpl.
    rewrite decide_True by done. by destruct w2.
  - rewrite (find_wallet_in_add_new l1) by done.
    eexists _, _. split; [done|]. simpl. lra.
Qed.

Lemma initiate_trade_locks_amount_parties trade_data current_user db db' t :
  initiate_trade trade_data current_user db = Ok (db', t) ->
  P2PTrade.buyer_id t <> P2PTrade.seller_id t.
Proof.
  intros H.
  apply initiate_trade_inv in H
    as (ia & ad & iw & w & F & Hu & _ & _ & _ & _ & _ & _ & -> & _).
  simpl. unfold p2p_buyer, p2p_seller.
  destruct (P2PAdvertisement.ad_type ad); congruence.
Qed.


